(** * Jurifix: the anonymisation and correction pipeline of [app.py]

    A shallow embedding of the request handlers of [src/app.py] that
    decide the documented properties of the pipeline: the text
    anonymiser [anonymiser_texte], the correction handler
    [process_text] and the document handlers [save_document],
    [handle_documents] and [handle_document].

    Python values are modelled as follows.
    - A [str] is a list of Unicode code points ([N]).
    - The [re] module is modelled by a backtracking matcher over a
      regular-expression syntax tree, with the priorities of CPython's
      engine (ordered alternation, greedy repetition, leftmost match).
    - The Unicode character database, the HTML parser, the completion
      client, the clock and the UUID generator are collaborators of the
      program; they are parameters of the development. *)

From Stdlib Require Import List NArith ZArith Bool Arith Lia String Ascii.
Import ListNotations.

Set Implicit Arguments.
Set Warnings "-register-all".

(* ================================================================== *)
(** * Python strings *)
(* ================================================================== *)

Module Py.

Definition char := N.
Definition str := list char.

Definition chr (a : ascii) : char := N_of_ascii a.

(** Source literals are written in UTF-8; [lit] decodes them into code
    points, as the Python tokenizer does for a string literal. *)
Fixpoint utf8_decode (bs : list N) : str :=
  match bs with
  | [] => []
  | b0 :: t =>
      if (b0 <? 192)%N then b0 :: utf8_decode t
      else if (b0 <? 224)%N then
        match t with
        | b1 :: t1 => ((b0 - 192) * 64 + (b1 - 128))%N :: utf8_decode t1
        | [] => []
        end
      else if (b0 <? 240)%N then
        match t with
        | b1 :: b2 :: t2 =>
            ((b0 - 224) * 4096 + (b1 - 128) * 64 + (b2 - 128))%N
              :: utf8_decode t2
        | _ => []
        end
      else
        match t with
        | b1 :: b2 :: b3 :: t3 =>
            ((b0 - 240) * 262144 + (b1 - 128) * 4096
             + (b2 - 128) * 64 + (b3 - 128))%N :: utf8_decode t3
        | _ => []
        end
  end.

Definition lit (s : string) : str :=
  utf8_decode (map chr (list_ascii_of_string s)).

(** [==] on strings. *)
Fixpoint eqb (a b : str) : bool :=
  match a, b with
  | [], [] => true
  | x :: a', y :: b' => (x =? y)%N && eqb a' b'
  | _, _ => false
  end.

(** [str.isspace] for one code point (the whitespace set of CPython's
    [_PyUnicode_IsWhitespace]). *)
Definition isspace (c : char) : bool :=
  ((9 <=? c) && (c <=? 13) || (28 <=? c) && (c <=? 32)
   || (c =? 133) || (c =? 160) || (c =? 5760)
   || (8192 <=? c) && (c <=? 8202)
   || (c =? 8232) || (c =? 8233) || (c =? 8239) || (c =? 8287)
   || (c =? 12288))%N.

Fixpoint lstrip (s : str) : str :=
  match s with
  | [] => []
  | c :: t => if isspace c then lstrip t else s
  end.

Definition rstrip (s : str) : str := rev (lstrip (rev s)).

(** [s.strip()] *)
Definition strip (s : str) : str := rstrip (lstrip s).

(** [s.split()]: the maximal runs of non-whitespace characters.  [w] is
    the current run, reversed. *)
Fixpoint split_go (w : str) (s : str) : list str :=
  match s with
  | [] => match w with [] => [] | _ => [rev w] end
  | c :: t =>
      if isspace c
      then match w with [] => split_go [] t | _ => rev w :: split_go [] t end
      else split_go (c :: w) t
  end.

Definition split (s : str) : list str := split_go [] s.

(** [s.split(sep)] for a separator of one character; the result always
    has at least one element. *)
Fixpoint split_on (sep : char) (s : str) : list str :=
  match s with
  | [] => [[]]
  | c :: t =>
      if (c =? sep)%N then [] :: split_on sep t
      else match split_on sep t with
           | h :: r => (c :: h) :: r
           | [] => [[c]]
           end
  end.

(** [sep.join(parts)] *)
Fixpoint join (sep : str) (parts : list str) : str :=
  match parts with
  | [] => []
  | [p] => p
  | p :: rest => p ++ sep ++ join sep rest
  end.

(** [s.startswith(p)] and [s.endswith(p)] *)
Fixpoint startswith (p s : str) : bool :=
  match p, s with
  | [], _ => true
  | x :: p', y :: s' => (x =? y)%N && startswith p' s'
  | _ :: _, [] => false
  end.

Definition endswith (p s : str) : bool := startswith (rev p) (rev s).

(** [p in s]: substring test. *)
Fixpoint contains (p s : str) : bool :=
  startswith p s
  || match s with
     | [] => false
     | _ :: t => contains p t
     end.

(** [s[1:-1]] *)
Definition slice_1_m1 (s : str) : str := removelast (tl s).

(** Truth value of a string: non-empty. *)
Definition truthy (s : str) : bool :=
  match s with [] => false | _ => true end.

End Py.

Import Py.

(* ================================================================== *)
(** * The regular-expression engine ([re.sub]) *)
(* ================================================================== *)

Module Sre.

(** The part of the Unicode character database the engine consults for
    code points above Latin-1.  Latin-1 (code points below 256) is
    fixed in the engine. *)
Class Unicode := {
  u_lower : char -> char;        (* simple lower-case mapping *)
  u_cased : char -> bool;        (* has a distinct lower or upper case *)
  u_alnum : char -> bool;        (* [str.isalnum] *)
  u_decimal : char -> bool;      (* [str.isdecimal] *)
  u_fixes : char -> list char    (* extra case-insensitive equivalents *)
}.

(** A table for texts within Latin-1: beyond it every character is
    taken as an uncased symbol. *)
Definition latin1_only : Unicode := {|
  u_lower := fun c => c;
  u_cased := fun _ => false;
  u_alnum := fun _ => false;
  u_decimal := fun _ => false;
  u_fixes := fun _ => []
|}.

(** Members of a character set [[...]]. *)
Inductive category := CWord | CSpace | CDigit.

Inductive item :=
| ILit (c : char)
| IRange (lo hi : char)
| ICat (k : category).

(** Pattern syntax: the constructs the program's patterns use. *)
Inductive regex :=
| Empty
| Lit (c : char)
| In (cs : list item)
| WordBoundary
| Cat (r1 r2 : regex)
| Alt (r1 r2 : regex)
| Repeat (lo : nat) (hi : option nat) (r : regex)
| Group (n : nat) (r : regex).

Record pattern := { re : regex; ignorecase : bool }.

(** Replacement template: literal text and group references. *)
Inductive titem :=
| TLit (s : str)
| TGroup (n : nat).

(** Matcher state: the character before the position, the text from the
    position on, and the captured groups (latest first). *)
Record mstate := {
  prev : option char;
  rest : str;
  groups : list (nat * str)
}.

Section Engine.
Context {U : Unicode}.

Definition between (lo hi c : char) : bool := ((lo <=? c) && (c <=? hi))%N.
Arguments between (lo hi c)%_N.

Definition lower (c : char) : char :=
  if (c <? 256)%N
  then if between 65 90 c || between 192 214 c || between 216 222 c
       then (c + 32)%N else c
  else u_lower c.

Definition iscased (c : char) : bool :=
  if (c <? 256)%N
  then between 65 90 c || between 97 122 c || (c =? 181)%N
       || between 192 214 c || between 216 246 c || between 248 255 c
  else u_cased c.

(** [\d] *)
Definition is_digit (c : char) : bool :=
  if (c <? 256)%N then between 48 57 c else u_decimal c.

(** [\w] *)
Definition is_word (c : char) : bool :=
  if (c <? 256)%N
  then between 48 57 c || between 65 90 c || (c =? 95)%N
       || between 97 122 c || (c =? 170)%N || between 178 179 c
       || (c =? 181)%N || between 185 186 c || between 188 190 c
       || between 192 214 c || between 216 246 c || between 248 255 c
  else u_alnum c.

(** Characters that match a lower-cased character in addition to
    itself under IGNORECASE. *)
Definition fixes (c : char) : list char :=
  if (c =? 105)%N then [305%N]
  else if (c =? 115)%N then [383%N]
  else if (c =? 181)%N then [956%N]
  else if (c <? 256)%N then []
  else u_fixes c.

Definition folded (a : char) : list char := lower a :: fixes (lower a).

Definition range (lo hi : char) : list char :=
  map (fun i => (lo + N.of_nat i)%N) (seq 0 (N.to_nat (hi + 1 - lo))).

Definition in_category (k : category) (c : char) : bool :=
  match k with
  | CWord => is_word c
  | CSpace => isspace c
  | CDigit => is_digit c
  end.

Definition in_item (it : item) (c : char) : bool :=
  match it with
  | ILit a => (c =? a)%N
  | IRange lo hi => between lo hi c
  | ICat k => in_category k c
  end.

(** Membership of an already lower-cased candidate in the set compiled
    under IGNORECASE (every member lower-cased, plus its [fixes]). *)
Definition in_item_ignore (it : item) (c : char) : bool :=
  match it with
  | ILit a => existsb (N.eqb c) (folded a)
  | IRange lo hi => existsb (fun i => existsb (N.eqb c) (folded i)) (range lo hi)
  | ICat k => in_category k c
  end.

Definition item_cased (it : item) : bool :=
  match it with
  | ILit a => iscased a
  | IRange lo hi => existsb iscased (range lo hi)
  | ICat _ => false
  end.

Definition in_set (ic : bool) (cs : list item) (c : char) : bool :=
  if ic && existsb item_cased cs
  then existsb (fun it => in_item_ignore it (lower c)) cs
  else existsb (fun it => in_item it c) cs.

Definition lit_match (ic : bool) (a c : char) : bool :=
  if ic && iscased a
  then existsb (N.eqb (lower c)) (folded a)
  else (c =? a)%N.

Definition word_opt (o : option char) : bool :=
  match o with Some c => is_word c | None => false end.

(** [\b]: exactly one of the two neighbours is a word character. *)
Definition at_boundary (st : mstate) : bool :=
  xorb (word_opt (prev st)) (word_opt (hd_error (rest st))).

Definition advance (c : char) (t : str) (st : mstate) : mstate :=
  {| prev := Some c; rest := t; groups := groups st |}.

Definition consumed (st st' : mstate) : str :=
  firstn (List.length (rest st) - List.length (rest st')) (rest st).

Definition set_group (n : nat) (st st' : mstate) : mstate :=
  {| prev := prev st'; rest := rest st';
     groups := (n, consumed st st') :: groups st' |}.

Definition below (n : nat) (hi : option nat) : bool :=
  match hi with Some h => n <? h | None => true end.

(** Greedy repetition of a matcher [f], having done [n] iterations:
    one more iteration is tried first, then stopping.  An iteration
    must consume text, so [fuel], at least the length of the remaining
    text, bounds the iterations exactly. *)
Fixpoint rep (f : mstate -> list mstate) (lo : nat) (hi : option nat)
    (fuel n : nat) (st : mstate) : list mstate :=
  match fuel with
  | O => []
  | S fuel' =>
      if below n hi
      then flat_map
             (fun st' =>
                if List.length (rest st') <? List.length (rest st)
                then rep f lo hi fuel' (S n) st' else [])
             (f st)
      else []
  end ++ (if lo <=? n then [st] else []).

(** All the ways [r] matches at [st], in the engine's order of
    preference; the first is the match the engine reports. *)
Fixpoint ms (ic : bool) (r : regex) (st : mstate) : list mstate :=
  match r with
  | Empty => [st]
  | Lit a =>
      match rest st with
      | c :: t => if lit_match ic a c then [advance c t st] else []
      | [] => []
      end
  | In cs =>
      match rest st with
      | c :: t => if in_set ic cs c then [advance c t st] else []
      | [] => []
      end
  | WordBoundary => if at_boundary st then [st] else []
  | Cat r1 r2 => flat_map (ms ic r2) (ms ic r1 st)
  | Alt r1 r2 => ms ic r1 st ++ ms ic r2 st
  | Repeat lo hi r' => rep (ms ic r') lo hi (List.length (rest st)) 0 st
  | Group n r' => map (set_group n st) (ms ic r' st)
  end.

(** The match at a position, if any. *)
Definition match_at (p : pattern) (before : option char) (s : str)
  : option mstate :=
  hd_error (ms (ignorecase p) (re p)
               {| prev := before; rest := s; groups := [] |}).

Definition group (st : mstate) (n : nat) : str :=
  match find (fun g => fst g =? n) (groups st) with
  | Some g => snd g
  | None => []
  end.

Definition expand (repl : list titem) (st : mstate) : str :=
  flat_map (fun t => match t with TLit s => s | TGroup n => group st n end)
           repl.

(** [re.sub]: scan from the left; replace each match and resume after
    it; copy a character where nothing matches. *)
Fixpoint sub_loop (p : pattern) (repl : list titem) (fuel : nat)
    (before : option char) (s : str) : str :=
  match fuel with
  | O => s
  | S fuel' =>
      let copy :=
        match s with
        | [] => []
        | c :: t => c :: sub_loop p repl fuel' (Some c) t
        end in
      match match_at p before s with
      | Some st' =>
          if List.length (rest st') <? List.length s
          then expand repl st' ++ sub_loop p repl fuel' (prev st') (rest st')
          else expand repl st' ++ copy
      | None => copy
      end
  end.

Definition sub (p : pattern) (repl : list titem) (s : str) : str :=
  sub_loop p repl (S (List.length s)) None s.

End Engine.

(** Helpers to write patterns. *)
Definition lits (s : str) : regex := fold_right (fun c r => Cat (Lit c) r) Empty s.
Definition plus (r : regex) : regex := Repeat 1 None r.
Definition opt (r : regex) : regex := Repeat 0 (Some 1) r.
Definition times (n : nat) (r : regex) : regex := Repeat n (Some n) r.

End Sre.

Import Sre.

(* ================================================================== *)
(** * The anonymiser: [anonymiser_texte] *)
(* ================================================================== *)

Module Anonymiser.

Definition az : item := IRange (chr "a") (chr "z").
Definition AZ : item := IRange (chr "A") (chr "Z").
Definition d09 : item := IRange (chr "0") (chr "9").
Definition space : regex := In [ICat CSpace].
Definition digit : regex := In [ICat CDigit].

(** [[a-zéèêëàâäôöûüç]] *)
Definition name_letters : list item :=
  az :: map ILit (lit "éèêëàâäôöûüç").

(** [[A-Z][a-zéèêëàâäôöûüç]+] *)
Definition name_word : regex := Cat (In [AZ]) (plus (In name_letters)).

(** [(Monsieur|Mr|M\.|Madame|Mme|Mlle)] *)
Definition honorific : regex :=
  Alt (lits (lit "Monsieur"))
   (Alt (lits (lit "Mr"))
     (Alt (lits (lit "M."))
       (Alt (lits (lit "Madame"))
         (Alt (lits (lit "Mme")) (lits (lit "Mlle")))))).

(** [\b(Monsieur|Mr|M\.|Madame|Mme|Mlle)\s+([A-Z][a-zéèêëàâäôöûüç]+(?:\s+[A-Z][a-zéèêëàâäôöûüç]+)?)]
    compiled with [re.IGNORECASE]. *)
Definition re_nom : pattern := {|
  re := Cat WordBoundary
         (Cat (Group 1 honorific)
           (Cat (plus space)
             (Group 2 (Cat name_word
                         (opt (Cat (plus space) name_word))))));
  ignorecase := true |}.

(** [\b[a-zA-Z0-9_.+-]+@[a-zA-Z0-9-]+\.[a-zA-Z0-9-.]+\b] *)
Definition re_email : pattern := {|
  re := Cat WordBoundary
         (Cat (plus (In [az; AZ; d09; ILit (chr "_"); ILit (chr ".");
                         ILit (chr "+"); ILit (chr "-")]))
           (Cat (Lit (chr "@"))
             (Cat (plus (In [az; AZ; d09; ILit (chr "-")]))
               (Cat (Lit (chr "."))
                 (Cat (plus (In [az; AZ; d09; ILit (chr "-");
                                 ILit (chr ".")]))
                   WordBoundary)))));
  ignorecase := false |}.

(** [[\s.-]?] *)
Definition sep : regex :=
  opt (In [ICat CSpace; ILit (chr "."); ILit (chr "-")]).

(** [\b0[1-9][\s.-]?\d{2}[\s.-]?\d{2}[\s.-]?\d{2}[\s.-]?\d{2}\b] *)
Definition re_telephone : pattern := {|
  re := Cat WordBoundary
         (Cat (Lit (chr "0"))
           (Cat (In [IRange (chr "1") (chr "9")])
             (Cat sep (Cat (times 2 digit)
               (Cat sep (Cat (times 2 digit)
                 (Cat sep (Cat (times 2 digit)
                   (Cat sep (Cat (times 2 digit) WordBoundary))))))))));
  ignorecase := false |}.

(** [\b[A-Z]{2}\d{2}[\s]?[\w\s]{4,30}\b] *)
Definition re_iban : pattern := {|
  re := Cat WordBoundary
         (Cat (times 2 (In [AZ]))
           (Cat (times 2 digit)
             (Cat (opt (In [ICat CSpace]))
               (Cat (Repeat 4 (Some 30) (In [ICat CWord; ICat CSpace]))
                 WordBoundary))));
  ignorecase := false |}.

(** The replacement of each rule. *)
Definition repl_nom : list titem := [TGroup 1; TLit (lit " [nom]")].
Definition repl_email : list titem := [TLit (lit "[email]")].
Definition repl_telephone : list titem := [TLit (lit "[téléphone]")].
Definition repl_iban : list titem := [TLit (lit "[IBAN]")].

(** The rules in the order the function applies them. *)
Definition rules : list (pattern * list titem) :=
  [(re_nom, repl_nom); (re_email, repl_email);
   (re_telephone, repl_telephone); (re_iban, repl_iban)].

Section WithUnicode.
Context {U : Unicode}.

Definition anonymiser_texte (texte : str) : str :=
  let texte := sub re_nom repl_nom texte in
  let texte := sub re_email repl_email texte in
  let texte := sub re_telephone repl_telephone texte in
  let texte := sub re_iban repl_iban texte in
  texte.

End WithUnicode.

End Anonymiser.

Import Anonymiser.

(* ================================================================== *)
(** * The application: data model, collaborators and handlers *)
(* ================================================================== *)

Module App.

Definition dquote : char := 34%N.
Definition squote : char := 39%N.
Definition newline : char := 10%N.

(** ** Data model *)

(** [class AIAgent] *)
Record AIAgent := {
  name : str;
  description : str;
  prompt_template : str;
  model : str;
  access_level : str
}.

(** [AGENTS]: the registry, a dict with the single key ["jurifix"]. *)
Definition AGENTS : list (str * AIAgent) :=
  [(lit "jurifix",
    {| name := lit "JuriFix - Correction Orthographique Précise";
       description := lit "Corrige uniquement l'orthographe et la grammaire sans modifier le style ou les formulations juridiques";
       prompt_template :=
         lit "Tu es un correcteur orthographique expert spécialisé en textes juridiques.

RÈGLES ABSOLUES À RESPECTER :
1. Corrige UNIQUEMENT l'orthographe, la grammaire et la ponctuation
2. Ne change JAMAIS les formulations, le style ou le vocabulaire juridique
3. Préserve ABSOLUMENT la structure et la longueur des phrases
4. Ne reformule RIEN, ne résume RIEN, ne raccourcis RIEN
5. Garde exactement le même niveau de langage et le même ton
6. Conserve tous les termes juridiques techniques tels quels
7. Retourne UNIQUEMENT le texte corrigé, sans aucun commentaire avant ou après
8. Préserve EXACTEMENT le nombre de mots et la structure des phrases

Texte à corriger : "
         ++ [dquote; dquote; dquote] ++ lit "{}"
         ++ [dquote; dquote; dquote] ++ lit "

Retourne UNIQUEMENT le texte corrigé :";
       model := lit "gpt-4";
       access_level := lit "collaborateur" |})].

(** [AGENTS.get(k)]; [k in AGENTS] is [lookup_agent k <> None]. *)
Fixpoint lookup (k : str) (d : list (str * AIAgent)) : option AIAgent :=
  match d with
  | [] => None
  | (k', a) :: d' => if Py.eqb k k' then Some a else lookup k d'
  end.

(** [class Document].  Times are microseconds; [processing_time] is
    kept as the exact number of microseconds of the elapsed time, of
    which the column (a [Float]) holds the seconds, [total_seconds]
    below. *)
Record Document := {
  id : str;
  title : str;
  content : str;
  corrected_content : option str;
  agent_used : str;
  user_id : nat;
  created_at : Z;
  updated_at : Z;
  status : str;
  word_count : nat;
  corrections_count : Z;
  processing_time : Z;
  shared_with : option str;
  visibility : str;
  html_structure : option str
}.

(** [class CorrectionHistory] *)
Record CorrectionHistory := {
  h_id : nat;
  h_document_id : str;
  h_original_text : str;
  h_corrected_text : str;
  h_corrections_made : option str;
  h_timestamp : Z;
  h_ip_address : option str;
  h_user_agent : option str
}.

(** ** Collaborators *)

(** A request to [client.chat.completions.create]. *)
Record message := { role : str; msg_content : str }.

Record completion_request := {
  cr_model : str;
  cr_messages : list message;
  cr_temperature : Z;
  cr_max_tokens : nat
}.

(** Its outcome: a completion whose first choice has the given content
    ([None] for a null content), or an exception with its message. *)
Inductive completion :=
| Reply (content : option str)
| Raised (e : str).

Class Collaborators := {
  (** [BeautifulSoup(texte, 'html.parser').get_text(separator='\n')] *)
  get_text : str -> str;
  (** [client.chat.completions.create(...)] *)
  create : completion_request -> completion;
  (** [datetime.utcnow()], by the number of earlier readings *)
  utcnow : nat -> Z;
  (** [str(uuid.uuid4())], by the number of earlier draws *)
  uuid4 : nat -> str;
  (** [datetime.now().strftime(fmt)] *)
  now_strftime : str -> str
}.

(** ** The state the handlers run in *)

Record World := {
  documents : list Document;             (* table [document], committed *)
  history : list CorrectionHistory;      (* table [correction_history] *)
  calls : list completion_request;       (* completion calls made, latest first *)
  ticks : nat;                           (* readings of the UTC clock *)
  draws : nat                            (* UUIDs drawn *)
}.

Definition tick (w : World) : World :=
  {| documents := documents w; history := history w; calls := calls w;
     ticks := S (ticks w); draws := draws w |}.

Definition draw (w : World) : World :=
  {| documents := documents w; history := history w; calls := calls w;
     ticks := ticks w; draws := S (draws w) |}.

Definition record_call (r : completion_request) (w : World) : World :=
  {| documents := documents w; history := history w; calls := r :: calls w;
     ticks := ticks w; draws := draws w |}.

Definition set_documents (ds : list Document) (w : World) : World :=
  {| documents := ds; history := history w; calls := calls w;
     ticks := ticks w; draws := draws w |}.

(** [Document.query.filter_by(id=i, user_id=u).first()] *)
Definition owned (i : str) (u : nat) (d : Document) : bool :=
  Py.eqb (id d) i && (user_id d =? u).

Definition query_first (i : str) (u : nat) (ds : list Document)
  : option Document := find (owned i u) ds.

(** Writing back the row that [query_first] returned. *)
Fixpoint update_first (i : str) (u : nat) (f : Document -> Document)
    (ds : list Document) : list Document :=
  match ds with
  | [] => []
  | d :: ds' => if owned i u d then f d :: ds'
                else d :: update_first i u f ds'
  end.

(** ** Elapsed time *)

(** [num / den] rounded to the nearest integer, ties to the even one,
    for [0 <= num] and [0 < den]. *)
Definition nearest_even (num den : Z) : Z :=
  let q := (num / den)%Z in
  let r := (num mod den)%Z in
  if (den <? 2 * r)%Z || ((2 * r =? den)%Z && Z.odd q) then (q + 1)%Z
  else q.

(** [p / (q * 2^e)], rounded likewise. *)
Definition scaled (p q e : Z) : Z :=
  if (0 <=? e)%Z then nearest_even p (q * 2 ^ e)
  else nearest_even (p * 2 ^ (- e)) q.

(** A binary64 number is [m * 2^e] with [2^52 <= |m| < 2^53], or zero,
    written [(0, 0)].  The quotients met here are far from the
    subnormal numbers and from overflow. *)
Definition float := (Z * Z)%type.

Definition float_eqb (x y : float) : bool :=
  (fst x =? fst y)%Z && (snd x =? snd y)%Z.

(** [p / q] for integers [0 < p] and [0 < q]: the nearest binary64
    number, ties to even. *)
Definition truediv (p q : Z) : float :=
  let e := (Z.log2 p - Z.log2 q - 52)%Z in
  let m := scaled p q e in
  if (m <? 2 ^ 52)%Z then (scaled p q (e - 1), (e - 1)%Z) else (m, e).

(** [timedelta.total_seconds()], of a difference of [micro]
    microseconds: [micro / 10**6]. *)
Definition total_seconds (micro : Z) : float :=
  if (micro =? 0)%Z then (0%Z, 0%Z)
  else let '(m, e) := truediv (Z.abs micro) 1000000 in
       ((Z.sgn micro * m)%Z, e).

(** [round(x, 2)], in hundredths: the exact value of [x] rounded to two
    decimals, ties to even; the answer is the binary64 number nearest
    to that decimal. *)
Definition round2 (x : float) : Z :=
  let '(m, e) := x in
  let k := if (0 <=? e)%Z then (Z.abs m * 2 ^ e * 100)%Z
           else nearest_even (Z.abs m * 100) (2 ^ (- e)) in
  (Z.sgn m * k)%Z.

(** ** [db.session.commit()] after assignments to a loaded row *)

(** The unit of work compares each assigned attribute with the value
    that was loaded: the UPDATE statement sets the columns whose value
    differs, and no statement is issued when none does.  [updated_at]
    has [onupdate=datetime.utcnow]: a statement that does not set it
    reads the clock for it. *)
Definition eqb_opt (a b : option str) : bool :=
  match a, b with
  | Some x, Some y => Py.eqb x y
  | None, None => true
  | _, _ => false
  end.

(** The columns other than [updated_at] hold the same values. *)
Definition same_columns (d d' : Document) : bool :=
  Py.eqb (id d) (id d') && Py.eqb (title d) (title d')
  && Py.eqb (content d) (content d')
  && eqb_opt (corrected_content d) (corrected_content d')
  && Py.eqb (agent_used d) (agent_used d')
  && (user_id d =? user_id d') && (created_at d =? created_at d')%Z
  && Py.eqb (status d) (status d') && (word_count d =? word_count d')
  && (corrections_count d =? corrections_count d')%Z
  && float_eqb (total_seconds (processing_time d))
               (total_seconds (processing_time d'))
  && eqb_opt (shared_with d) (shared_with d')
  && Py.eqb (visibility d) (visibility d')
  && eqb_opt (html_structure d) (html_structure d').

(** The row loaded as [d] is committed as [d']: the statement is issued
    and leaves [updated_at] to [onupdate]. *)
Definition onupdate (d d' : Document) : bool :=
  (updated_at d' =? updated_at d)%Z && negb (same_columns d d').

Definition set_updated_at (t : Z) (d : Document) : Document :=
  {| id := id d; title := title d; content := content d;
     corrected_content := corrected_content d;
     agent_used := agent_used d; user_id := user_id d;
     created_at := created_at d; updated_at := t;
     status := status d; word_count := word_count d;
     corrections_count := corrections_count d;
     processing_time := processing_time d;
     shared_with := shared_with d; visibility := visibility d;
     html_structure := html_structure d |}.

(** The row stored, [later] being the reading of the clock at the
    statement. *)
Definition committed (later : Z) (d d' : Document) : Document :=
  if onupdate d d' then set_updated_at later d' else d'.

(** ** Requests and responses *)

(** A JSON body: a field is absent or holds a string. *)
Record process_body := {
  pb_texte : option str;
  pb_agent : option str;
  pb_document_id : option str
}.

Record save_body := {
  sb_id : option str;
  sb_title : option str;
  sb_content : option str;
  sb_corrected_content : option str;
  sb_agent : option str
}.

Record create_body := {
  cb_title : option str;
  cb_content : option str;
  cb_agent : option str
}.

Record put_body := {
  ub_title : option str;
  ub_content : option str;
  ub_status : option str
}.

(** [data.get(key, default)] *)
Definition get {A} (field : option A) (default : A) : A :=
  match field with Some v => v | None => default end.

(** [st_processing_time] is [round(processing_time, 2)] in hundredths
    of a second. *)
Record stats := {
  st_processing_time : Z;
  st_word_count : nat;
  st_corrections_count : Z
}.

Inductive body :=
| Err (error : str)
| Processed (resultat : str) (agent : str) (st : stats)
| Saved (document_id : str) (message : str)
| Done (message : str).

Record response := { code : nat; payload : body }.

Definition ok (b : body) : response := {| code := 200; payload := b |}.
Definition fail (c : nat) (e : str) : response :=
  {| code := c; payload := Err e |}.

(** ** [process_text] *)

(** ['<p>' in texte or '<div>' in texte] *)
Definition html_mode (texte : str) : bool :=
  contains (lit "<p>") texte || contains (lit "<div>") texte.

(** [template.format(arg)] for a template with one field [{}]. *)
Fixpoint format (template arg : str) : str :=
  match template with
  | [] => []
  | c :: t =>
      if startswith (lit "{}") template then arg ++ tl t
      else c :: format t arg
  end.

(** The quote clean-up applied to the reply. *)
Definition strip_quotes (q : char) (texte_corrige : str) : str :=
  if startswith [q] texte_corrige && endswith [q] texte_corrige
  then slice_1_m1 texte_corrige
  else texte_corrige.

Definition nettoyer_guillemets (contenu : str) : str :=
  let texte_corrige := strip contenu in
  let texte_corrige := strip_quotes dquote texte_corrige in
  let texte_corrige := strip_quotes squote texte_corrige in
  texte_corrige.

(** [''.join([f'<p>{p}</p>' for p in paragraphes_corriges if p.strip()])] *)
Definition paragraphe (p : str) : str := lit "<p>" ++ p ++ lit "</p>".

Definition paragraphes_corriges (texte_corrige : str) : list str :=
  filter (fun p => truthy (strip p)) (split_on newline texte_corrige).

Definition html_corrige (texte_corrige : str) : str :=
  flat_map paragraphe (paragraphes_corriges texte_corrige).

(** [max(1, abs(len(a.split()) - len(b.split())))] unless [a == b]. *)
Definition compter_corrections (texte_brut texte_corrige : str) : Z :=
  if Py.eqb texte_brut texte_corrige then 0%Z
  else Z.max 1 (Z.abs (Z.of_nat (List.length (split texte_brut))
                       - Z.of_nat (List.length (split texte_corrige)))).

Definition system_prompt : str :=
  lit "Tu es un correcteur orthographique expert. Tu corriges UNIQUEMENT l'orthographe et la grammaire. Retourne le texte corrigé sans guillemets, sans commentaires, sans préambule.".

Section Handlers.
Context {U : Unicode} {C : Collaborators}.

(** The plain text of the request. *)
Definition texte_brut_of (texte : str) : str :=
  if html_mode texte then get_text texte else texte.

Definition completion_request_of (agent : AIAgent) (texte_anonyme : str)
  : completion_request :=
  {| cr_model := model agent;
     cr_messages :=
       [ {| role := lit "system"; msg_content := system_prompt |};
         {| role := lit "user";
            msg_content := format (prompt_template agent) texte_anonyme |} ];
     cr_temperature := 0%Z;
     cr_max_tokens := List.length (split texte_anonyme) * 3 |}.

(** The corrected text returned to the caller, from the reply. *)
Definition texte_corrige_of (texte contenu : str) : str :=
  let texte_corrige := nettoyer_guillemets contenu in
  if html_mode texte then html_corrige texte_corrige else texte_corrige.

Definition process_text (current_user : nat) (data : process_body)
    (w : World) : response * World :=
  let texte := get (pb_texte data) [] in
  let agent_name := get (pb_agent data) (lit "jurifix") in
  let document_id := pb_document_id data in
  let texte_brut := texte_brut_of texte in
  if negb (truthy (strip texte_brut)) then (fail 400 (lit "Texte vide"), w)
  else
    match lookup agent_name AGENTS with
    | None => (fail 400 (lit "Agent non reconnu"), w)
    | Some agent =>
        let start_time := utcnow (ticks w) in
        let w := tick w in
        let texte_anonyme := anonymiser_texte texte_brut in
        let request := completion_request_of agent texte_anonyme in
        let w := record_call request w in
        match create request with
        | Raised e =>
            (fail 500 (lit "Erreur lors du traitement: " ++ e), w)
        | Reply None =>
            (fail 500 (lit "Erreur lors du traitement: 'NoneType' object has no attribute 'strip'"), w)
        | Reply (Some contenu) =>
            let texte_corrige := texte_corrige_of texte contenu in
            let processing_time := (utcnow (ticks w) - start_time)%Z in
            let w := tick w in
            let word_count := List.length (split texte_brut) in
            let corrections_count :=
              compter_corrections texte_brut texte_corrige in
            let w :=
              match document_id with
              | Some i =>
                  if truthy i then
                    match query_first i current_user (documents w) with
                    | Some document =>
                        let now := utcnow (ticks w) in
                        let w := tick w in
                        let assign := fun d =>
                          {| id := id d; title := title d;
                             content := texte;
                             corrected_content := Some texte_corrige;
                             agent_used := agent_used d;
                             user_id := user_id d;
                             created_at := created_at d;
                             updated_at := now;
                             status := lit "completed";
                             word_count := word_count;
                             corrections_count := corrections_count;
                             processing_time := processing_time;
                             shared_with := shared_with d;
                             visibility := visibility d;
                             html_structure := html_structure d |} in
                        let later := utcnow (ticks w) in
                        let w :=
                          set_documents
                            (update_first i current_user
                               (fun d => committed later d (assign d))
                               (documents w)) w in
                        if onupdate document (assign document) then tick w
                        else w
                    | None => w
                    end
                  else w
              | None => w
              end in
            (ok (Processed texte_corrige agent_name
                   {| st_processing_time :=
                        round2 (total_seconds processing_time);
                      st_word_count := word_count;
                      st_corrections_count := corrections_count |}), w)
        end
    end.

(** ** [save_document] *)

Definition save_document (current_user : nat) (data : save_body)
    (w : World) : response * World :=
  let document_id := sb_id data in
  let title_v :=
    get (sb_title data)
        (lit "Document du " ++ now_strftime (lit "%d/%m/%Y %H:%M")) in
  let content_v := get (sb_content data) [] in
  let corrected_v := get (sb_corrected_content data) [] in
  let agent_v := get (sb_agent data) (lit "jurifix") in
  if truthy (get document_id []) then
    let i := get document_id [] in
    match query_first i current_user (documents w) with
    | None => (fail 404 (lit "Document non trouvé"), w)
    | Some document =>
        let now := utcnow (ticks w) in
        let w := tick w in
        let assign := fun d =>
          {| id := id d; title := title_v; content := content_v;
             corrected_content := Some corrected_v;
             agent_used := agent_used d; user_id := user_id d;
             created_at := created_at d; updated_at := now;
             status := status d; word_count := word_count d;
             corrections_count := corrections_count d;
             processing_time := processing_time d;
             shared_with := shared_with d;
             visibility := visibility d;
             html_structure := html_structure d |} in
        let later := utcnow (ticks w) in
        let w :=
          set_documents
            (update_first i current_user
               (fun d => committed later d (assign d))
               (documents w)) w in
        (ok (Saved (id document) (lit "Document sauvegardé")),
         if onupdate document (assign document) then tick w else w)
    end
  else
    let new_id := uuid4 (draws w) in
    let w := draw w in
    let created := utcnow (ticks w) in
    let w := tick w in
    let updated := utcnow (ticks w) in
    let w := tick w in
    let document :=
      {| id := new_id; title := title_v; content := content_v;
         corrected_content := Some corrected_v;
         agent_used := agent_v; user_id := current_user;
         created_at := created; updated_at := updated;
         status := lit "draft"; word_count := 0;
         corrections_count := 0%Z; processing_time := 0%Z;
         shared_with := None; visibility := lit "private";
         html_structure := None |} in
    (ok (Saved new_id (lit "Document sauvegardé")),
     set_documents (documents w ++ [document]) w).

(** ** [handle_documents], method POST *)

Definition handle_documents_post (current_user : nat) (data : create_body)
    (w : World) : response * World :=
  let new_id := uuid4 (draws w) in
  let w := draw w in
  let created := utcnow (ticks w) in
  let w := tick w in
  let updated := utcnow (ticks w) in
  let w := tick w in
  let document :=
    {| id := new_id;
       title := get (cb_title data)
                    (lit "Document du " ++ now_strftime (lit "%d/%m/%Y"));
       content := get (cb_content data) [];
       corrected_content := None;
       agent_used := get (cb_agent data) (lit "jurifix");
       user_id := current_user;
       created_at := created; updated_at := updated;
       status := lit "draft"; word_count := 0;
       corrections_count := 0%Z; processing_time := 0%Z;
       shared_with := None; visibility := lit "private";
       html_structure := None |} in
  (ok (Saved new_id (lit "Document créé avec succès")),
   set_documents (documents w ++ [document]) w).

(** ** [handle_document], method PUT *)

(** [first_or_404] aborts with 404, which [not_found] answers on a
    path under [/api/]. *)
Definition not_found : response := fail 404 (lit "Endpoint non trouvé").

Definition handle_document_put (current_user : nat) (document_id : str)
    (data : put_body) (w : World) : response * World :=
  match query_first document_id current_user (documents w) with
  | None => (not_found, w)
  | Some document =>
      let now := utcnow (ticks w) in
      let w := tick w in
      let assign := fun d =>
        {| id := id d;
           title := get (ub_title data) (title d);
           content := get (ub_content data) (content d);
           corrected_content := corrected_content d;
           agent_used := agent_used d; user_id := user_id d;
           created_at := created_at d; updated_at := now;
           status := get (ub_status data) (status d);
           word_count := word_count d;
           corrections_count := corrections_count d;
           processing_time := processing_time d;
           shared_with := shared_with d;
           visibility := visibility d;
           html_structure := html_structure d |} in
      let later := utcnow (ticks w) in
      let w :=
        set_documents
          (update_first document_id current_user
             (fun d => committed later d (assign d))
             (documents w)) w in
      (ok (Done (lit "Document mis à jour")),
       if onupdate document (assign document) then tick w else w)
  end.

End Handlers.

End App.

Import App.

(* ================================================================== *)
(** * A reference HTML parser for simple markup *)
(* ================================================================== *)

(** The handlers take the HTML parser as a collaborator.  To run them
    on concrete requests, this module gives the behaviour of
    [BeautifulSoup(s, 'html.parser')] on simple markup: bare tags
    [<name>] and [</name>], properly nested, over the elements listed in
    [nestable] and [void], and character data without [<], [>] and [&].
    Outside this fragment [soup] answers [None]. *)

Module Bs4.

Inductive token :=
| Data (s : str)
| StartTag (name : str)
| EndTag (name : str).

Inductive mode :=
| InData (acc : str)                       (* reversed *)
| InTag (closing : bool) (acc : str).      (* reversed *)

Definition ascii_lower (c : char) : bool := ((97 <=? c) && (c <=? 122))%N.
Definition ascii_digit (c : char) : bool := ((48 <=? c) && (c <=? 57))%N.

Definition flush (acc : str) (ts : list token) : list token :=
  match acc with [] => ts | _ => Data (rev acc) :: ts end.

Fixpoint scan (m : mode) (s : str) : option (list token) :=
  match s with
  | [] => match m with
          | InData acc => Some (flush acc [])
          | InTag _ _ => None
          end
  | c :: t =>
      match m with
      | InData acc =>
          if (c =? chr "<")%N
          then option_map (flush acc) (scan (InTag false []) t)
          else if ((c =? chr ">") || (c =? chr "&"))%N then None
          else scan (InData (c :: acc)) t
      | InTag closing acc =>
          if (c =? chr ">")%N then
            match acc with
            | [] => None
            | _ => option_map
                     (cons (if closing then EndTag (rev acc)
                            else StartTag (rev acc)))
                     (scan (InData []) t)
            end
          else if ((c =? chr "/")%N && negb closing
                   && negb (truthy acc))%bool
          then scan (InTag true []) t
          else if ascii_lower c || (ascii_digit c && truthy acc)
          then scan (InTag closing (c :: acc)) t
          else None
      end
  end.

(** The parse tree. *)
Inductive node :=
| NavigableString (s : str)
| Tag (name : str) (contents : list node).

Definition nestable : list str :=
  map lit ["p"; "div"; "span"; "b"; "i"; "u"; "em"; "strong"]%string.
Definition void : list str := [lit "br"].
Definition block : list str := [lit "p"; lit "div"].

Definition mem (n : str) (l : list str) : bool := existsb (Py.eqb n) l.

(** A string made only of ASCII blanks is stored as one newline or one
    space. *)
Definition ascii_space (c : char) : bool :=
  ((c =? 32) || (c =? 10) || (c =? 9) || (c =? 12) || (c =? 13))%N.

Definition normalise (s : str) : str :=
  if forallb ascii_space s
  then if existsb (N.eqb 10) s then [10%N] else [32%N]
  else s.

(** Tree construction: [stack] holds the open elements with the
    siblings that precede them; [cur] the children read so far,
    reversed. *)
Fixpoint build (stack : list (str * list node)) (cur : list node)
    (ts : list token) : option (list node) :=
  match ts with
  | [] => match stack with [] => Some (rev cur) | _ => None end
  | Data s :: ts' => build stack (NavigableString (normalise s) :: cur) ts'
  | StartTag n :: ts' =>
      if mem n void then build stack (Tag n [] :: cur) ts'
      else if mem n nestable then build ((n, cur) :: stack) [] ts'
      else None
  | EndTag n :: ts' =>
      match stack with
      | (n', saved) :: stack' =>
          if Py.eqb n n' then build stack' (Tag n (rev cur) :: saved) ts'
          else None
      | [] => None
      end
  end.

Definition soup (s : str) : option (list node) :=
  match scan (InData []) s with
  | Some ts => build [] [] ts
  | None => None
  end.

(** The strings of a tree in document order. *)
Fixpoint strings (n : node) : list str :=
  match n with
  | NavigableString s => [s]
  | Tag _ cs => flat_map strings cs
  end.

(** [soup.get_text(separator=sep)] *)
Definition get_text (sep : str) (forest : list node) : str :=
  join sep (flat_map strings forest).

(** Block elements ([p], [div]) with some non-blank text. *)
Fixpoint non_empty_blocks (n : node) : nat :=
  match n with
  | NavigableString _ => 0
  | Tag name cs =>
      (if mem name block
          && truthy (strip (flat_map (fun s => s) (flat_map strings cs)))
       then 1 else 0)
      + list_sum (map non_empty_blocks cs)
  end.

(** Paragraph elements. *)
Fixpoint paragraph_elements (n : node) : nat :=
  match n with
  | NavigableString _ => 0
  | Tag name cs =>
      (if Py.eqb name (lit "p") then 1 else 0)
      + list_sum (map paragraph_elements cs)
  end.

Definition count (f : node -> nat) (s : str) : option nat :=
  option_map (fun forest => list_sum (map f forest)) (soup s).

(** [BeautifulSoup(s, 'html.parser').get_text(separator='\n')] on the
    fragment; the text itself stands in elsewhere. *)
Definition text_of (s : str) : str :=
  match soup s with
  | Some forest => get_text [App.newline] forest
  | None => s
  end.

End Bs4.

(** Collaborators for running the handlers on concrete requests: the
    reference parser, a completion service that answers [reply]
    whatever it is asked, a clock that advances one second a reading. *)
Definition scripted (reply : completion) : Collaborators := {|
  App.get_text := Bs4.text_of;
  create := fun _ => reply;
  utcnow := fun n => (Z.of_nat n * 1000000)%Z;
  uuid4 := fun n => lit "doc-" ++ repeat (chr "i") n;
  now_strftime := fun _ => lit "01/01/2024 00:00"
|}.

(** The reply of a completion service that answers ["Bonjour"]. *)
Definition bonjour : completion := Reply (Some (lit "Bonjour")).

Definition empty_world : World :=
  {| documents := []; history := []; calls := []; ticks := 0; draws := 0 |}.

(* ================================================================== *)
(** * Analysis of patterns *)
(* ================================================================== *)

Section PatternAnalysis.
Context {U : Unicode}.

(** [re.search(p, s) is not None], the text being preceded by the
    character [before]. *)
Fixpoint finds (p : pattern) (before : option char) (s : str) : bool :=
  match match_at p before s with
  | Some _ => true
  | None =>
      match s with
      | [] => false
      | c :: t => finds p (Some c) t
      end
  end.

(** The characters a match of [r] may read. *)
Fixpoint may (ic : bool) (r : regex) (c : char) : bool :=
  match r with
  | Empty | WordBoundary => false
  | Lit a => lit_match ic a c
  | In cs => in_set ic cs c
  | Cat r1 r2 | Alt r1 r2 => may ic r1 c || may ic r2 c
  | Repeat _ _ r' | Group _ r' => may ic r' c
  end.

(** Every match of [r] goes through one of the leaves that [leaf]
    marks. *)
Fixpoint must (leaf : regex -> bool) (r : regex) : bool :=
  match r with
  | Empty | WordBoundary => false
  | Lit _ | In _ => leaf r
  | Cat r1 r2 => must leaf r1 || must leaf r2
  | Alt r1 r2 => must leaf r1 && must leaf r2
  | Repeat lo _ r' => (0 <? lo) && must leaf r'
  | Group _ r' => must leaf r'
  end.

(** The group [n] is not captured inside [r]. *)
Fixpoint no_group (n : nat) (r : regex) : bool :=
  match r with
  | Empty | WordBoundary | Lit _ | In _ => true
  | Cat r1 r2 | Alt r1 r2 => no_group n r1 && no_group n r2
  | Repeat _ _ r' => no_group n r'
  | Group m r' => negb (m =? n) && no_group n r'
  end.

(** The character before the position reached by reading [w]. *)
Definition after (before : option char) (w : str) : option char :=
  last (map Some w) before.

(** [span P st w st']: from [st] the text [w], made of characters that
    satisfy [P], is read and [st'] is reached. *)
Definition span (P : char -> bool) (st : mstate) (w : str) (st' : mstate)
  : Prop :=
  rest st = w ++ rest st'
  /\ prev st' = after (prev st) w
  /\ Forall (fun c => P c = true) w.

End PatternAnalysis.

(** What every rule has to read: a blank, an [@] or a digit. *)
Definition required {U : Unicode} (c : char) : bool :=
  isspace c || (c =? 64)%N || is_digit c.

Definition required_leaf (l : regex) : bool :=
  match l with
  | Lit a => (a =? 64)%N
  | In [ICat CSpace] | In [ICat CDigit] => true
  | _ => false
  end.

(** What the rules after the first have to read: an [@] or a digit. *)
Definition mark {U : Unicode} (c : char) : bool :=
  (c =? 64)%N || is_digit c.

Definition mark_leaf (l : regex) : bool :=
  match l with
  | Lit a => (a =? 64)%N
  | In [ICat CDigit] => true
  | _ => false
  end.

(** The honorifics, the capital letters and the letters of a name. *)
Definition honorifics : list str :=
  map lit ["Monsieur"; "Mr"; "M."; "Madame"; "Mme"; "Mlle"]%string.

(** What the first rule reads after the honorific:
    [\s+([A-Z][a-zéèêëàâäôöûüç]+(?:\s+[A-Z][a-zéèêëàâäôöûüç]+)?)]. *)
Definition suite_nom : regex :=
  Cat (plus space)
      (Group 2 (Cat name_word (opt (Cat (plus space) name_word)))).

(** The replacement tokens. *)
Definition tokens : list str :=
  [lit "[nom]"; lit "[email]"; lit "[téléphone]"; lit "[IBAN]"].

(* ================================================================== *)
(** * Vocabulary of the statements *)
(* ================================================================== *)

(** [unquoted q s t]: [t] is [s] after one test for the quote [q]: a
    text that starts and ends with [q] loses one [q] at each end (the
    text made of a lone [q] becomes empty); any other text is kept. *)
Inductive unquoted (q : char) : str -> str -> Prop :=
| unq_layer (m : str) : unquoted q (q :: m ++ [q]) m
| unq_lone : unquoted q [q] []
| unq_none (s : str) :
    startswith [q] s && endswith [q] s = false -> unquoted q s s.

(** [completed_only d]: the corrected content of [d] is non-null only
    when its status is ['completed']. *)
Definition completed_only (d : Document) : Prop :=
  corrected_content d <> None -> status d = lit "completed".

(** [put_frame data d d']: [d'] differs from [d] at most in [title],
    [content], [status] and [updated_at], and of the first three only
    in those that [data] holds. *)
Definition put_frame (data : put_body) (d d' : Document) : Prop :=
  id d' = id d
  /\ corrected_content d' = corrected_content d
  /\ agent_used d' = agent_used d
  /\ word_count d' = word_count d
  /\ corrections_count d' = corrections_count d
  /\ processing_time d' = processing_time d
  /\ created_at d' = created_at d
  /\ user_id d' = user_id d
  /\ shared_with d' = shared_with d
  /\ visibility d' = visibility d
  /\ html_structure d' = html_structure d
  /\ (ub_title data = None -> title d' = title d)
  /\ (ub_content data = None -> content d' = content d)
  /\ (ub_status data = None -> status d' = status d).

(** A stored document and a state that holds it, for the runs on
    concrete requests. *)
Definition dossier : Document :=
  {| id := lit "d1"; title := lit "Lettre"; content := lit "Bonjour";
     corrected_content := None; agent_used := lit "jurifix";
     user_id := 1; created_at := 0%Z; updated_at := 0%Z;
     status := lit "draft"; word_count := 0; corrections_count := 0%Z;
     processing_time := 0%Z; shared_with := None;
     visibility := lit "private"; html_structure := None |}.

Definition one_document : World :=
  {| documents := [dossier]; history := []; calls := []; ticks := 0;
     draws := 0 |}.

(* ================================================================== *)
(** * The other document handlers *)
(* ================================================================== *)

Unset Implicit Arguments.

Module Store.

(** The JSON object that [handle_document] answers to GET; the times
    are kept as numbers where the handler writes them in ISO format. *)
Record document_view := {
  v_id : str;
  v_title : str;
  v_content : str;
  v_corrected_content : option str;
  v_agent_used : str;
  v_status : str;
  v_created_at : Z;
  v_updated_at : Z;
  v_word_count : nat;
  v_corrections_count : Z;
  v_processing_time : Z
}.

Definition view (document : Document) : document_view :=
  {| v_id := id document;
     v_title := title document;
     v_content := content document;
     v_corrected_content := corrected_content document;
     v_agent_used := agent_used document;
     v_status := status document;
     v_created_at := created_at document;
     v_updated_at := updated_at document;
     v_word_count := word_count document;
     v_corrections_count := corrections_count document;
     v_processing_time := processing_time document |}.

(** [handle_document], method GET: the view of the document, or the
    answer of [first_or_404]. *)
Definition handle_document_get (current_user : nat) (document_id : str)
    (w : World) : response + document_view :=
  match query_first document_id current_user (documents w) with
  | None => inl not_found
  | Some document => inr (view document)
  end.

(** [db.session.delete(document)] for the row that [query_first]
    returned. *)
Fixpoint delete_first (i : str) (u : nat) (ds : list Document)
  : list Document :=
  match ds with
  | [] => []
  | d :: ds' => if owned i u d then ds' else d :: delete_first i u ds'
  end.

(** [handle_document], method DELETE.  No relationship links a
    document to its history rows: the row of the document alone is
    deleted. *)
Definition handle_document_delete (current_user : nat) (document_id : str)
    (w : World) : response * World :=
  match query_first document_id current_user (documents w) with
  | None => (not_found, w)
  | Some _ =>
      (ok (Done (lit "Document supprimé")),
       set_documents (delete_first document_id current_user (documents w)) w)
  end.

End Store.

Import Store.

(* ================================================================== *)
(** * The agents offered to the user *)
(* ================================================================== *)

Module Agents.

(** [editor]: the agent that the page is rendered with; [None] stands
    for the [KeyError] of [AGENTS[agent_name]]. *)
Definition editor (agent_name : str) : option AIAgent :=
  let agent_name :=
    match lookup agent_name AGENTS with
    | None => lit "jurifix"
    | Some _ => agent_name
    end in
  lookup agent_name AGENTS.

(** The entry of an agent in the answer of [get_agents]. *)
Record agent_info := {
  ai_name : str;
  ai_description : str;
  ai_model : str
}.

(** [get_agents] *)
Definition get_agents : list (str * agent_info) :=
  map (fun entry =>
         (fst entry,
          {| ai_name := name (snd entry);
             ai_description := description (snd entry);
             ai_model := model (snd entry) |}))
      AGENTS.

End Agents.

Import Agents.

(* ================================================================== *)
(** * Accounts: [register], [login] and [profile_api] *)
(* ================================================================== *)

Module Accounts.

(** [class User] *)
Record User := {
  u_id : nat;
  u_email : str;
  u_password_hash : str;
  u_name : str;
  u_service : option str;
  u_role : str;
  u_is_active : bool;
  u_created_at : Z;
  u_last_login : option Z
}.

(** The password hashing of [werkzeug.security] and the primary key
    that the database gives a new row. *)
Class Backend := {
  (** [generate_password_hash(password)], by the number of earlier
      draws of a salt *)
  generate_password_hash : nat -> str -> str;
  (** [check_password_hash(pwhash, password)] for the password of the
      request, absent or a string; [None] when it raises *)
  check_password_hash : str -> option str -> option bool;
  (** the [id] of a row inserted in the table *)
  new_user_id : list User -> nat
}.

(** The table [user], the user id of the session cookie, and the
    counters of the clock and of the salts. *)
Record Site := {
  users : list User;
  session : option nat;
  s_ticks : nat;
  s_draws : nat
}.

(** Login and registration bodies (JSON or form): a field is absent or
    holds a string. *)
Record login_body := {
  lb_email : option str;
  lb_password : option str
}.

(** [service] is absent, null or a string. *)
Record register_body := {
  rb_email : option str;
  rb_password : option str;
  rb_name : option str;
  rb_service : option (option str)
}.

(** The body of a PUT on the profile: [name] and [service] are absent,
    null or a string. *)
Record profile_body := {
  pr_name : option (option str);
  pr_service : option (option str)
}.

Inductive method := GET | POST.

(** What the routes answer. *)
Inductive reply :=
| Redirect (endpoint : str)
| Render (template : str) (error : option str)
| LoggedIn (redirect : str) (name email role : str)
| Registered (redirect : str)
| Refused (code : nat) (error : str)
| Updated (message : str)
| Crash.

(** [User.query.filter_by(email=email).first()]; no row has a null
    email. *)
Definition by_email (email : option str) (us : list User) : option User :=
  match email with
  | None => None
  | Some e => find (fun u => Py.eqb (u_email u) e) us
  end.

(** [User.query.get(id)] *)
Definition load_user (i : nat) (us : list User) : option User :=
  find (fun u => u_id u =? i) us.

(** [current_user]: the user of the session, if the row exists. *)
Definition current_user (s : Site) : option User :=
  match session s with
  | None => None
  | Some i => load_user i (users s)
  end.

(** [current_user.is_authenticated]: a user is authenticated when it
    is active. *)
Definition is_authenticated (s : Site) : bool :=
  match current_user s with
  | None => false
  | Some u => u_is_active u
  end.

(** Writing a row back by its primary key. *)
Definition update_user (i : nat) (f : User -> User) (us : list User)
  : list User :=
  map (fun u => if u_id u =? i then f u else u) us.

(** [all([email, password, name])]: each is present and not empty. *)
Definition filled (field : option str) : bool :=
  match field with
  | Some v => truthy v
  | None => false
  end.

Section Routes.
Context {C : Collaborators} {B : Backend}.

(** [login] *)
Definition login (m : method) (is_json : bool) (data : login_body)
    (s : Site) : reply * Site :=
  if is_authenticated s then (Redirect (lit "dashboard"), s)
  else
    match m with
    | GET => (Render (lit "login.html") None, s)
    | POST =>
        let failure :=
          if is_json
          then Refused 401 (lit "Email ou mot de passe incorrect")
          else Render (lit "login.html")
                      (Some (lit "Email ou mot de passe incorrect")) in
        match by_email (lb_email data) (users s) with
        | None => (failure, s)
        | Some user =>
            match check_password_hash (u_password_hash user)
                    (lb_password data) with
            | None => (Crash, s)
            | Some checked =>
                if checked && u_is_active user
                then
                  let now := utcnow (s_ticks s) in
                  let s' :=
                    {| users :=
                         update_user (u_id user)
                           (fun u =>
                              {| u_id := u_id u; u_email := u_email u;
                                 u_password_hash := u_password_hash u;
                                 u_name := u_name u;
                                 u_service := u_service u;
                                 u_role := u_role u;
                                 u_is_active := u_is_active u;
                                 u_created_at := u_created_at u;
                                 u_last_login := Some now |})
                           (users s);
                       session := Some (u_id user);
                       s_ticks := S (s_ticks s);
                       s_draws := s_draws s |} in
                  (if is_json
                   then LoggedIn (lit "dashboard") (u_name user)
                                 (u_email user) (u_role user)
                   else Redirect (lit "dashboard"), s')
                else (failure, s)
            end
        end
    end.

(** [logout], behind [login_required] *)
Definition logout (s : Site) : reply * Site :=
  (Redirect (lit "login"),
   if is_authenticated s
   then {| users := users s; session := None; s_ticks := s_ticks s;
           s_draws := s_draws s |}
   else s).

(** [register] *)
Definition register (m : method) (is_json : bool) (data : register_body)
    (s : Site) : reply * Site :=
  match m with
  | GET => (Render (lit "register.html") None, s)
  | POST =>
      let service :=
        get (rb_service data) (Some (lit "Médiation bancaire")) in
      if negb (filled (rb_email data) && filled (rb_password data)
               && filled (rb_name data))
      then (Refused 400 (lit "Tous les champs sont requis"), s)
      else
        match by_email (rb_email data) (users s) with
        | Some _ => (Refused 400 (lit "Cet email est déjà utilisé"), s)
        | None =>
            let user :=
              {| u_id := new_user_id (users s);
                 u_email := get (rb_email data) [];
                 u_password_hash :=
                   generate_password_hash (s_draws s)
                     (get (rb_password data) []);
                 u_name := get (rb_name data) [];
                 u_service := service;
                 u_role := lit "collaborateur";
                 u_is_active := true;
                 u_created_at := utcnow (s_ticks s);
                 u_last_login := None |} in
            (if is_json then Registered (lit "dashboard")
             else Redirect (lit "dashboard"),
             {| users := users s ++ [user];
                session := Some (u_id user);
                s_ticks := S (s_ticks s);
                s_draws := S (s_draws s) |})
        end
  end.

(** [profile_api], method PUT, for the authenticated user [i].  The
    column [name] is not nullable: the commit of a null name raises and
    nothing is written. *)
Definition profile_api_put (i : nat) (data : profile_body) (s : Site)
  : reply * Site :=
  match pr_name data with
  | Some None => (Crash, s)
  | _ =>
      (Updated (lit "Profil mis à jour"),
       {| users :=
            update_user i
              (fun u =>
                 {| u_id := u_id u; u_email := u_email u;
                    u_password_hash := u_password_hash u;
                    u_name :=
                      match pr_name data with
                      | Some (Some n) => n
                      | _ => u_name u
                      end;
                    u_service := get (pr_service data) (u_service u);
                    u_role := u_role u;
                    u_is_active := u_is_active u;
                    u_created_at := u_created_at u;
                    u_last_login := u_last_login u |})
              (users s);
          session := session s;
          s_ticks := s_ticks s;
          s_draws := s_draws s |})
  end.

End Routes.

End Accounts.

Import Accounts.

(* ================================================================== *)
(** * Vocabulary of the further statements *)
(* ================================================================== *)

(** [process_frame u d d']: what a process call of the user [u] may
    have made of the row [d]: nothing, or, on a row of [u], a
    completed document with a corrected content; the id, the title, the
    agent, the owner, the creation time and the sharing fields are
    kept. *)
Definition process_frame (u : nat) (d d' : Document) : Prop :=
  id d' = id d
  /\ title d' = title d
  /\ agent_used d' = agent_used d
  /\ user_id d' = user_id d
  /\ created_at d' = created_at d
  /\ shared_with d' = shared_with d
  /\ visibility d' = visibility d
  /\ html_structure d' = html_structure d
  /\ (d' = d
      \/ (user_id d = u /\ status d' = lit "completed"
          /\ corrected_content d' <> None)).

(** The rows of the users other than [u]. *)
Definition of_others (u : nat) (ds : list Document) : list Document :=
  filter (fun d => negb (user_id d =? u)) ds.

(** [same_account u u']: the rows agree but for [last_login]. *)
Definition same_account (u u' : User) : Prop :=
  u_id u' = u_id u
  /\ u_email u' = u_email u
  /\ u_password_hash u' = u_password_hash u
  /\ u_name u' = u_name u
  /\ u_service u' = u_service u
  /\ u_role u' = u_role u
  /\ u_is_active u' = u_is_active u
  /\ u_created_at u' = u_created_at u.

(** [same_rights i u u']: the rows agree but for [name] and [service],
    and agree on these too unless the row is that of the user [i]. *)
Definition same_rights (i : nat) (u u' : User) : Prop :=
  u_id u' = u_id u
  /\ u_email u' = u_email u
  /\ u_password_hash u' = u_password_hash u
  /\ u_role u' = u_role u
  /\ u_is_active u' = u_is_active u
  /\ u_created_at u' = u_created_at u
  /\ u_last_login u' = u_last_login u
  /\ (u_id u <> i -> u' = u).

(** ** Addresses and telephone numbers *)

Section RedactionVocabulary.
Context {U : Unicode}.

(** The three sets of the second rule: [[a-zA-Z0-9_.+-]],
    [[a-zA-Z0-9-]] and [[a-zA-Z0-9-.]]. *)
Definition local_chars : list item :=
  [az; AZ; d09; ILit (chr "_"); ILit (chr "."); ILit (chr "+");
   ILit (chr "-")].
Definition host_chars : list item := [az; AZ; d09; ILit (chr "-")].
Definition domain_chars : list item :=
  [az; AZ; d09; ILit (chr "-"); ILit (chr ".")].

Definition all_in (cs : list item) (w : str) : Prop :=
  Forall (fun c => in_set false cs c = true) w.

(** The address [local@host.domain]. *)
Definition address (local host domain : str) : str :=
  local ++ chr "@" :: host ++ chr "." :: domain.

(** Its parts: each is made of the characters of its set; the local
    part starts with a word character, the host is not empty and the
    domain ends with a word character. *)
Definition address_parts (local host domain : str) : Prop :=
  all_in local_chars local /\ all_in host_chars host
  /\ all_in domain_chars domain
  /\ host <> []
  /\ (exists c t, local = c :: t /\ is_word c = true)
  /\ (exists t c, domain = t ++ [c] /\ is_word c = true).

(** A delimiter: a character of Latin-1 that no part of an address
    holds, neither a word character nor one of [.], [+], [-] and [@]. *)
Definition delimiter (c : char) : bool :=
  (c <? 256)%N && negb (is_word c) && negb (in_set false local_chars c)
  && negb (c =? chr "@")%N.

(** The end of the text, or a delimiter. *)
Definition delimited (o : option char) : bool :=
  match o with None => true | Some c => delimiter c end.

(** The leaf [@] of a pattern. *)
Definition at_leaf (l : regex) : bool :=
  match l with Lit a => (a =? 64)%N | _ => false end.

(** A telephone number as the third rule reads it: [0], a digit from 1
    to 9, and four pairs of digits, each after at most one separator
    (a blank, a dot or a hyphen of Latin-1). *)
Definition ascii_digit (c : char) : bool := between 48%N 57%N c.

Definition separator (c : char) : bool :=
  (c <? 256)%N
  && in_set false [ICat CSpace; ILit (chr "."); ILit (chr "-")] c.

Inductive digit_pair : str -> Prop :=
| pair_joined (a b : char) :
    ascii_digit a = true -> ascii_digit b = true -> digit_pair [a; b]
| pair_apart (k a b : char) :
    separator k = true -> ascii_digit a = true -> ascii_digit b = true ->
    digit_pair [k; a; b].

Inductive numero : str -> Prop :=
| numero_pairs (d : char) (g1 g2 g3 g4 : str) :
    between 49%N 57%N d = true ->
    digit_pair g1 -> digit_pair g2 -> digit_pair g3 -> digit_pair g4 ->
    numero (chr "0" :: d :: g1 ++ g2 ++ g3 ++ g4).

(** [p] has a match that starts in [pre], in the text [pre ++ s]
    preceded by the character [before]. *)
Fixpoint starts_in (p : pattern) (before : option char) (pre s : str)
  : bool :=
  match pre with
  | [] => false
  | c :: t =>
      match match_at p before (pre ++ s) with
      | Some _ => true
      | None => starts_in p (Some c) t s
      end
  end.

(** A name as the first rule reads it, within Latin-1: blanks, the
    letters that [[A-Z]] reads when case is ignored, and the letters
    that [[a-zéèêëàâäôöûüç]] reads when case is ignored. *)
Definition blank (c : char) : bool := (c <? 256)%N && isspace c.
Definition initial (c : char) : bool := (c <? 256)%N && in_set true [AZ] c.
Definition name_letter (c : char) : bool :=
  (c <? 256)%N && in_set true name_letters c.

(** A word of a name: an initial and one letter or more. *)
Definition word (w : str) : Prop :=
  exists c cs, w = c :: cs /\ initial c = true /\ cs <> []
               /\ Forall (fun x => name_letter x = true) cs.

Definition blanks (bl : str) : Prop :=
  bl <> [] /\ Forall (fun c => blank c = true) bl.

(** The text starts with two letters that the pattern of a word reads. *)
Definition starts_word (z : str) : bool :=
  match z with
  | c1 :: c2 :: _ => in_set true [AZ] c1 && in_set true name_letters c2
  | _ => false
  end.

(** The text is not empty and its first character satisfies [P]. *)
Definition head_is (P : char -> bool) (z : str) : bool :=
  match z with c :: _ => P c | [] => false end.

(** [named name post]: before [post], [name] is what the first rule
    reads as a name.  One word, when the text goes on neither with a
    letter nor with a blank, or goes on with blanks that no word
    follows; two words with blanks between them, when the text does
    not go on with a letter. *)
Inductive named : str -> str -> Prop :=
| name_alone (w z : str) :
    word w ->
    head_is (fun c => in_set true name_letters c || isspace c) z = false ->
    named w z
| name_and_blanks (w bl z : str) :
    word w -> blanks bl -> head_is isspace z = false ->
    starts_word z = false -> named w (bl ++ z)
| name_of_two (w1 bl w2 z : str) :
    word w1 -> blanks bl -> word w2 ->
    head_is (in_set true name_letters) z = false ->
    named (w1 ++ bl ++ w2) z.

(** Two states of the matcher at the same place of two texts that are
    the same up to a character [k], and go on with [z] and [z']. *)
Definition alike (k : char) (z z' : str) (s s' : mstate) : Prop :=
  exists w, rest s = w ++ k :: z /\ rest s' = w ++ k :: z'
            /\ prev s = prev s' /\ groups s = groups s'.

End RedactionVocabulary.

(** ** Sample runs *)

(** A backend for the runs: the hash is the password behind a mark, and
    a new row gets the id after the largest one. *)
Definition plain_backend : Backend := {|
  generate_password_hash := fun _ password => lit "plain$" ++ password;
  check_password_hash := fun pwhash password =>
    match password with
    | None => None
    | Some p => Some (Py.eqb pwhash (lit "plain$" ++ p))
    end;
  new_user_id := fun us => S (list_max (map u_id us))
|}.

Definition no_users : Site :=
  {| users := []; session := None; s_ticks := 0; s_draws := 0 |}.

Definition alice : register_body :=
  {| rb_email := Some (lit "alice@cabinet.fr");
     rb_password := Some (lit "secret");
     rb_name := Some (lit "Alice");
     rb_service := None |}.

Definition alice_login : login_body :=
  {| lb_email := Some (lit "alice@cabinet.fr");
     lb_password := Some (lit "secret") |}.

(** The site once [alice] has registered and logged out. *)
Definition one_account : Site :=
  snd (logout
         (snd (register (C := scripted bonjour) (B := plain_backend)
                 POST true alice no_users))).

(** A process request for the stored document. *)
Definition bonjou : process_body :=
  {| pb_texte := Some (lit "Bonjou"); pb_agent := None;
     pb_document_id := Some (lit "d1") |}.

Set Implicit Arguments.

(* ================================================================== *)
(** * Properties of Python strings *)
(* ================================================================== *)

Section StringFacts.

Lemma eqb_spec (a b : str) : reflect (a = b) (Py.eqb a b).
Proof.
  revert b; induction a as [|x a IH]; intros [|y b]; simpl;
    try (constructor; congruence).
  destruct (N.eqb_spec x y) as [->|Hxy]; simpl.
  - destruct (IH b) as [->|Hab]; constructor; congruence.
  - constructor; congruence.
Qed.

Lemma eqb_refl (a : str) : Py.eqb a a = true.
Proof. destruct (eqb_spec a a); congruence. Qed.

Lemma startswith_one (q : char) (s : str) :
  startswith [q] s = true <-> exists t, s = q :: t.
Proof.
  destruct s as [|c t]; simpl.
  - split; [discriminate | intros [t H]; discriminate].
  - rewrite andb_true_r. split.
    + intros H; apply N.eqb_eq in H; subst; eauto.
    + intros [t' H]; inversion H; apply N.eqb_refl.
Qed.

Lemma endswith_one (q : char) (s : str) :
  endswith [q] s = true <-> exists t, s = t ++ [q].
Proof.
  unfold endswith. simpl rev. rewrite startswith_one. split.
  - intros [t H]. exists (rev t).
    rewrite <- (rev_involutive s), H. reflexivity.
  - intros [t ->]. exists (rev t). rewrite rev_app_distr. reflexivity.
Qed.

Lemma slice_layer (q q' : char) (m : str) :
  slice_1_m1 (q :: m ++ [q']) = m.
Proof. unfold slice_1_m1; simpl. apply removelast_last. Qed.

End StringFacts.

(* ================================================================== *)
(** * The matcher *)
(* ================================================================== *)

Arguments match_at : simpl never.

Section MatcherFacts.
Context {U : Unicode}.

Lemma last_cons {A} (x d : A) (l : list A) : last (x :: l) d = last l x.
Proof.
  revert x d; induction l as [|y l IH]; intros x d; [reflexivity|].
  change (last (x :: y :: l) d) with (last (y :: l) d).
  rewrite (IH y d), (IH y x). reflexivity.
Qed.

Lemma after_cons (b : option char) (c : char) (w : str) :
  after b (c :: w) = after (Some c) w.
Proof. unfold after; simpl map. apply last_cons. Qed.

Lemma after_app (b : option char) (w1 w2 : str) :
  after b (w1 ++ w2) = after (after b w1) w2.
Proof.
  revert b; induction w1 as [|c w1 IH]; intros b; [reflexivity|].
  rewrite <- app_comm_cons, !after_cons. apply IH.
Qed.

Lemma flat_map_nil_fun {A B} (f : A -> list B) (l : list A) :
  (forall a, f a = []) -> flat_map f l = [].
Proof.
  intros H. induction l as [|a l IH]; simpl; [reflexivity|].
  rewrite H, IH. reflexivity.
Qed.

Lemma span_refl (P : char -> bool) (st : mstate) : span P st [] st.
Proof. repeat split. constructor. Qed.

Lemma span_trans (P : char -> bool) st1 w1 st2 w2 st3 :
  span P st1 w1 st2 -> span P st2 w2 st3 -> span P st1 (w1 ++ w2) st3.
Proof.
  intros (R1 & A1 & F1) (R2 & A2 & F2). repeat split.
  - rewrite R1, R2. apply app_assoc.
  - rewrite A2, A1. symmetry; apply after_app.
  - apply Forall_app; split; assumption.
Qed.

Lemma span_weaken (P Q : char -> bool) st w st' :
  (forall c, P c = true -> Q c = true) -> span P st w st' -> span Q st w st'.
Proof.
  intros H (R & A & F). repeat split; auto.
  eapply Forall_impl; [|exact F]. exact H.
Qed.

Lemma span_unique (P : char -> bool) st w w' st' :
  span P st w st' -> rest st = w' ++ rest st' -> w' = w.
Proof.
  intros (R & _) R'. rewrite R in R'.
  now apply app_inv_tail in R'.
Qed.

Lemma span_two (P Q : char -> bool) st w1 s1 w2 st' w :
  span P st w1 s1 -> span Q s1 w2 st' -> rest st = w ++ rest st' ->
  w = w1 ++ w2.
Proof.
  intros (R1 & _) (R2 & _) R. rewrite R1, R2, app_assoc in R.
  now apply app_inv_tail in R.
Qed.

Lemma span_length (P : char -> bool) st w st' :
  span P st w st' ->
  List.length (rest st) = List.length w + List.length (rest st').
Proof. intros (R & _). rewrite R. apply length_app. Qed.

(** Repetition reads what its body reads. *)
Lemma rep_span (P : char -> bool) (f : mstate -> list mstate)
    (lo : nat) (hi : option nat) :
  (forall s s', List.In s' (f s) -> exists w, span P s w s') ->
  forall fuel n st st',
    List.In st' (rep f lo hi fuel n st) -> exists w, span P st w st'.
Proof.
  intros Hf. induction fuel as [|fuel IH]; intros n st st' H; simpl in H;
    [|apply in_app_or in H as [H|H]].
  - destruct (lo <=? n); [|destruct H].
    destruct H as [<-|[]]. exists []. apply span_refl.
  - destruct (below n hi); [|destruct H].
    apply in_flat_map in H as (s1 & H1 & H2).
    destruct (List.length (rest s1) <? List.length (rest st)); [|destruct H2].
    apply Hf in H1 as (w1 & S1). apply IH in H2 as (w2 & S2).
    exists (w1 ++ w2). eapply span_trans; eassumption.
  - destruct (lo <=? n); [|destruct H].
    destruct H as [<-|[]]. exists []. apply span_refl.
Qed.

(** The fuel of a repetition is exact: any fuel no less than the length
    of the remaining text gives the same matches. *)
Lemma rep_fuel (f : mstate -> list mstate) (lo : nat) (hi : option nat) :
  forall fuel1 fuel2 n st,
    List.length (rest st) <= fuel1 -> List.length (rest st) <= fuel2 ->
    rep f lo hi fuel1 n st = rep f lo hi fuel2 n st.
Proof.
  induction fuel1 as [|fuel1 IH]; intros [|fuel2] n st H1 H2;
    try reflexivity; cbn [rep]; f_equal.
  - destruct (below n hi); [|reflexivity].
    symmetry. apply flat_map_nil_fun. intros s1.
    destruct (List.length (rest s1) <? List.length (rest st)) eqn:L;
      [|reflexivity].
    apply Nat.ltb_lt in L. lia.
  - destruct (below n hi); [|reflexivity].
    apply flat_map_nil_fun. intros s1.
    destruct (List.length (rest s1) <? List.length (rest st)) eqn:L;
      [|reflexivity].
    apply Nat.ltb_lt in L. lia.
  - destruct (below n hi); [|reflexivity].
    apply flat_map_ext. intros s1.
    destruct (List.length (rest s1) <? List.length (rest st)) eqn:L;
      [|reflexivity].
    apply Nat.ltb_lt in L. apply IH; lia.
Qed.

(** A match reads a stretch of the text, made of characters the pattern
    may read. *)
Lemma ms_span (ic : bool) (r : regex) :
  forall st st', List.In st' (ms ic r st) -> exists w, span (may ic r) st w st'.
Proof.
  induction r as [|a|cs| |r1 IH1 r2 IH2|r1 IH1 r2 IH2|lo hi r IH|n r IH];
    intros st st' H; simpl in H.
  - destruct H as [<-|[]]. exists []. apply span_refl.
  - destruct (rest st) as [|c t] eqn:E; [destruct H|].
    destruct (lit_match ic a c) eqn:M; [|destruct H].
    destruct H as [<-|[]]. exists [c]. repeat split; simpl; auto.
  - destruct (rest st) as [|c t] eqn:E; [destruct H|].
    destruct (in_set ic cs c) eqn:M; [|destruct H].
    destruct H as [<-|[]]. exists [c]. repeat split; simpl; auto.
  - destruct (at_boundary st); [|destruct H].
    destruct H as [<-|[]]. exists []. apply span_refl.
  - apply in_flat_map in H as (s1 & H1 & H2).
    apply IH1 in H1 as (w1 & S1). apply IH2 in H2 as (w2 & S2).
    exists (w1 ++ w2). eapply span_trans; eapply span_weaken; try eassumption;
      simpl; intros c ->; auto using orb_true_r.
  - apply in_app_or in H as [H|H]; [apply IH1 in H|apply IH2 in H];
      destruct H as (w & S); exists w; eapply span_weaken; try eassumption;
      simpl; intros c ->; auto using orb_true_r.
  - eapply rep_span; [exact IH|exact H].
  - apply in_map_iff in H as (s1 & <- & H1).
    apply IH in H1 as (w & R & A & F). exists w. repeat split; assumption.
Qed.

Lemma consumed_span (P : char -> bool) st w st' :
  span P st w st' -> consumed st st' = w.
Proof.
  intros (R & _). unfold consumed. rewrite R, length_app.
  replace (List.length w + List.length (rest st') - List.length (rest st'))
    with (List.length w) by lia.
  rewrite firstn_app, firstn_all, Nat.sub_diag. simpl. apply app_nil_r.
Qed.

(** A repetition that must iterate starts with a match of its body. *)
Lemma rep_first (f : mstate -> list mstate) (lo : nat) (hi : option nat)
    (fuel : nat) (st st' : mstate) :
  0 < lo -> List.In st' (rep f lo hi fuel 0 st) ->
  exists s1 fuel', List.In s1 (f st) /\ List.In st' (rep f lo hi fuel' 1 s1).
Proof.
  intros Hlo H. destruct fuel as [|fuel]; simpl in H;
    [|apply in_app_or in H as [H|H]].
  - destruct lo; [lia|destruct H].
  - destruct (below 0 hi); [|destruct H].
    apply in_flat_map in H as (s1 & H1 & H2).
    destruct (List.length (rest s1) <? List.length (rest st)); [|destruct H2].
    eauto.
  - destruct lo; [lia|destruct H].
Qed.

(** A match reads a character of a leaf that the pattern must go
    through. *)
Lemma ms_must (ic : bool) (leaf : regex -> bool) (P : char -> bool) :
  (forall l c, leaf l = true -> may ic l c = true -> P c = true) ->
  forall r st st' w,
    must leaf r = true -> List.In st' (ms ic r st) ->
    rest st = w ++ rest st' -> Exists (fun c => P c = true) w.
Proof.
  intros Hleaf.
  induction r as [|a|cs| |r1 IH1 r2 IH2|r1 IH1 r2 IH2|lo hi r IH|n r IH];
    intros st st' w M H R; simpl in M; try discriminate.
  - pose proof (ms_span _ _ _ _ H) as (w' & S).
    rewrite (span_unique _ S R). simpl in H.
    destruct (rest st) as [|c t] eqn:E; [destruct H|].
    destruct (lit_match ic a c) eqn:L; [|destruct H].
    destruct H as [<-|[]]. destruct S as (R' & _). simpl in R'.
    rewrite E in R'. destruct w' as [|c' w'']; simpl in R'.
    + exfalso. apply (f_equal (@List.length _)) in R'. simpl in R'. lia.
    + injection R' as <- _. constructor. eapply Hleaf; eauto.
  - pose proof (ms_span _ _ _ _ H) as (w' & S).
    rewrite (span_unique _ S R). simpl in H.
    destruct (rest st) as [|c t] eqn:E; [destruct H|].
    destruct (in_set ic cs c) eqn:L; [|destruct H].
    destruct H as [<-|[]]. destruct S as (R' & _). simpl in R'.
    rewrite E in R'. destruct w' as [|c' w'']; simpl in R'.
    + exfalso. apply (f_equal (@List.length _)) in R'. simpl in R'. lia.
    + injection R' as <- _. constructor. eapply Hleaf; eauto.
  - simpl in H. apply in_flat_map in H as (s1 & H1 & H2).
    pose proof (ms_span _ _ _ _ H1) as (w1 & S1).
    pose proof (ms_span _ _ _ _ H2) as (w2 & S2).
    assert (w = w1 ++ w2) as -> by (eapply span_two; eassumption).
    apply Exists_app. apply orb_true_iff in M as [M|M].
    + left. eapply IH1; eauto. apply S1.
    + right. eapply IH2; eauto. apply S2.
  - apply andb_true_iff in M as [M1 M2]. simpl in H.
    apply in_app_or in H as [H|H]; eauto.
  - apply andb_true_iff in M as [Hlo M]. apply Nat.ltb_lt in Hlo.
    simpl in H. apply rep_first in H as (s1 & fuel' & H1 & H2); [|exact Hlo].
    pose proof (ms_span _ _ _ _ H1) as (w1 & S1).
    destruct (rep_span _ _ _ (ms_span ic r) _ _ _ _ H2)
      as (w2 & S2).
    assert (w = w1 ++ w2) as -> by (eapply span_two; eassumption).
    apply Exists_app. left. eapply IH; eauto. apply S1.
  - simpl in H. apply in_map_iff in H as (s1 & <- & H1).
    eapply IH; eauto.
Qed.

Lemma match_at_In (p : pattern) (b : option char) (s : str) (st' : mstate) :
  match_at p b s = Some st' ->
  List.In st' (ms (ignorecase p) (re p)
                  {| prev := b; rest := s; groups := [] |}).
Proof.
  unfold match_at. destruct (ms _ _ _) as [|x l]; simpl; [discriminate|].
  intros [= <-]. now left.
Qed.

Lemma match_at_None (p : pattern) (b : option char) (s : str) :
  match_at p b s = None <->
  ms (ignorecase p) (re p) {| prev := b; rest := s; groups := [] |} = [].
Proof.
  unfold match_at. destruct (ms _ _ _); simpl; split; congruence.
Qed.

(** ** [re.sub] where nothing matches *)

Lemma sub_loop_no_match (p : pattern) (repl : list titem) (s : str) :
  forall fuel before,
    finds p before s = false -> sub_loop p repl fuel before s = s.
Proof.
  induction s as [|c t IH]; intros [|fuel] before H; try reflexivity;
    simpl in *; destruct (match_at p before _); try discriminate.
  - reflexivity.
  - rewrite IH by assumption. reflexivity.
Qed.

Lemma sub_no_match (p : pattern) (repl : list titem) (s : str) :
  finds p None s = false -> sub p repl s = s.
Proof. apply sub_loop_no_match. Qed.

(** ** [re.sub] over a stretch where nothing matches *)

Lemma sub_loop_prefix (p : pattern) (repl : list titem) (z : str) :
  forall (pre : str) (fuel : nat) (before : option char),
    (forall p1 p2, pre = p1 ++ p2 -> p2 <> [] ->
                   match_at p (after before p1) (p2 ++ z) = None) ->
    List.length pre <= fuel ->
    sub_loop p repl fuel before (pre ++ z)
    = pre ++ sub_loop p repl (fuel - List.length pre) (after before pre) z.
Proof.
  induction pre as [|c pre IH]; intros fuel before H Hf.
  - simpl. rewrite Nat.sub_0_r. reflexivity.
  - destruct fuel as [|fuel]; [simpl in Hf; lia|].
    pose proof (H [] (c :: pre) eq_refl ltac:(discriminate)) as H0.
    change (match_at p before (c :: pre ++ z) = None) in H0.
    simpl. rewrite H0.
    rewrite after_cons. f_equal. apply IH; [|simpl in Hf; lia].
    intros p1 p2 -> Hp2. rewrite <- (after_cons before c p1).
    apply (H (c :: p1) p2); [reflexivity|assumption].
Qed.

(** ** What the rules read *)

Lemma required_leaf_ok (ic : bool) (l : regex) (c : char) :
  required_leaf l = true -> may ic l c = true -> required c = true.
Proof.
  unfold required. destruct l as [|a|cs| | | | |]; simpl; try discriminate.
  - intros Ha. apply N.eqb_eq in Ha as ->.
    unfold lit_match. replace (iscased 64%N) with false by reflexivity.
    rewrite andb_false_r. intros ->. apply orb_true_iff. left.
    apply orb_true_r.
  - destruct cs as [|[a|lo hi|[]] [|]]; try discriminate; intros _;
      unfold in_set; simpl; rewrite andb_false_r, orb_false_r; intros ->;
      auto using orb_true_r.
Qed.

Lemma rules_must (rule : pattern * list titem) :
  List.In rule rules -> must required_leaf (re (fst rule)) = true.
Proof.
  intros [<-|[<-|[<-|[<-|[]]]]]; reflexivity.
Qed.

(** No rule reads a bracket. *)
Lemma rules_skip_brackets (rule : pattern * list titem) (c : char) :
  List.In rule rules -> (c = 91 \/ c = 93)%N ->
  may (ignorecase (fst rule)) (re (fst rule)) c = false.
Proof.
  intros [<-|[<-|[<-|[<-|[]]]]] [->| ->]; reflexivity.
Qed.

(** Every match of a rule reads a required character, and no bracket. *)
Lemma rule_match (rule : pattern * list titem) (st st' : mstate) :
  List.In rule rules ->
  List.In st' (ms (ignorecase (fst rule)) (re (fst rule)) st) ->
  exists w, rest st = w ++ rest st'
            /\ Exists (fun c => required c = true) w
            /\ Forall (fun c => c <> 91 /\ c <> 93)%N w.
Proof.
  intros Hr H. destruct (ms_span _ _ _ _ H) as (w & S).
  exists w. split; [apply S|]. split.
  - eapply ms_must; try eassumption.
    + intros l c. apply required_leaf_ok.
    + now apply rules_must.
    + apply S.
  - destruct S as (_ & _ & F). eapply Forall_impl; [|exact F].
    intros c Hc. split; intros ->;
      rewrite rules_skip_brackets in Hc; auto; discriminate.
Qed.

End MatcherFacts.

(* ================================================================== *)
(** * The quote clean-up of the reply *)
(* ================================================================== *)

Section Quotes.

Lemma strip_quotes_unquoted (q : char) (s : str) :
  unquoted q s (strip_quotes q s).
Proof.
  unfold strip_quotes.
  destruct (startswith [q] s && endswith [q] s) eqn:E.
  - apply andb_true_iff in E as [Hs He].
    apply startswith_one in Hs as [t ->].
    apply endswith_one in He as [t' He].
    induction t as [|c m _] using rev_ind.
    + apply unq_lone.
    + rewrite app_comm_cons in He.
      apply app_inj_tail in He as [_ ->].
      rewrite slice_layer. constructor.
  - now apply unq_none.
Qed.

(** C4 (amended).  The reply is trimmed; then a test for double quotes
    removes one double quote at each end of a text that starts and ends
    with one; then a second test, made on the outcome of the first and
    not as its alternative, does the same for single quotes. *)
Theorem nettoyer_guillemets_two_tests (contenu : str) :
  exists t,
    unquoted dquote (strip contenu) t
    /\ unquoted squote t (nettoyer_guillemets contenu).
Proof.
  exists (strip_quotes dquote (strip contenu)). split.
  - apply strip_quotes_unquoted.
  - unfold nettoyer_guillemets. apply strip_quotes_unquoted.
Qed.

(** A reply in double quotes around single quotes loses both layers,
    where a single pass would have kept the single quotes. *)
Lemma nettoyer_guillemets_removes_both_layers :
  let contenu := dquote :: squote :: lit "hello" ++ [squote; dquote] in
  nettoyer_guillemets contenu = lit "hello"
  /\ nettoyer_guillemets contenu <> squote :: lit "hello" ++ [squote].
Proof. split; [reflexivity | discriminate]. Qed.

(** A reply in two layers of double quotes keeps one. *)
Example nettoyer_guillemets_keeps_one_layer :
  nettoyer_guillemets (dquote :: dquote :: lit "hello" ++ [dquote; dquote])
  = dquote :: lit "hello" ++ [dquote].
Proof. reflexivity. Qed.

End Quotes.

(* ================================================================== *)
(** * The handlers *)
(* ================================================================== *)

Arguments lit : simpl never.
Arguments lookup : simpl never.
Arguments AGENTS : simpl never.
Arguments anonymiser_texte : simpl never.
Arguments texte_brut_of : simpl never.
Arguments texte_corrige_of : simpl never.
Arguments compter_corrections : simpl never.
Arguments completion_request_of : simpl never.
Arguments strip : simpl never.
Arguments split : simpl never.
Arguments total_seconds : simpl never.
Arguments round2 : simpl never.
Arguments onupdate : simpl never.
Arguments committed : simpl never.

Section HandlerFacts.
Context {U : Unicode} {C : Collaborators}.

(** ** The count of corrections *)

Lemma compter_corrections_zero (a b : str) :
  compter_corrections a b = 0%Z <-> a = b.
Proof.
  unfold compter_corrections. destruct (eqb_spec a b) as [E|N].
  - tauto.
  - split; [lia|tauto].
Qed.

Lemma compter_corrections_differ (a b : str) :
  a <> b ->
  compter_corrections a b
  = Z.max 1 (Z.abs (Z.of_nat (List.length (split a))
                    - Z.of_nat (List.length (split b)))).
Proof.
  intros N. unfold compter_corrections.
  destruct (eqb_spec a b) as [E|_]; [tauto|reflexivity].
Qed.

(** ** The elapsed time *)

(** The answer gives the elapsed time rounded to the hundredth of a
    second that is nearest to the binary number: 0.005 s and 0.025 s
    go up, 0.015 s goes down, and the ties 0.125 s and 0.375 s go to
    the even hundredth. *)
Example round2_samples :
  map (fun micro => round2 (total_seconds micro))
      [5000; 15000; 25000; 35000; 125000; 375000; 1234567; -1234567]%Z
  = [1; 1; 3; 4; 12; 38; 123; -123]%Z.
Proof. vm_compute. reflexivity. Qed.

(** A run that succeeds reports the count of the plain text of the
    request against the corrected text that it returns. *)
Lemma process_text_success
    (current_user : nat) (data : process_body) (w : World)
    (agent : AIAgent) (contenu : str) :
  let texte := get (pb_texte data) [] in
  let agent_name := get (pb_agent data) (lit "jurifix") in
  truthy (strip (texte_brut_of texte)) = true ->
  lookup agent_name AGENTS = Some agent ->
  create (completion_request_of agent
            (anonymiser_texte (texte_brut_of texte)))
  = Reply (Some contenu) ->
  fst (process_text current_user data w)
  = ok (Processed (texte_corrige_of texte contenu) agent_name
          {| st_processing_time :=
               round2 (total_seconds
                         (utcnow (S (ticks w)) - utcnow (ticks w)));
             st_word_count := List.length (split (texte_brut_of texte));
             st_corrections_count :=
               compter_corrections (texte_brut_of texte)
                 (texte_corrige_of texte contenu) |}).
Proof.
  intros texte agent_name Hb Ha Hc. unfold process_text.
  fold texte agent_name. rewrite Hb. cbn [negb]. rewrite Ha, Hc.
  reflexivity.
Qed.

(** On a request in plain text the count is 0 exactly when the
    correction, once its quotes are cleaned, is the text of the
    request. *)
Lemma process_text_plain_count
    (current_user : nat) (data : process_body) (w : World)
    (agent : AIAgent) (contenu : str) :
  let texte := get (pb_texte data) [] in
  html_mode texte = false ->
  truthy (strip texte) = true ->
  lookup (get (pb_agent data) (lit "jurifix")) AGENTS = Some agent ->
  create (completion_request_of agent (anonymiser_texte texte))
  = Reply (Some contenu) ->
  exists t n,
    fst (process_text current_user data w)
    = ok (Processed (nettoyer_guillemets contenu)
            (get (pb_agent data) (lit "jurifix"))
            {| st_processing_time := t; st_word_count := n;
               st_corrections_count :=
                 compter_corrections texte (nettoyer_guillemets contenu) |})
    /\ (compter_corrections texte (nettoyer_guillemets contenu) = 0%Z
        <-> texte = nettoyer_guillemets contenu).
Proof.
  intros texte Hm Hb Ha Hc.
  assert (E : texte_brut_of texte = texte)
    by (unfold texte_brut_of; now rewrite Hm).
  assert (E' : texte_corrige_of texte contenu = nettoyer_guillemets contenu)
    by (unfold texte_corrige_of; now rewrite Hm).
  eexists _, _. split; [|apply compter_corrections_zero].
  rewrite (@process_text_success current_user data w agent contenu);
    fold texte; rewrite ?E, ?E'; auto.
Qed.

(** ** Unknown agents *)

(** C9 (amended).  A call that names an agent absent from the registry
    is refused with status 400 and makes no completion call, the state
    being left as it was; the error is "Agent non reconnu" when the
    plain text is not blank, and "Texte vide" when it is, since the
    text is checked first. *)
Theorem process_text_unknown_agent
    (current_user : nat) (data : process_body) (w : World) :
  lookup (get (pb_agent data) (lit "jurifix")) AGENTS = None ->
  process_text current_user data w
  = (fail 400
       (if truthy (strip (texte_brut_of (get (pb_texte data) [])))
        then lit "Agent non reconnu" else lit "Texte vide"),
     w).
Proof.
  intros H. unfold process_text.
  destruct (truthy (strip (texte_brut_of (get (pb_texte data) []))));
    cbn [negb]; [rewrite H|]; reflexivity.
Qed.

(** ** The document id of a process call *)

Lemma process_text_documents_without_id
    (current_user : nat) (texte agent : option str) (w : World) :
  documents
    (snd (process_text current_user
            {| pb_texte := texte; pb_agent := agent;
               pb_document_id := None |} w))
  = documents w.
Proof.
  unfold process_text; simpl.
  destruct (truthy (strip (texte_brut_of (get texte [])))); cbn [negb];
    [|reflexivity].
  destruct (lookup (get agent (lit "jurifix")) AGENTS); [|reflexivity].
  destruct (create _) as [[contenu|]|e]; reflexivity.
Qed.

(** C8.  When the document id of a process call identifies no document
    of the requesting user, the call answers exactly as the same call
    without an id (the same corrected text and statistics, no error)
    and leaves every document row as it was. *)
Theorem process_text_unowned_id_ignored
    (current_user : nat) (texte agent : option str) (i : str) (w : World) :
  query_first i current_user (documents w) = None ->
  process_text current_user
    {| pb_texte := texte; pb_agent := agent; pb_document_id := Some i |} w
  = process_text current_user
      {| pb_texte := texte; pb_agent := agent; pb_document_id := None |} w
  /\ documents
       (snd (process_text current_user
               {| pb_texte := texte; pb_agent := agent;
                  pb_document_id := Some i |} w))
     = documents w.
Proof.
  intros H.
  assert (E : process_text current_user
    {| pb_texte := texte; pb_agent := agent; pb_document_id := Some i |} w
  = process_text current_user
      {| pb_texte := texte; pb_agent := agent; pb_document_id := None |} w).
  { unfold process_text; simpl.
    destruct (truthy (strip (texte_brut_of (get texte [])))); cbn [negb];
      [|reflexivity].
    destruct (lookup (get agent (lit "jurifix")) AGENTS); [|reflexivity].
    destruct (create _) as [[contenu|]|e]; try reflexivity.
    simpl. rewrite H. destruct (truthy i); reflexivity. }
  split; [exact E|].
  rewrite E. apply process_text_documents_without_id.
Qed.

(** ** The frame of a PUT *)

Lemma put_frame_refl (data : put_body) (d : Document) : put_frame data d d.
Proof. unfold put_frame; repeat split; reflexivity. Qed.

Lemma update_first_frame (data : put_body) (i : str) (u : nat)
    (f : Document -> Document) (ds : list Document) :
  (forall d, put_frame data d (f d)) ->
  Forall2 (put_frame data) ds (update_first i u f ds).
Proof.
  intros Hf. induction ds as [|d ds IH]; simpl; [constructor|].
  destruct (owned i u d).
  - constructor; [apply Hf|].
    clear IH. induction ds; constructor; auto using put_frame_refl.
  - constructor; [apply put_frame_refl | exact IH].
Qed.

(** C10.  A PUT on a document changes, in every row of the table,
    nothing but [title], [content], [status] and [updated_at]: the
    corrected content, the agent, the three statistics, the creation
    time, the owner and the id are kept, and so is each of [title],
    [content] and [status] that the request body does not hold. *)
Theorem handle_document_put_frame
    (current_user : nat) (document_id : str) (data : put_body) (w : World) :
  Forall2 (put_frame data) (documents w)
    (documents (snd (handle_document_put current_user document_id data w))).
Proof.
  unfold handle_document_put.
  destruct (query_first document_id current_user (documents w)); simpl.
  - destruct (onupdate _ _); simpl; apply update_first_frame; intros d0;
      unfold committed; destruct (onupdate _ _);
      unfold put_frame; simpl; repeat split; intros ->; reflexivity.
  - induction (documents w); constructor; auto using put_frame_refl.
Qed.

(** ** Corrected content and status *)

Lemma update_first_Forall (P : Document -> Prop) (i : str) (u : nat)
    (f : Document -> Document) (ds : list Document) :
  (forall d, P (f d)) -> Forall P ds -> Forall P (update_first i u f ds).
Proof.
  intros Hf H. induction H as [|d ds Hd Hds IH]; simpl; [constructor|].
  destruct (owned i u d); constructor; auto.
Qed.

(** C3 (amended).  Creating a document through [handle_documents] and
    the update made by [process_text] keep the rule that a corrected
    content is non-null only on a completed document.  (Saving
    through [save_document] and a PUT are not covered: the first stores
    a corrected content without making the document completed, the
    second sets any status.) *)
Theorem create_and_process_keep_completed_only
    (current_user : nat) (cb : create_body) (pb : process_body) (w : World) :
  Forall completed_only (documents w) ->
  Forall completed_only
    (documents (snd (handle_documents_post current_user cb w)))
  /\ Forall completed_only
       (documents (snd (process_text current_user pb w))).
Proof.
  intros H. split.
  - unfold handle_documents_post; simpl.
    apply Forall_app; split; [exact H|].
    constructor; [|constructor].
    unfold completed_only; simpl; congruence.
  - unfold process_text.
    destruct (truthy (strip _)); cbn [negb]; [|exact H].
    destruct (lookup _ AGENTS); [|exact H].
    destruct (create _) as [[contenu|]|e]; try exact H.
    simpl. destruct (pb_document_id pb) as [i|]; [|exact H].
    destruct (truthy i); [|exact H].
    destruct (query_first i current_user (documents w)); [|exact H].
    destruct (onupdate _ _); simpl; (apply update_first_Forall; [|exact H]);
      intros d0; unfold committed; destruct (onupdate _ _);
      unfold completed_only; simpl; reflexivity.
Qed.

(** ** The history table *)

(** C2 (amended).  No handler inserts a [CorrectionHistory] row: a
    process call, with or without a document id, a save, a creation and
    a PUT all leave the history table as it was; a document is written
    on its own. *)
Theorem handlers_leave_history
    (current_user : nat) (w : World) (pb : process_body) (sb : save_body)
    (cb : create_body) (i : str) (ub : put_body) :
  history (snd (process_text current_user pb w)) = history w
  /\ history (snd (save_document current_user sb w)) = history w
  /\ history (snd (handle_documents_post current_user cb w)) = history w
  /\ history (snd (handle_document_put current_user i ub w)) = history w.
Proof.
  split; [|split; [|split]].
  - unfold process_text.
    destruct (truthy (strip _)); cbn [negb]; [|reflexivity].
    destruct (lookup _ AGENTS); [|reflexivity].
    destruct (create _) as [[contenu|]|e]; try reflexivity.
    simpl. destruct (pb_document_id pb) as [j|]; [|reflexivity].
    destruct (truthy j); [|reflexivity].
    destruct (query_first j current_user (documents w)); [|reflexivity].
    destruct (onupdate _ _); reflexivity.
  - unfold save_document.
    destruct (truthy (get (sb_id sb) [])); [|reflexivity].
    destruct (query_first _ current_user (documents w)); [|reflexivity].
    simpl. destruct (onupdate _ _); reflexivity.
  - reflexivity.
  - unfold handle_document_put.
    destruct (query_first i current_user (documents w)); [|reflexivity].
    simpl. destruct (onupdate _ _); reflexivity.
Qed.

End HandlerFacts.

(* ================================================================== *)
(** * Extraction of the plain text *)
(* ================================================================== *)

Section Markup.
Context {C : Collaborators}.

(** On a text that holds neither [<p>] nor [<div>] the extraction of
    the plain text is the identity. *)
Lemma texte_brut_of_plain (texte : str) :
  html_mode texte = false -> texte_brut_of texte = texte.
Proof. unfold texte_brut_of. intros ->. reflexivity. Qed.

End Markup.

(* ================================================================== *)
(** * The anonymiser *)
(* ================================================================== *)

Section Positions.

Lemma nth_error_after {A} (l1 w z : list A) (j : nat) :
  j < List.length w ->
  nth_error (l1 ++ w ++ z) (List.length l1 + j) = nth_error w j.
Proof.
  intros Hj. rewrite nth_error_app2 by lia.
  replace (List.length l1 + j - List.length l1) with j by lia.
  now apply nth_error_app1.
Qed.

(** A stretch [w] of a text that holds neither delimiter of a bracketed
    word, but holds a character that the word lacks, lies beside the
    bracketed word. *)
Lemma beside_bracketed (req : char -> bool) (k1 k2 : char)
    (a word b l1 w z : str) :
  a ++ (k1 :: word ++ [k2]) ++ b = l1 ++ w ++ z ->
  Forall (fun c => c <> k1 /\ c <> k2) w ->
  Exists (fun c => req c = true) w ->
  Forall (fun c => req c = false) word ->
  List.length l1 + List.length w <= List.length a
  \/ List.length a + List.length (k1 :: word ++ [k2]) <= List.length l1.
Proof.
  intros E Hw Hreq Hword.
  destruct (le_gt_dec (List.length l1 + List.length w) (List.length a))
    as [|G1]; [now left|].
  destruct (le_gt_dec (List.length a + List.length (k1 :: word ++ [k2]))
                      (List.length l1)) as [|G2]; [now right|].
  exfalso. simpl in G2. rewrite length_app in G2. simpl in G2.
  assert (F2 : nth_error (l1 ++ w ++ z) (List.length a) = Some k1).
  { rewrite <- E, nth_error_app2, Nat.sub_diag by lia. reflexivity. }
  assert (F3 : nth_error (l1 ++ w ++ z)
                 (List.length a + S (List.length word)) = Some k2).
  { rewrite <- E, nth_error_app2 by lia.
    replace (List.length a + S (List.length word) - List.length a)
      with (S (List.length word)) by lia.
    simpl. rewrite <- app_assoc, nth_error_app2, Nat.sub_diag by lia.
    reflexivity. }
  assert (F4 : forall i, i < List.length word ->
             nth_error (l1 ++ w ++ z) (List.length a + S i)
             = nth_error word i).
  { intros i Hi. rewrite <- E, nth_error_app2 by lia.
    replace (List.length a + S i - List.length a) with (S i) by lia.
    simpl. rewrite <- app_assoc. now apply nth_error_app1. }
  rewrite Forall_forall in Hw, Hword.
  destruct (le_gt_dec (List.length l1) (List.length a)) as [L|L].
  - (* the stretch covers the opening delimiter *)
    pose proof (@nth_error_after _ l1 w z (List.length a - List.length l1)
                  ltac:(lia)) as F1.
    replace (List.length l1 + (List.length a - List.length l1))
      with (List.length a) in F1 by lia.
    rewrite F2 in F1. symmetry in F1. apply nth_error_In in F1.
    apply Hw in F1. tauto.
  - destruct (le_gt_dec (List.length l1 + List.length w)
                        (List.length a + S (List.length word))) as [L'|L'].
    + (* the stretch lies inside the word *)
      apply Exists_exists in Hreq as (c & Hc & Rc).
      apply In_nth_error in Hc as (j & Hj).
      assert (Hlt : j < List.length w)
        by (apply nth_error_Some; congruence).
      pose proof (nth_error_after l1 w z Hlt) as F1.
      replace (List.length l1 + j)
        with (List.length a + S (List.length l1 + j - S (List.length a)))
        in F1 by lia.
      rewrite F4, Hj in F1 by lia. apply nth_error_In in F1.
      apply Hword in F1. congruence.
    + (* the stretch covers the closing delimiter *)
      pose proof (@nth_error_after _ l1 w z
                    (List.length a + S (List.length word) - List.length l1)
                    ltac:(lia)) as F1.
      replace (List.length l1
               + (List.length a + S (List.length word) - List.length l1))
        with (List.length a + S (List.length word)) in F1 by lia.
      rewrite F3 in F1. symmetry in F1. apply nth_error_In in F1.
      apply Hw in F1. tauto.
Qed.

End Positions.

Section AnonymiserFacts.
Context {U : Unicode}.

Lemma token_shape (token : str) :
  List.In token tokens ->
  exists word, token = 91%N :: word ++ [93%N]
               /\ Forall (fun c => required c = false) word.
Proof.
  intros [<-|[<-|[<-|[<-|[]]]]].
  - exists (lit "nom"). split; [reflexivity|repeat constructor].
  - exists (lit "email"). split; [reflexivity|repeat constructor].
  - exists (lit "téléphone"). split; [reflexivity|repeat constructor].
  - exists (lit "IBAN"). split; [reflexivity|repeat constructor].
Qed.

(** No match of a rule, wherever it starts in a text, reaches into an
    occurrence of a replacement token. *)
Lemma tokens_not_matched (rule : pattern * list titem) (token a b l1 l2 : str)
    (before : option char) (st' : mstate) :
  List.In rule rules -> List.In token tokens ->
  a ++ token ++ b = l1 ++ l2 ->
  List.In st' (ms (ignorecase (fst rule)) (re (fst rule))
                  {| prev := before; rest := l2; groups := [] |}) ->
  List.length l1 + (List.length l2 - List.length (rest st')) <= List.length a
  \/ List.length a + List.length token <= List.length l1.
Proof.
  intros Hr Ht E H.
  destruct (rule_match _ _ Hr H) as (w & R & Hreq & Hw). simpl in R.
  apply token_shape in Ht as (word & -> & Hword).
  subst l2. rewrite length_app.
  replace (List.length w + List.length (rest st') - List.length (rest st'))
    with (List.length w) by lia.
  eapply beside_bracketed; eassumption.
Qed.

(** C7.  On a text whose redaction holds nothing that a rule matches,
    redacting the redaction again gives the redaction; and no match of
    a rule, wherever it starts in a text, reaches into an occurrence of
    a replacement token, so a token that a rule has written is not
    matched again. *)
Theorem anonymiser_texte_idempotent (x : str) :
  (forall rule, List.In rule rules ->
                finds (fst rule) None (anonymiser_texte x) = false) ->
  anonymiser_texte (anonymiser_texte x) = anonymiser_texte x
  /\ (forall rule token a b l1 l2 before st',
        List.In rule rules -> List.In token tokens ->
        a ++ token ++ b = l1 ++ l2 ->
        List.In st' (ms (ignorecase (fst rule)) (re (fst rule))
                        {| prev := before; rest := l2; groups := [] |}) ->
        List.length l1 + (List.length l2 - List.length (rest st'))
        <= List.length a
        \/ List.length a + List.length token <= List.length l1).
Proof.
  intros H. split.
  - set (y := anonymiser_texte x) in *.
    unfold anonymiser_texte.
    rewrite (sub_no_match re_nom) by (apply (H (re_nom, repl_nom)); simpl; auto).
    rewrite (sub_no_match re_email)
      by (apply (H (re_email, repl_email)); simpl; auto).
    rewrite (sub_no_match re_telephone)
      by (apply (H (re_telephone, repl_telephone)); simpl; auto).
    apply sub_no_match. apply (H (re_iban, repl_iban)); simpl; auto 6.
  - intros. eapply tokens_not_matched; eassumption.
Qed.

End AnonymiserFacts.

(* ================================================================== *)
(** * The rule of the names *)
(* ================================================================== *)

Unset Implicit Arguments.

Section NameRule.
Context {U : Unicode}.

(** On a text that starts with an honorific of the list, the alternation
    reads that honorific and nothing else. *)
Lemma honorific_reads (h z : str) (b : option char) (g : list (nat * str)) :
  List.In h honorifics ->
  ms true honorific {| prev := b; rest := h ++ z; groups := g |}
  = [{| prev := after b h; rest := z; groups := g |}].
Proof.
  intros [<-|[<-|[<-|[<-|[<-|[<-|[]]]]]]]; vm_compute; reflexivity.
Qed.

(** ** Captured groups *)

Lemma group_set_other (n m : nat) (st s1 : mstate) :
  m <> n -> group (set_group m st s1) n = group s1 n.
Proof.
  intros H. unfold group, set_group. simpl.
  apply Nat.eqb_neq in H. rewrite H. reflexivity.
Qed.

Lemma rep_no_group (k : nat) (f : mstate -> list mstate)
    (lo : nat) (hi : option nat) :
  (forall s s', List.In s' (f s) -> group s' k = group s k) ->
  forall fuel n st st',
    List.In st' (rep f lo hi fuel n st) -> group st' k = group st k.
Proof.
  intros Hf. induction fuel as [|fuel IH]; intros n st st' H; simpl in H;
    [|apply in_app_or in H as [H|H]].
  - destruct (lo <=? n); [|destruct H]. now destruct H as [<-|[]].
  - destruct (below n hi); [|destruct H].
    apply in_flat_map in H as (s1 & H1 & H2).
    destruct (List.length (rest s1) <? List.length (rest st)); [|destruct H2].
    apply Hf in H1. apply IH in H2. congruence.
  - destruct (lo <=? n); [|destruct H]. now destruct H as [<-|[]].
Qed.

Lemma ms_no_group (ic : bool) (k : nat) (r : regex) :
  no_group k r = true ->
  forall st st', List.In st' (ms ic r st) -> group st' k = group st k.
Proof.
  induction r as [|a|cs| |r1 IH1 r2 IH2|r1 IH1 r2 IH2|lo hi r IH|n r IH];
    intros N st st' H; simpl in N, H.
  - now destruct H as [<-|[]].
  - destruct (rest st) as [|c t]; [destruct H|].
    destruct (lit_match ic a c); [|destruct H]. now destruct H as [<-|[]].
  - destruct (rest st) as [|c t]; [destruct H|].
    destruct (in_set ic cs c); [|destruct H]. now destruct H as [<-|[]].
  - destruct (at_boundary st); [|destruct H]. now destruct H as [<-|[]].
  - apply andb_true_iff in N as [N1 N2].
    apply in_flat_map in H as (s1 & H1 & H2).
    rewrite (IH2 N2 _ _ H2). now apply IH1.
  - apply andb_true_iff in N as [N1 N2].
    apply in_app_or in H as [H|H]; auto.
  - eapply rep_no_group; [|exact H]. intros s s'. now apply IH.
  - apply andb_true_iff in N as [N1 N2].
    apply in_map_iff in H as (s1 & <- & H1).
    rewrite group_set_other.
    + now apply IH.
    + apply negb_true_iff, Nat.eqb_neq in N1. exact N1.
Qed.

Lemma consumed_app (w z : str) (b b' : option char) (g g' : list (nat * str)) :
  consumed {| prev := b; rest := w ++ z; groups := g |}
           {| prev := b'; rest := z; groups := g' |} = w.
Proof.
  unfold consumed; simpl. rewrite length_app.
  replace (List.length w + List.length z - List.length z)
    with (List.length w) by lia.
  rewrite firstn_app, firstn_all, Nat.sub_diag. simpl. apply app_nil_r.
Qed.

(** ** The first rule at an honorific *)

Lemma honorific_starts (h z : str) :
  List.In h honorifics -> exists t, h ++ z = 77%N :: t.
Proof.
  intros [<-|[<-|[<-|[<-|[<-|[<-|[]]]]]]]; eexists; reflexivity.
Qed.

Lemma nom_unfold (b : option char) (h z : str) :
  List.In h honorifics -> word_opt b = false ->
  ms true (re re_nom) {| prev := b; rest := h ++ z; groups := [] |}
  = ms true suite_nom
       {| prev := after b h; rest := z; groups := [(1, h)] |}.
Proof.
  intros Hh Hb.
  change (re re_nom) with (Cat WordBoundary (Cat (Group 1 honorific) suite_nom)).
  set (st := {| prev := b; rest := h ++ z; groups := [] |}).
  change (ms true (Cat WordBoundary (Cat (Group 1 honorific) suite_nom)) st)
    with (flat_map (ms true (Cat (Group 1 honorific) suite_nom))
            (if at_boundary st then [st] else [])).
  assert (at_boundary st = true) as ->.
  { unfold at_boundary, st; simpl prev; simpl rest. rewrite Hb.
    destruct (honorific_starts h z Hh) as (t & ->). reflexivity. }
  cbn [flat_map]. rewrite app_nil_r.
  change (ms true (Cat (Group 1 honorific) suite_nom) st)
    with (flat_map (ms true suite_nom)
            (map (set_group 1 st) (ms true honorific st))).
  unfold st. rewrite (honorific_reads h z b [] Hh). cbn [map flat_map].
  rewrite app_nil_r. unfold set_group. cbn [prev rest groups].
  rewrite consumed_app. reflexivity.
Qed.

Lemma honorific_length (h : str) :
  List.In h honorifics -> 0 < List.length h.
Proof.
  intros [<-|[<-|[<-|[<-|[<-|[<-|[]]]]]]]; vm_compute; lia.
Qed.

(** The first rule matches only where the text starts with an [m], in
    either case. *)
Lemma nom_needs_m (st : mstate) :
  (forall c t, rest st = c :: t -> lower c <> 109%N) ->
  ms true (re re_nom) st = [].
Proof.
  intros H.
  assert (L : ms true (Lit 77%N) st = []).
  { simpl. destruct (rest st) as [|c t] eqn:E; [reflexivity|].
    specialize (H c t eq_refl). apply N.eqb_neq in H.
    unfold lit_match.
    change (true && iscased 77%N) with true.
    change (folded 77%N) with [109%N]. cbn [existsb].
    rewrite H. reflexivity. }
  change (ms true (re re_nom) st)
    with (flat_map
            (fun s => flat_map (ms true suite_nom)
                        (map (set_group 1 s)
     (flat_map (ms true (lits (lit "onsieur"))) (ms true (Lit 77%N) s)
      ++ flat_map (ms true (lits (lit "r"))) (ms true (Lit 77%N) s)
      ++ flat_map (ms true (lits (lit "."))) (ms true (Lit 77%N) s)
      ++ flat_map (ms true (lits (lit "adame"))) (ms true (Lit 77%N) s)
      ++ flat_map (ms true (lits (lit "me"))) (ms true (Lit 77%N) s)
      ++ flat_map (ms true (lits (lit "lle"))) (ms true (Lit 77%N) s))))
            (if at_boundary st then [st] else [])).
  destruct (at_boundary st); [|reflexivity].
  cbn [flat_map]. rewrite L. reflexivity.
Qed.

Lemma sub_loop_match (p : pattern) (repl : list titem) (fuel : nat)
    (before : option char) (s : str) (st' : mstate) :
  match_at p before s = Some st' ->
  List.length (rest st') < List.length s ->
  sub_loop p repl (S fuel) before s
  = expand repl st' ++ sub_loop p repl fuel (prev st') (rest st').
Proof.
  intros H L. cbn [sub_loop]. rewrite H.
  apply Nat.ltb_lt in L. rewrite L. reflexivity.
Qed.

(** ** The later rules *)

Lemma mark_leaf_ok (ic : bool) (l : regex) (c : char) :
  mark_leaf l = true -> may ic l c = true -> mark c = true.
Proof.
  unfold mark. destruct l as [|a|cs| | | | |]; simpl; try discriminate.
  - intros Ha. apply N.eqb_eq in Ha as ->.
    unfold lit_match. replace (iscased 64%N) with false by reflexivity.
    rewrite andb_false_r. intros ->. reflexivity.
  - destruct cs as [|[a|lo hi|[]] [|]]; try discriminate; intros _;
      unfold in_set; simpl; rewrite andb_false_r, orb_false_r; intros ->;
      apply orb_true_r.
Qed.

Lemma later_rules_must (rule : pattern * list titem) :
  List.In rule (tl rules) -> must mark_leaf (re (fst rule)) = true.
Proof.
  intros [<-|[<-|[<-|[]]]]; reflexivity.
Qed.

Lemma later_rule_match (rule : pattern * list titem) (st st' : mstate) :
  List.In rule (tl rules) ->
  List.In st' (ms (ignorecase (fst rule)) (re (fst rule)) st) ->
  exists w, rest st = w ++ rest st'
            /\ Exists (fun c => mark c = true) w
            /\ Forall (fun c => c <> 91 /\ c <> 93)%N w.
Proof.
  intros Hr H.
  destruct (rule_match st st' (in_cons _ _ _ Hr) H) as (w & R & _ & F).
  exists w. split; [exact R|]. split; [|exact F].
  eapply ms_must; try eassumption.
  - intros l c. apply mark_leaf_ok.
  - now apply later_rules_must.
Qed.

(** A stretch of characters that satisfy [P], read from a text in which
    [k] does not satisfy [P], ends before [k]. *)
Lemma prefix_before_barrier (P : char -> Prop) (k : char) (w : str) :
  forall g z r,
    g ++ k :: z = w ++ r -> Forall P w -> ~ P k -> exists g2, g = w ++ g2.
Proof.
  induction w as [|c w IH]; intros g z r E F Hk.
  - exists g. reflexivity.
  - destruct g as [|c' g]; simpl in E; injection E as -> E.
    + inversion F; tauto.
    + inversion F; subst. destruct (IH g z r E) as (g2 & ->); auto.
      exists g2. reflexivity.
Qed.

(** A later rule has no match at the start of a stretch without [@] and
    digit that a bracket ends. *)
Lemma guarded_no_match (rule : pattern * list titem) (before : option char)
    (g z : str) (k : char) :
  List.In rule (tl rules) ->
  Forall (fun c => mark c = false) g -> (k = 91 \/ k = 93)%N ->
  match_at (fst rule) before (g ++ k :: z) = None.
Proof.
  intros Hr Hg Hk. apply match_at_None.
  destruct (ms _ _ _) as [|st' l] eqn:E; [reflexivity|exfalso].
  assert (M : List.In st'
                (ms (ignorecase (fst rule)) (re (fst rule))
                    {| prev := before; rest := g ++ k :: z; groups := [] |}))
    by (rewrite E; now left).
  destruct (later_rule_match _ _ _ Hr M) as (w & R & X & F). cbn [rest] in R.
  destruct (prefix_before_barrier (fun c => c <> 91 /\ c <> 93)%N k w
              g z (rest st') R F) as (g2 & ->).
  { destruct Hk as [-> | ->]; tauto. }
  apply Forall_app in Hg as [Hw _].
  apply Exists_exists in X as (c & Hc & Mc).
  rewrite Forall_forall in Hw. rewrite (Hw c Hc) in Mc. discriminate.
Qed.

End NameRule.

(* ================================================================== *)
(** * The fuel of [re.sub] *)
(* ================================================================== *)

Section Fuel.
Context {U : Unicode}.

(** The scan of [re.sub] ends before its fuel does: any fuel above the
    length of the text gives the same result. *)
Lemma sub_loop_fuel (p : pattern) (repl : list titem) :
  forall (n : nat) (s : str) (f1 f2 : nat) (before : option char),
    List.length s <= n -> List.length s < f1 -> List.length s < f2 ->
    sub_loop p repl f1 before s = sub_loop p repl f2 before s.
Proof.
  induction n as [|n IH]; intros s f1 f2 before Hn H1 H2;
    (destruct f1 as [|f1]; [lia|]); (destruct f2 as [|f2]; [lia|]);
    cbn [sub_loop].
  - destruct s; [|simpl in Hn; lia].
    destruct (match_at p before []) as [st'|]; [|reflexivity].
    destruct (List.length (rest st') <? List.length (@nil char)) eqn:L;
      [|reflexivity].
    apply Nat.ltb_lt in L. simpl in L. lia.
  - assert (Hcopy :
      match s with
      | [] => []
      | c :: t => c :: sub_loop p repl f1 (Some c) t
      end
      = match s with
        | [] => []
        | c :: t => c :: sub_loop p repl f2 (Some c) t
        end).
    { destruct s as [|c t]; [reflexivity|]. simpl in *. f_equal.
      apply IH; lia. }
    destruct (match_at p before s) as [st'|]; [|exact Hcopy].
    destruct (List.length (rest st') <? List.length s) eqn:L.
    + apply Nat.ltb_lt in L. f_equal. apply IH; lia.
    + f_equal. exact Hcopy.
Qed.

Lemma sub_fuel (p : pattern) (repl : list titem) (s : str) (fuel : nat) :
  List.length s < fuel -> sub_loop p repl fuel None s = sub p repl s.
Proof.
  intros H. unfold sub.
  apply sub_loop_fuel with (n := List.length s); lia.
Qed.

End Fuel.

(* ================================================================== *)
(** * Runs on concrete requests *)
(* ================================================================== *)

Section Runs.

(** C1.  A request in HTML whose correction changes nothing is reported
    with one correction: the count compares the plain text of the
    request with the reassembled HTML. *)
Theorem process_text_html_unchanged_counts_one :
  let texte := lit "<p>Bonjour</p>" in
  texte_brut_of (C := scripted bonjour) texte
  = nettoyer_guillemets (lit "Bonjour")
  /\ fst (process_text (U := latin1_only) (C := scripted bonjour) 1
            {| pb_texte := Some texte; pb_agent := None;
               pb_document_id := None |} empty_world)
     = ok (Processed (lit "<p>Bonjour</p>") (lit "jurifix")
             {| st_processing_time := 100%Z; st_word_count := 1;
                st_corrections_count := 1%Z |}).
Proof. split; vm_compute; reflexivity. Qed.

(** The same text sent as plain text is reported with no correction. *)
Example process_text_plain_unchanged_counts_zero :
  fst (process_text (U := latin1_only) (C := scripted bonjour) 1
         {| pb_texte := Some (lit "Bonjour"); pb_agent := None;
            pb_document_id := None |} empty_world)
  = ok (Processed (lit "Bonjour") (lit "jurifix")
          {| st_processing_time := 100%Z; st_word_count := 1;
             st_corrections_count := 0%Z |}).
Proof. vm_compute; reflexivity. Qed.

(** A process call on an owned document completes the document and
    inserts no history row. *)
Lemma process_text_saves_without_history :
  let run :=
    process_text (U := latin1_only)
      (C := scripted (Reply (Some (lit "Bonjour le monde")))) 1
      {| pb_texte := Some (lit "Bonjour le mond"); pb_agent := None;
         pb_document_id := Some (lit "d1") |} one_document in
  code (fst run) = 200
  /\ map status (documents (snd run)) = [lit "completed"]
  /\ map corrected_content (documents (snd run))
     = [Some (lit "Bonjour le monde")]
  /\ history (snd run) = history one_document
  /\ List.length (history (snd run))
     <> S (List.length (history one_document)).
Proof. repeat split; try (vm_compute; reflexivity). vm_compute. lia. Qed.

Lemma create_and_process_keep_completed_only_witness :
  Forall completed_only (documents one_document)
  /\ Forall completed_only
       (documents
          (snd (handle_documents_post (C := scripted bonjour) 1
                  {| cb_title := None; cb_content := Some (lit "Bonjour");
                     cb_agent := None |} one_document)))
  /\ Forall completed_only
       (documents
          (snd (process_text (U := latin1_only) (C := scripted bonjour) 1
                  {| pb_texte := Some (lit "Bonjou"); pb_agent := None;
                     pb_document_id := Some (lit "d1") |} one_document))).
Proof.
  assert (H : Forall completed_only (documents one_document)).
  { constructor; [|constructor]. intros H. simpl in H. congruence. }
  split; [exact H|].
  exact (create_and_process_keep_completed_only 1 _ _ one_document H).
Defined.

(** Saving a corrected text makes a draft with a corrected content. *)
Lemma save_document_breaks_completed_only :
  let w :=
    snd (save_document (C := scripted bonjour) 1
           {| sb_id := None; sb_title := Some (lit "Lettre");
              sb_content := Some (lit "Bonjou");
              sb_corrected_content := Some (lit "Bonjour");
              sb_agent := None |} empty_world) in
  Forall completed_only (documents empty_world)
  /\ map corrected_content (documents w) = [Some (lit "Bonjour")]
  /\ map status (documents w) = [lit "draft"]
  /\ ~ Forall completed_only (documents w).
Proof.
  repeat split; try (vm_compute; reflexivity); [constructor|].
  intros H. apply Forall_inv in H. unfold completed_only in H.
  simpl in H. specialize (H ltac:(discriminate)). vm_compute in H.
  discriminate.
Qed.

(** A PUT that sets a completed document back to draft keeps its
    corrected content. *)
Example handle_document_put_breaks_completed_only :
  let w := snd (process_text (U := latin1_only) (C := scripted bonjour) 1
                  {| pb_texte := Some (lit "Bonjou"); pb_agent := None;
                     pb_document_id := Some (lit "d1") |} one_document) in
  let w' := snd (handle_document_put (C := scripted bonjour) 1 (lit "d1")
                   {| ub_title := None; ub_content := None;
                      ub_status := Some (lit "draft") |} w) in
  map corrected_content (documents w') = [Some (lit "Bonjour")]
  /\ map status (documents w') = [lit "draft"].
Proof. split; vm_compute; reflexivity. Qed.

(** The token is [[nom]]; and an honorific taken for a name is not
    kept. *)
Lemma anonymiser_texte_not_name_token :
  anonymiser_texte (U := latin1_only) (lit "Madame Durand")
  = lit "Madame [nom]"
  /\ contains (lit "Madame [name]")
       (anonymiser_texte (U := latin1_only) (lit "Madame Durand")) = false
  /\ contains (lit "Madame Durand") (lit "M. Madame Durand") = true
  /\ anonymiser_texte (U := latin1_only) (lit "M. Madame Durand")
     = lit "M. [nom]"
  /\ contains (lit "Madame [nom]")
       (anonymiser_texte (U := latin1_only) (lit "M. Madame Durand"))
     = false.
Proof. repeat split; vm_compute; reflexivity. Qed.

(** Other contexts in which the honorific is not kept: an IBAN-like or
    an email-like text before it. *)
Example anonymiser_texte_honorific_taken :
  anonymiser_texte (U := latin1_only) (lit "FR76 Madame Durand")
  = lit "[IBAN] [nom]"
  /\ anonymiser_texte (U := latin1_only) (lit "a@b.Madame Durand")
     = lit "[email] [nom]".
Proof. split; vm_compute; reflexivity. Qed.

(** A word that follows the name is taken with it, with a capital or
    not, the pattern being compiled with IGNORECASE; a name in capitals
    is taken too. *)
Example anonymiser_texte_takes_next_word :
  anonymiser_texte (U := latin1_only) (lit "Madame Durand est venue")
  = lit "Madame [nom] venue"
  /\ anonymiser_texte (U := latin1_only) (lit "madame DURAND.")
     = lit "madame [nom].".
Proof. split; vm_compute; reflexivity. Qed.

(** C6.  The reassembly does not keep the blocks of the request.  A
    request of one non-empty block with a newline in it, whose
    correction is its own plain text, is answered with two paragraph
    elements; a request of three non-empty blocks, of which the first
    and the last hold a double quote, is answered with one, the
    correction being trimmed and unquoted before it is reassembled. *)
Theorem process_text_reassembly_changes_the_blocks :
  let answer texte :=
    fst (process_text (U := latin1_only)
           (C := scripted
                   (Reply (Some (texte_brut_of (C := scripted bonjour)
                                   texte))))
           1 {| pb_texte := Some texte; pb_agent := None;
                pb_document_id := None |} empty_world) in
  let one := lit "<p>a
b</p>" in
  let three :=
    lit "<p>" ++ dquote :: lit "</p><p>foo</p><p>" ++ dquote :: lit "</p>" in
  (html_mode one = true
   /\ Bs4.count Bs4.non_empty_blocks one = Some 1
   /\ answer one
      = ok (Processed (lit "<p>a</p><p>b</p>") (lit "jurifix")
              {| st_processing_time := 100%Z; st_word_count := 2;
                 st_corrections_count := 1%Z |})
   /\ Bs4.count Bs4.paragraph_elements (lit "<p>a</p><p>b</p>") = Some 2)
  /\ (html_mode three = true
      /\ Bs4.count Bs4.non_empty_blocks three = Some 3
      /\ answer three
         = ok (Processed (lit "<p>foo</p>") (lit "jurifix")
                 {| st_processing_time := 100%Z; st_word_count := 3;
                    st_corrections_count := 2%Z |})
      /\ Bs4.count Bs4.paragraph_elements (lit "<p>foo</p>") = Some 1).
Proof. repeat split; vm_compute; reflexivity. Qed.

(** Inline markup in one block gives a paragraph element per string. *)
Example reassembly_splits_inline_markup :
  let texte := lit "<p>un <b>mot</b> gras</p>" in
  let brut := texte_brut_of (C := scripted bonjour) texte in
  Bs4.count Bs4.non_empty_blocks texte = Some 1
  /\ html_corrige brut = lit "<p>un </p><p>mot</p><p> gras</p>".
Proof. split; vm_compute; reflexivity. Qed.

Lemma anonymiser_texte_idempotent_witness :
  let x := lit "Madame Durand, jean.dupont@example.fr, 0612345678" in
  (forall rule, List.In rule rules ->
     finds (U := latin1_only) (fst rule) None
           (anonymiser_texte (U := latin1_only) x) = false)
  /\ anonymiser_texte (U := latin1_only)
       (anonymiser_texte (U := latin1_only) x)
     = anonymiser_texte (U := latin1_only) x.
Proof.
  intros x.
  assert (H : forall rule, List.In rule rules ->
                finds (U := latin1_only) (fst rule) None
                      (anonymiser_texte (U := latin1_only) x) = false).
  { intros rule [<-|[<-|[<-|[<-|[]]]]]; vm_compute; reflexivity. }
  split; [exact H|].
  exact (proj1 (anonymiser_texte_idempotent (U := latin1_only) x H)).
Defined.

Lemma process_text_unowned_id_ignored_witness :
  let with_id :=
    {| pb_texte := Some (lit "Bonjou"); pb_agent := None;
       pb_document_id := Some (lit "d1") |} in
  let without_id :=
    {| pb_texte := Some (lit "Bonjou"); pb_agent := None;
       pb_document_id := None |} in
  query_first (lit "d1") 2 (documents one_document) = None
  /\ process_text (U := latin1_only) (C := scripted bonjour) 2 with_id
       one_document
     = process_text (U := latin1_only) (C := scripted bonjour) 2 without_id
         one_document
  /\ documents
       (snd (process_text (U := latin1_only) (C := scripted bonjour) 2
               with_id one_document))
     = documents one_document.
Proof.
  intros with_id without_id.
  assert (H : query_first (lit "d1") 2 (documents one_document) = None)
    by reflexivity.
  split; [exact H|].
  exact (process_text_unowned_id_ignored (U := latin1_only)
           (C := scripted bonjour) 2 (Some (lit "Bonjou")) None (lit "d1")
           one_document H).
Defined.

Lemma process_text_unknown_agent_witness :
  let data :=
    {| pb_texte := Some (lit "Bonjour"); pb_agent := Some (lit "inconnu");
       pb_document_id := None |} in
  lookup (get (pb_agent data) (lit "jurifix")) AGENTS = None
  /\ process_text (U := latin1_only) (C := scripted bonjour) 1 data
       one_document
     = (fail 400 (lit "Agent non reconnu"), one_document).
Proof.
  intros data.
  assert (H : lookup (get (pb_agent data) (lit "jurifix")) AGENTS = None)
    by reflexivity.
  split; [exact H|].
  exact (process_text_unknown_agent (U := latin1_only)
           (C := scripted bonjour) 1 data one_document H).
Defined.

(** With a blank text the unknown agent is not what is reported. *)
Lemma process_text_blank_text_unknown_agent :
  let data :=
    {| pb_texte := Some (lit "   "); pb_agent := Some (lit "inconnu");
       pb_document_id := None |} in
  let run := process_text (U := latin1_only) (C := scripted bonjour) 1 data
               empty_world in
  lookup (lit "inconnu") AGENTS = None
  /\ fst run = fail 400 (lit "Texte vide")
  /\ fst run <> fail 400 (lit "Agent non reconnu")
  /\ calls (snd run) = [].
Proof.
  repeat split; try (vm_compute; reflexivity).
  vm_compute. discriminate.
Qed.

End Runs.

(* ================================================================== *)
(** * Blank texts and words *)
(* ================================================================== *)

Section Blank.

Lemma lstrip_blank (s : str) :
  Forall (fun c => isspace c = true) s -> lstrip s = [].
Proof.
  induction 1 as [|c s Hc _ IH]; simpl; [reflexivity|]. now rewrite Hc.
Qed.

Lemma strip_blank (s : str) :
  Forall (fun c => isspace c = true) s -> strip s = [].
Proof.
  intros H. unfold strip, rstrip. rewrite (lstrip_blank s H). reflexivity.
Qed.

Lemma lstrip_nil (s : str) :
  lstrip s = [] -> Forall (fun c => isspace c = true) s.
Proof.
  induction s as [|c s IH]; simpl; [constructor|].
  destruct (isspace c) eqn:E; [|discriminate].
  intros H. constructor; auto.
Qed.

Lemma lstrip_head (s : str) (c : char) (t : str) :
  lstrip s = c :: t -> isspace c = false.
Proof.
  induction s as [|x s IH]; simpl; [discriminate|].
  destruct (isspace x) eqn:E; [exact IH|].
  intros [= <- _]. exact E.
Qed.

(** A text whose trimming is empty is made of whitespace. *)
Lemma strip_nil (s : str) :
  strip s = [] -> Forall (fun c => isspace c = true) s.
Proof.
  unfold strip, rstrip. intros H.
  apply (f_equal (@rev char)) in H. rewrite rev_involutive in H.
  simpl in H. apply lstrip_nil in H.
  destruct (lstrip s) as [|c t] eqn:E; [now apply lstrip_nil|].
  apply lstrip_head in E. apply Forall_rev in H.
  rewrite rev_involutive in H. inversion H; congruence.
Qed.

Lemma split_go_nil (w s : str) :
  split_go w s = [] -> w = [] /\ Forall (fun c => isspace c = true) s.
Proof.
  revert w; induction s as [|c s IH]; intros w; simpl.
  - destruct w; [auto|discriminate].
  - destruct (isspace c) eqn:E.
    + destruct w; [|discriminate]. intros H.
      destruct (IH [] H) as [_ F]. auto.
    + intros H. destruct (IH _ H) as [W _]. discriminate.
Qed.

(** A text that is not blank has a word. *)
Lemma split_not_blank (s : str) :
  truthy (strip s) = true -> 1 <= List.length (split s).
Proof.
  intros H. unfold split.
  destruct (split_go [] s) as [|x l] eqn:E; [|simpl; lia].
  apply split_go_nil in E as [_ F]. rewrite (strip_blank s F) in H.
  discriminate.
Qed.

Lemma contains_absent (c : char) (p s : str) :
  ~ List.In c s -> contains (c :: p) s = false.
Proof.
  induction s as [|x s IH]; intros H; simpl; [reflexivity|].
  destruct (N.eqb_spec c x) as [->|_]; [simpl in H; tauto|].
  simpl. apply IH. simpl in H. tauto.
Qed.

Lemma html_mode_blank (s : str) :
  Forall (fun c => isspace c = true) s -> html_mode s = false.
Proof.
  intros H.
  assert (N : ~ List.In 60%N s).
  { intros I. rewrite Forall_forall in H. apply H in I. discriminate. }
  unfold html_mode.
  change (lit "<p>") with (60%N :: lit "p>").
  change (lit "<div>") with (60%N :: lit "div>").
  now rewrite !contains_absent.
Qed.

End Blank.

(* ================================================================== *)
(** * More on [process_text] *)
(* ================================================================== *)

Section ProcessFacts.
Context {U : Unicode} {C : Collaborators}.

(** X1.  A request whose text is absent, empty or made of whitespace
    only is refused with status 400 and "Texte vide", whatever the
    agent and the document id; no completion call is made and the
    state is left as it was. *)
Theorem process_text_blank_refused
    (current_user : nat) (data : process_body) (w : World) :
  Forall (fun c => isspace c = true) (get (pb_texte data) []) ->
  process_text current_user data w = (fail 400 (lit "Texte vide"), w).
Proof.
  intros H. unfold process_text, texte_brut_of.
  rewrite (html_mode_blank _ H), (strip_blank _ H). reflexivity.
Qed.

Lemma update_first_process_frame (i : str) (u : nat)
    (f : Document -> Document) (ds : list Document) :
  (forall d, owned i u d = true -> process_frame u d (f d)) ->
  Forall2 (process_frame u) ds (update_first i u f ds).
Proof.
  assert (R : forall d, process_frame u d d)
    by (intros d; unfold process_frame; tauto).
  intros Hf. induction ds as [|d ds IH]; simpl; [constructor|].
  destruct (owned i u d) eqn:O.
  - constructor; [now apply Hf|].
    clear IH. induction ds; constructor; auto.
  - constructor; auto.
Qed.

Lemma Forall2_same {A} (R : A -> A -> Prop) (l : list A) :
  (forall a, R a a) -> Forall2 R l l.
Proof. intros H. induction l; constructor; auto. Qed.

(** X2.  A process call changes no row but rows of the requesting
    user, and of a row neither the id, the title, the agent, the owner,
    the creation time nor the sharing fields; a row that it changes is
    completed and has a corrected content.  No row is added or
    removed. *)
Theorem process_text_frame
    (current_user : nat) (data : process_body) (w : World) :
  Forall2 (process_frame current_user) (documents w)
    (documents (snd (process_text current_user data w))).
Proof.
  assert (R : Forall2 (process_frame current_user)
                (documents w) (documents w)).
  { apply Forall2_same. intros d; unfold process_frame; tauto. }
  unfold process_text.
  destruct (truthy (strip _)); cbn [negb]; [|exact R].
  destruct (lookup _ AGENTS); [|exact R].
  destruct (create _) as [[contenu|]|e]; try exact R.
  cbn [snd]. destruct (pb_document_id data) as [i|]; [|exact R].
  destruct (truthy i); [|exact R].
  cbn [documents tick record_call].
  destruct (query_first i current_user (documents w)); [|exact R].
  destruct (onupdate _ _); cbn [documents set_documents tick record_call];
    apply update_first_process_frame; intros d0 O;
    unfold owned in O; apply andb_true_iff in O as [_ O];
    apply Nat.eqb_eq in O;
    unfold committed; destruct (onupdate _ _);
    unfold process_frame; cbn; (repeat split; auto);
    right; (repeat split; auto); discriminate.
Qed.

(** X3.  A process call makes at most one completion call, and none
    when it answers 400; when it does not answer 200, every row of the
    table is left as it was. *)
Theorem process_text_calls
    (current_user : nat) (data : process_body) (w : World) :
  let run := process_text current_user data w in
  (calls (snd run) = calls w \/ exists r, calls (snd run) = r :: calls w)
  /\ (code (fst run) = 400 -> calls (snd run) = calls w)
  /\ (code (fst run) <> 200 -> documents (snd run) = documents w).
Proof.
  unfold process_text.
  destruct (truthy (strip _)); cbn [negb].
  2:{ cbn. repeat split; auto. }
  destruct (lookup _ AGENTS).
  2:{ cbn. repeat split; auto. }
  destruct (create _) as [[contenu|]|e].
  - cbn [fst snd code ok]. split; [|split; intros H; [discriminate|congruence]].
    right. eexists.
    destruct (pb_document_id data) as [i|]; [|reflexivity].
    destruct (truthy i); [|reflexivity].
    cbn [documents tick record_call].
    destruct (query_first i current_user _); [|reflexivity].
    destruct (onupdate _ _); reflexivity.
  - cbn. split; [right; eauto|]. split; [discriminate|reflexivity].
  - cbn. split; [right; eauto|]. split; [discriminate|reflexivity].
Qed.

Lemma query_first_update (i : str) (u : nat) (f : Document -> Document)
    (ds : list Document) (d : Document) :
  query_first i u ds = Some d -> owned i u (f d) = true ->
  query_first i u (update_first i u f ds) = Some (f d).
Proof.
  unfold query_first. intros H O.
  induction ds as [|x ds IH]; simpl in *; [discriminate|].
  destruct (owned i u x) eqn:E.
  - injection H as ->. simpl. now rewrite O.
  - simpl. rewrite E. auto.
Qed.

(** X4.  When a process call with the id of a document of the
    requesting user answers 200, the document then read under that id
    holds the text of the request, the corrected text of the answer,
    the status ['completed'], the word count and the count of
    corrections of the answer, and the elapsed time as it was measured,
    of which the answer gives the seconds rounded to two decimals; its
    title and its agent are those it had.  Its time of update is the
    reading of the clock at the assignment, or the next reading when
    the time assigned is the one that the row had. *)
Theorem process_text_stores_the_answer
    (current_user : nat) (data : process_body) (w : World)
    (i : str) (d : Document) (resultat agent_name : str) (st : stats) :
  pb_document_id data = Some i -> truthy i = true ->
  query_first i current_user (documents w) = Some d ->
  fst (process_text current_user data w)
  = ok (Processed resultat agent_name st) ->
  exists d',
    query_first i current_user
      (documents (snd (process_text current_user data w))) = Some d'
    /\ content d' = get (pb_texte data) []
    /\ corrected_content d' = Some resultat
    /\ status d' = lit "completed"
    /\ word_count d' = st_word_count st
    /\ corrections_count d' = st_corrections_count st
    /\ processing_time d' = (utcnow (S (ticks w)) - utcnow (ticks w))%Z
    /\ st_processing_time st = round2 (total_seconds (processing_time d'))
    /\ title d' = title d /\ agent_used d' = agent_used d
    /\ (updated_at d' = utcnow (S (S (ticks w)))
        \/ updated_at d = utcnow (S (S (ticks w)))
           /\ updated_at d' = utcnow (S (S (S (ticks w))))).
Proof.
  intros Hi Ht Hq. unfold process_text.
  destruct (truthy (strip _)); cbn [negb]; [|discriminate].
  destruct (lookup _ AGENTS); [|discriminate].
  destruct (create _) as [[contenu|]|e]; try discriminate.
  cbn [fst snd]. rewrite Hi, Ht.
  cbn [documents tick record_call]. rewrite Hq.
  intros [= <- <- <-].
  assert (O : owned i current_user d = true).
  { unfold query_first in Hq. apply find_some in Hq as [_ O]. exact O. }
  match goal with
  | |- context [update_first i current_user ?f _] => set (F := f)
  end.
  assert (E : exists d', query_first i current_user
                (update_first i current_user F (documents w)) = Some d'
              /\ F d = d').
  { eexists. split; [|reflexivity].
    apply query_first_update; [exact Hq|].
    unfold F, committed. destruct (onupdate _ _); exact O. }
  destruct E as (d' & Q & E). exists d'. split.
  - destruct (onupdate _ _); exact Q.
  - subst d'. unfold F, committed.
    destruct (onupdate _ _) eqn:G; cbn; repeat split; auto.
    right. split; [|reflexivity].
    unfold onupdate in G. apply andb_true_iff in G as [G _].
    apply Z.eqb_eq in G. cbn in G. symmetry. exact G.
Qed.

(** X5.  In an answer 200 of a process call the word count is at
    least 1, the count of corrections is not negative, and it is 0
    exactly when the returned text is the plain text of the request. *)
Theorem process_text_statistics
    (current_user : nat) (data : process_body) (w : World)
    (resultat agent_name : str) (st : stats) :
  fst (process_text current_user data w)
  = ok (Processed resultat agent_name st) ->
  1 <= st_word_count st
  /\ (0 <= st_corrections_count st)%Z
  /\ (st_corrections_count st = 0%Z
      <-> texte_brut_of (get (pb_texte data) []) = resultat).
Proof.
  unfold process_text.
  destruct (truthy (strip _)) eqn:B; cbn [negb]; [|discriminate].
  destruct (lookup _ AGENTS); [|discriminate].
  destruct (create _) as [[contenu|]|e]; try discriminate.
  cbn [fst]. intros [= <- <- <-]. cbn.
  split; [now apply split_not_blank|]. split.
  - unfold compter_corrections. destruct (Py.eqb _ _); lia.
  - apply compter_corrections_zero.
Qed.

End ProcessFacts.

(* ================================================================== *)
(** * The clean-up of the reply and the reassembly, further *)
(* ================================================================== *)

Section CleanUp.

Lemma lstrip_suffix (s : str) :
  exists a, s = a ++ lstrip s /\ Forall (fun c => isspace c = true) a.
Proof.
  induction s as [|c s (a & E & F)]; simpl.
  - exists []. split; [reflexivity|constructor].
  - destruct (isspace c) eqn:S.
    + exists (c :: a). split; [simpl; congruence|now constructor].
    + exists []. split; [reflexivity|constructor].
Qed.

Lemma rstrip_prefix (s : str) :
  exists b, s = rstrip s ++ b /\ Forall (fun c => isspace c = true) b.
Proof.
  unfold rstrip. destruct (lstrip_suffix (rev s)) as (a & E & F).
  exists (rev a). split; [|now apply Forall_rev].
  rewrite <- rev_app_distr, <- E. symmetry; apply rev_involutive.
Qed.

Lemma unquoted_ends (q : char) (s t : str) :
  unquoted q s t ->
  exists a b, s = a ++ t ++ b
              /\ Forall (fun c => c = q) a /\ Forall (fun c => c = q) b.
Proof.
  intros [m| |s' _].
  - exists [q], [q]. repeat split; auto.
  - exists [q], []. repeat split; auto.
  - exists [], []. rewrite app_nil_r. repeat split; auto.
Qed.

(** X6.  The cleaned reply is a stretch of the reply: what the
    clean-up removes stands at the two ends of the reply and is made of
    whitespace and quote characters only. *)
Theorem nettoyer_guillemets_stretch (contenu : str) :
  exists a b,
    contenu = a ++ nettoyer_guillemets contenu ++ b
    /\ Forall (fun c => isspace c = true \/ c = dquote \/ c = squote) a
    /\ Forall (fun c => isspace c = true \/ c = dquote \/ c = squote) b.
Proof.
  destruct (lstrip_suffix contenu) as (a1 & E1 & F1).
  destruct (rstrip_prefix (lstrip contenu)) as (b1 & E2 & G1).
  fold (strip contenu) in E2.
  destruct (unquoted_ends _ _ _
              (strip_quotes_unquoted dquote (strip contenu)))
    as (a2 & b2 & E3 & F2 & G2).
  destruct (unquoted_ends _ _ _
              (strip_quotes_unquoted squote
                 (strip_quotes dquote (strip contenu))))
    as (a3 & b3 & E4 & F3 & G3).
  fold (nettoyer_guillemets contenu) in E4.
  exists (a1 ++ a2 ++ a3), (b3 ++ b2 ++ b1). split; [|split].
  - rewrite E1 at 1. rewrite E2 at 1. rewrite E3 at 1. rewrite E4 at 1.
    rewrite <- !app_assoc. reflexivity.
  - repeat (apply Forall_app; split);
      (eapply Forall_impl; [|eassumption]); cbv beta; auto.
  - repeat (apply Forall_app; split);
      (eapply Forall_impl; [|eassumption]); cbv beta; auto.
Qed.

Lemma split_on_cat (sep : char) (a b : str) :
  split_on sep (a ++ sep :: b) = split_on sep a ++ split_on sep b.
Proof.
  induction a as [|c a IH]; simpl.
  - rewrite N.eqb_refl. reflexivity.
  - destruct (c =? sep)%N; [now rewrite IH|].
    rewrite IH. destruct (split_on sep a) as [|h r] eqn:E; [|reflexivity].
    destruct a; simpl in E; [discriminate|].
    destruct (_ =? sep)%N; [discriminate|].
    destruct (split_on sep a); discriminate.
Qed.

Lemma split_on_pieces (sep : char) (s p : str) :
  List.In p (split_on sep s) ->
  ~ List.In sep p /\ forall c, List.In c p -> List.In c s.
Proof.
  revert p; induction s as [|c s IH]; intros p H; simpl in H.
  - destruct H as [<-|[]]. split; [intros []|intros ? []].
  - destruct (N.eqb_spec c sep) as [->|N].
    + destruct H as [<-|H]; [split; [intros []|intros ? []]|].
      destruct (IH p H) as [A B]. split; [exact A|].
      intros x Hx. right. auto.
    + destruct (split_on sep s) as [|h r] eqn:E.
      * destruct H as [<-|[]]. split; [|intros x [<-|[]]; now left].
        intros [E'|[]]. congruence.
      * destruct H as [<-|H].
        -- destruct (IH h (or_introl eq_refl)) as [A B]. split.
           ++ intros [E'|I]; [congruence|tauto].
           ++ intros x [<-|Hx]; [now left|right; auto].
        -- destruct (IH p (or_intror H)) as [A B]. split; [exact A|].
           intros x Hx. right. auto.
Qed.

(** X7.  The reassembly works line by line: the HTML of two texts
    joined by a newline is the HTML of the first followed by the HTML
    of the second; each of its paragraphs holds a line that is not
    blank and has no newline in it; and a text made of whitespace
    gives no paragraph. *)
Theorem html_corrige_by_lines (a b : str) :
  html_corrige (a ++ newline :: b) = html_corrige a ++ html_corrige b
  /\ (forall p, List.In p (paragraphes_corriges a) ->
                truthy (strip p) = true /\ ~ List.In newline p)
  /\ (Forall (fun c => isspace c = true) a -> html_corrige a = []).
Proof.
  split; [|split].
  - unfold html_corrige, paragraphes_corriges.
    rewrite split_on_cat, filter_app, flat_map_app. reflexivity.
  - unfold paragraphes_corriges. intros p H.
    apply filter_In in H as [H T]. split; [exact T|].
    now apply (split_on_pieces newline a p).
  - intros H. unfold html_corrige, paragraphes_corriges.
    rewrite filter_ext_in with (g := fun _ => false).
    + now rewrite filter_false.
    + intros p Hp. destruct (split_on_pieces newline a p Hp) as [_ I].
      rewrite strip_blank; [reflexivity|].
      rewrite Forall_forall in *. auto.
Qed.

End CleanUp.

(* ================================================================== *)
(** * Texts that the anonymiser leaves alone *)
(* ================================================================== *)

Section Untouched.
Context {U : Unicode}.

(** Nothing is found in a text none of whose ends has a match. *)
Lemma finds_nowhere (p : pattern) (s : str) :
  forall before,
    (forall b l s', s = l ++ s' ->
       ms (ignorecase p) (re p) {| prev := b; rest := s'; groups := [] |}
       = []) ->
    finds p before s = false.
Proof.
  induction s as [|c s IH]; intros before H; simpl.
  - rewrite (proj2 (match_at_None p before [])); [reflexivity|].
    apply (H before [] []). reflexivity.
  - rewrite (proj2 (match_at_None p before (c :: s)));
      [|apply (H before [] (c :: s)); reflexivity].
    apply IH. intros b l s' ->. apply (H b (c :: l) s'). reflexivity.
Qed.

Lemma Forall_end {A} (P : A -> Prop) (l s' : list A) :
  Forall P (l ++ s') -> Forall P s'.
Proof. intros H. now apply Forall_app in H. Qed.

(** A rule has no match in a text without a character that it has to
    read. *)
Lemma rule_needs (rule : pattern * list titem) (s : str) (b : option char) :
  List.In rule rules -> Forall (fun c => required c = false) s ->
  ms (ignorecase (fst rule)) (re (fst rule))
     {| prev := b; rest := s; groups := [] |} = [].
Proof.
  intros Hr F. destruct (ms _ _ _) as [|st' l] eqn:E; [reflexivity|exfalso].
  assert (M : List.In st'
                (ms (ignorecase (fst rule)) (re (fst rule))
                    {| prev := b; rest := s; groups := [] |}))
    by (rewrite E; now left).
  destruct (rule_match _ _ Hr M) as (w & R & X & _). cbn [rest] in R.
  rewrite R in F. apply Forall_app in F as [F _].
  apply Exists_exists in X as (c & Hc & Rc).
  rewrite Forall_forall in F. rewrite (F c Hc) in Rc. discriminate.
Qed.

Lemma later_rule_needs (rule : pattern * list titem) (s : str)
    (b : option char) :
  List.In rule (tl rules) -> Forall (fun c => mark c = false) s ->
  ms (ignorecase (fst rule)) (re (fst rule))
     {| prev := b; rest := s; groups := [] |} = [].
Proof.
  intros Hr F. destruct (ms _ _ _) as [|st' l] eqn:E; [reflexivity|exfalso].
  assert (M : List.In st'
                (ms (ignorecase (fst rule)) (re (fst rule))
                    {| prev := b; rest := s; groups := [] |}))
    by (rewrite E; now left).
  destruct (later_rule_match rule _ _ Hr M) as (w & R & X & _).
  cbn [rest] in R. rewrite R in F. apply Forall_app in F as [F _].
  apply Exists_exists in X as (c & Hc & Rc).
  rewrite Forall_forall in F. rewrite (F c Hc) in Rc. discriminate.
Qed.

(** X8.  A text that holds neither [@] nor digit, and either no
    whitespace or no letter m in either case, is left as it is by the
    redaction: a single word is, and so is a sentence without m, [@]
    and digit. *)
Theorem anonymiser_texte_untouched (x : str) :
  Forall (fun c => mark c = false) x ->
  Forall (fun c => isspace c = false) x
  \/ Forall (fun c => lower c <> 109%N) x ->
  anonymiser_texte x = x.
Proof.
  intros Hm Hx.
  assert (N1 : finds re_nom None x = false).
  { apply finds_nowhere. intros b l s' ->.
    apply Forall_end in Hm. destruct Hx as [Hs|Hl].
    - apply (rule_needs (re_nom, repl_nom)); [simpl; auto|].
      apply Forall_end in Hs. rewrite Forall_forall in *.
      intros c Hc. unfold required. generalize (Hm c Hc).
      unfold mark. rewrite (Hs c Hc).
      destruct (c =? 64)%N; simpl; auto.
    - apply nom_needs_m. cbn [rest]. intros c t ->.
      apply Forall_end in Hl. now inversion Hl. }
  assert (N2 : forall rule, List.In rule (tl rules) ->
                 finds (fst rule) None x = false).
  { intros rule Hr. apply finds_nowhere. intros b l s' ->.
    apply later_rule_needs; [exact Hr|]. now apply Forall_end in Hm. }
  unfold anonymiser_texte. cbv zeta.
  rewrite (sub_no_match re_nom repl_nom x N1).
  rewrite (sub_no_match re_email repl_email x
             (N2 (re_email, repl_email) ltac:(simpl; auto))).
  rewrite (sub_no_match re_telephone repl_telephone x
             (N2 (re_telephone, repl_telephone) ltac:(simpl; auto))).
  apply (sub_no_match re_iban repl_iban x
           (N2 (re_iban, repl_iban) ltac:(simpl; auto))).
Qed.

End Untouched.

(* ================================================================== *)
(** * The document store *)
(* ================================================================== *)

Section StoreFacts.
Context {U : Unicode} {C : Collaborators}.

Lemma owned_spec (i : str) (u : nat) (d : Document) :
  owned i u d = true <-> id d = i /\ user_id d = u.
Proof.
  unfold owned. rewrite andb_true_iff, Nat.eqb_eq.
  destruct (eqb_spec (id d) i); intuition congruence.
Qed.

Lemma query_first_owned (i : str) (u : nat) (ds : list Document)
    (d : Document) :
  query_first i u ds = Some d -> List.In d ds /\ id d = i /\ user_id d = u.
Proof.
  unfold query_first. intros H. apply find_some in H as [H O].
  apply owned_spec in O. tauto.
Qed.

Lemma query_first_foreign (i : str) (u : nat) (ds : list Document) :
  Forall (fun d => id d = i -> user_id d <> u) ds ->
  query_first i u ds = None.
Proof.
  unfold query_first. induction 1 as [|d ds Hd _ IH]; simpl; [reflexivity|].
  destruct (owned i u d) eqn:O; [|exact IH].
  apply owned_spec in O as [Hi Hu]. now elim (Hd Hi).
Qed.

(** ** The commit of an update *)

Lemma documents_commit (b : bool) (w : World) :
  documents (if b then tick w else w) = documents w.
Proof. now destruct b. Qed.

Lemma committed_id (later : Z) (d d' : Document) :
  id (committed later d d') = id d'.
Proof. unfold committed. now destruct (onupdate d d'). Qed.

Lemma committed_user_id (later : Z) (d d' : Document) :
  user_id (committed later d d') = user_id d'.
Proof. unfold committed. now destruct (onupdate d d'). Qed.

Lemma eqb_opt_refl (a : option str) : eqb_opt a a = true.
Proof. destruct a; [apply eqb_refl|reflexivity]. Qed.

Lemma float_eqb_refl (x : float) : float_eqb x x = true.
Proof. unfold float_eqb. now rewrite !Z.eqb_refl. Qed.

(** Of the columns that a save and a PUT assign, the statement sets
    those whose value changes. *)
Lemma same_columns_assigned (d : Document) (t c s : str) (k : option str)
    (now : Z) :
  same_columns d
    {| id := id d; title := t; content := c; corrected_content := k;
       agent_used := agent_used d; user_id := user_id d;
       created_at := created_at d; updated_at := now; status := s;
       word_count := word_count d;
       corrections_count := corrections_count d;
       processing_time := processing_time d;
       shared_with := shared_with d; visibility := visibility d;
       html_structure := html_structure d |}
  = Py.eqb (title d) t && Py.eqb (content d) c
    && eqb_opt (corrected_content d) k && Py.eqb (status d) s.
Proof.
  unfold same_columns. cbn.
  rewrite !eqb_refl, !Nat.eqb_refl, !Z.eqb_refl, float_eqb_refl,
    !eqb_opt_refl.
  destruct (Py.eqb (title d) t), (Py.eqb (content d) c),
    (eqb_opt (corrected_content d) k), (Py.eqb (status d) s); reflexivity.
Qed.

(** ** Rows of the other users *)

Lemma of_others_update_first (i : str) (u : nat)
    (f : Document -> Document) (ds : list Document) :
  (forall d, user_id (f d) = user_id d) ->
  of_others u (update_first i u f ds) = of_others u ds.
Proof.
  intros Hf. unfold of_others.
  induction ds as [|d ds IH]; simpl; [reflexivity|].
  destruct (owned i u d) eqn:O; simpl.
  - rewrite Hf. apply owned_spec in O as [_ ->].
    now rewrite Nat.eqb_refl.
  - now rewrite IH.
Qed.

Lemma of_others_delete_first (i : str) (u : nat) (ds : list Document) :
  of_others u (delete_first i u ds) = of_others u ds.
Proof.
  unfold of_others. induction ds as [|d ds IH]; simpl; [reflexivity|].
  destruct (owned i u d) eqn:O; simpl.
  - apply owned_spec in O as [_ ->]. now rewrite Nat.eqb_refl.
  - now rewrite IH.
Qed.

Lemma of_others_new (u : nat) (ds : list Document) (d : Document) :
  user_id d = u -> of_others u (ds ++ [d]) = of_others u ds.
Proof.
  intros <-. unfold of_others. rewrite filter_app. simpl.
  rewrite Nat.eqb_refl. simpl. apply app_nil_r.
Qed.

(** X9.  No handler run for a user touches a row of another user: a
    process call, a save, a creation, a PUT and a DELETE leave the rows
    of the other users as they were, in the same order. *)
Theorem handlers_keep_the_rows_of_others
    (current_user : nat) (w : World) (pb : process_body) (sb : save_body)
    (cb : create_body) (i : str) (ub : put_body) :
  of_others current_user
    (documents (snd (process_text current_user pb w)))
  = of_others current_user (documents w)
  /\ of_others current_user
       (documents (snd (save_document current_user sb w)))
     = of_others current_user (documents w)
  /\ of_others current_user
       (documents (snd (handle_documents_post current_user cb w)))
     = of_others current_user (documents w)
  /\ of_others current_user
       (documents (snd (handle_document_put current_user i ub w)))
     = of_others current_user (documents w)
  /\ of_others current_user
       (documents (snd (handle_document_delete current_user i w)))
     = of_others current_user (documents w).
Proof.
  split; [|split; [|split; [|split]]].
  - unfold process_text.
    destruct (truthy (strip _)); cbn [negb]; [|reflexivity].
    destruct (lookup _ AGENTS); [|reflexivity].
    destruct (create _) as [[contenu|]|e]; try reflexivity.
    cbn [snd]. destruct (pb_document_id pb) as [j|]; [|reflexivity].
    destruct (truthy j); [|reflexivity].
    cbn [documents tick record_call].
    destruct (query_first j current_user (documents w)); [|reflexivity].
    rewrite documents_commit.
    cbn [documents set_documents tick record_call].
    apply of_others_update_first. intros d0.
      now rewrite committed_user_id.
  - unfold save_document.
    destruct (truthy (get (sb_id sb) [])).
    + destruct (query_first _ current_user (documents w)); [|reflexivity].
      cbn [snd]. rewrite documents_commit.
      cbn [documents set_documents tick].
      apply of_others_update_first. intros d0.
      now rewrite committed_user_id.
    + cbn [snd documents set_documents tick draw].
      now apply of_others_new.
  - unfold handle_documents_post.
    cbn [snd documents set_documents tick draw]. now apply of_others_new.
  - unfold handle_document_put.
    destruct (query_first i current_user (documents w)); [|reflexivity].
    cbn [snd]. rewrite documents_commit.
    cbn [documents set_documents tick].
    apply of_others_update_first. intros d0.
      now rewrite committed_user_id.
  - unfold handle_document_delete.
    destruct (query_first i current_user (documents w)); [|reflexivity].
    cbn [snd documents set_documents]. apply of_others_delete_first.
Qed.

(** X10.  A document that the user does not own is not found: when no
    row with the id belongs to the user, GET, PUT and DELETE answer 404
    and a save with this id, not empty, answers 404 with its own
    message; none of them changes the state. *)
Theorem foreign_document_is_not_found
    (current_user : nat) (i : str) (w : World) (ub : put_body)
    (sb : save_body) :
  Forall (fun d => id d = i -> user_id d <> current_user) (documents w) ->
  handle_document_get current_user i w = inl not_found
  /\ handle_document_put current_user i ub w = (not_found, w)
  /\ handle_document_delete current_user i w = (not_found, w)
  /\ (sb_id sb = Some i -> truthy i = true ->
      save_document current_user sb w
      = (fail 404 (lit "Document non trouvé"), w)).
Proof.
  intros H. apply query_first_foreign in H.
  unfold handle_document_get, handle_document_put, handle_document_delete,
    save_document.
  rewrite H. split; [reflexivity|split; [reflexivity|split; [reflexivity|]]].
  intros -> T. cbn [get]. rewrite T, H. reflexivity.
Qed.

(** ** Reading back what was written *)

Lemma owned_other (i j : str) (u v : nat) (d : Document) :
  owned i u d = true -> j <> i \/ v <> u -> owned j v d = false.
Proof.
  intros O H. apply owned_spec in O as [Hi Hu].
  destruct (owned j v d) eqn:E; [|reflexivity].
  apply owned_spec in E as [Hj Hv]. destruct H; congruence.
Qed.

Lemma query_first_new (i : str) (ds : list Document) (d : Document) :
  Forall (fun x => id x <> i) ds -> id d = i ->
  query_first i (user_id d) (ds ++ [d]) = Some d
  /\ (forall v, v <> user_id d -> query_first i v (ds ++ [d]) = None).
Proof.
  intros F Hd. unfold query_first.
  induction F as [|x ds Hx _ IH]; simpl.
  - split.
    + rewrite (proj2 (owned_spec i (user_id d) d)); auto.
    + intros v Hv. destruct (owned i v d) eqn:O; [|reflexivity].
      apply owned_spec in O as [_ O]. congruence.
  - assert (O : forall v, owned i v x = false).
    { intros v. destruct (owned i v x) eqn:O; [|reflexivity].
      apply owned_spec in O as [O _]. contradiction. }
    rewrite O. split; [tauto|]. intros v Hv. rewrite O. now apply IH.
Qed.

Lemma query_first_app_other (j : str) (v : nat) (ds : list Document)
    (d : Document) :
  id d <> j -> query_first j v (ds ++ [d]) = query_first j v ds.
Proof.
  intros Hd. unfold query_first.
  induction ds as [|x ds IH]; simpl.
  - destruct (owned j v d) eqn:O; [|reflexivity].
    apply owned_spec in O as [O _]. contradiction.
  - now rewrite IH.
Qed.

Lemma query_first_update_other (i j : str) (u v : nat)
    (f : Document -> Document) (ds : list Document) :
  (forall d, id (f d) = id d) -> (forall d, user_id (f d) = user_id d) ->
  j <> i \/ v <> u ->
  query_first j v (update_first i u f ds) = query_first j v ds.
Proof.
  intros Hi Hu H. unfold query_first.
  induction ds as [|d ds IH]; simpl; [reflexivity|].
  destruct (owned i u d) eqn:O; simpl.
  - rewrite (owned_other i j u v d O H).
    replace (owned j v (f d)) with (owned j v d)
      by (unfold owned; now rewrite Hi, Hu).
    now rewrite (owned_other i j u v d O H).
  - now rewrite IH.
Qed.

Lemma query_first_delete_other (i j : str) (u v : nat)
    (ds : list Document) :
  j <> i \/ v <> u ->
  query_first j v (delete_first i u ds) = query_first j v ds.
Proof.
  intros H. unfold query_first.
  induction ds as [|d ds IH]; simpl; [reflexivity|].
  destruct (owned i u d) eqn:O; simpl.
  - now rewrite (owned_other i j u v d O H).
  - now rewrite IH.
Qed.

Lemma query_first_delete (i : str) (u : nat) (ds : list Document) :
  NoDup (map id ds) -> query_first i u (delete_first i u ds) = None.
Proof.
  unfold query_first. induction ds as [|d ds IH]; simpl; intros N;
    [reflexivity|].
  inversion N as [|? ? Hd N']; subst.
  destruct (owned i u d) eqn:O; simpl.
  - apply owned_spec in O as [<- _].
    apply (query_first_foreign (id d) u ds).
    apply Forall_forall. intros x Hx E. elim Hd.
    rewrite <- E. now apply in_map.
  - rewrite O. now apply IH.
Qed.

Lemma delete_first_length (i : str) (u : nat) (ds : list Document)
    (d : Document) :
  query_first i u ds = Some d ->
  S (List.length (delete_first i u ds)) = List.length ds.
Proof.
  unfold query_first. induction ds as [|x ds IH]; simpl; [discriminate|].
  destruct (owned i u x); simpl; [reflexivity|].
  intros H. now rewrite IH.
Qed.

(** X11.  A document created through [handle_documents] is served
    back: when the id drawn is not that of a row of the table, a GET of
    the returned id by the same user shows the title, the content and
    the agent of the request, or their defaults, a draft status, a null
    corrected content and statistics at zero; another user gets 404 for
    this id, and what a GET of another id answers does not change. *)
Theorem created_document_is_served
    (current_user : nat) (cb : create_body) (w : World) :
  Forall (fun d => id d <> uuid4 (draws w)) (documents w) ->
  fst (handle_documents_post current_user cb w)
  = ok (Saved (uuid4 (draws w)) (lit "Document créé avec succès"))
  /\ handle_document_get current_user (uuid4 (draws w))
       (snd (handle_documents_post current_user cb w))
     = inr {| v_id := uuid4 (draws w);
              v_title :=
                get (cb_title cb)
                    (lit "Document du " ++ now_strftime (lit "%d/%m/%Y"));
              v_content := get (cb_content cb) [];
              v_corrected_content := None;
              v_agent_used := get (cb_agent cb) (lit "jurifix");
              v_status := lit "draft";
              v_created_at := utcnow (ticks w);
              v_updated_at := utcnow (S (ticks w));
              v_word_count := 0;
              v_corrections_count := 0%Z;
              v_processing_time := 0%Z |}
  /\ (forall v, v <> current_user ->
        handle_document_get v (uuid4 (draws w))
          (snd (handle_documents_post current_user cb w))
        = inl not_found)
  /\ (forall v j, j <> uuid4 (draws w) ->
        handle_document_get v j
          (snd (handle_documents_post current_user cb w))
        = handle_document_get v j w).
Proof.
  intros F. split; [reflexivity|].
  unfold handle_document_get, handle_documents_post.
  cbn [snd documents set_documents tick draw draws ticks].
  match goal with
  | |- context [documents w ++ [?d]] => set (doc := d)
  end.
  destruct (query_first_new (uuid4 (draws w)) (documents w) doc F eq_refl)
    as [Q1 Q2].
  change (user_id doc) with current_user in Q1, Q2.
  split; [now rewrite Q1|]. split.
  - intros v Hv. now rewrite (Q2 v Hv).
  - intros v j Hj. rewrite query_first_app_other; [reflexivity|].
    intros E. apply Hj. now rewrite <- E.
Qed.

(** X12.  A save without an id, or with an empty one, adds a document
    that is served back: under the same condition on the id drawn, a
    GET of the returned id shows the fields of the request or their
    defaults and a draft status; the corrected content is the one sent,
    and is the empty string, not null, when none was sent. *)
Theorem saved_new_document_is_served
    (current_user : nat) (sb : save_body) (w : World) :
  truthy (get (sb_id sb) []) = false ->
  Forall (fun d => id d <> uuid4 (draws w)) (documents w) ->
  fst (save_document current_user sb w)
  = ok (Saved (uuid4 (draws w)) (lit "Document sauvegardé"))
  /\ handle_document_get current_user (uuid4 (draws w))
       (snd (save_document current_user sb w))
     = inr {| v_id := uuid4 (draws w);
              v_title :=
                get (sb_title sb)
                    (lit "Document du "
                     ++ now_strftime (lit "%d/%m/%Y %H:%M"));
              v_content := get (sb_content sb) [];
              v_corrected_content :=
                Some (get (sb_corrected_content sb) []);
              v_agent_used := get (sb_agent sb) (lit "jurifix");
              v_status := lit "draft";
              v_created_at := utcnow (ticks w);
              v_updated_at := utcnow (S (ticks w));
              v_word_count := 0;
              v_corrections_count := 0%Z;
              v_processing_time := 0%Z |}
  /\ (forall v j, j <> uuid4 (draws w) ->
        handle_document_get v j (snd (save_document current_user sb w))
        = handle_document_get v j w).
Proof.
  intros T F. unfold handle_document_get, save_document. rewrite T.
  split; [reflexivity|].
  cbn [snd documents set_documents tick draw draws ticks].
  match goal with
  | |- context [documents w ++ [?d]] => set (doc := d)
  end.
  destruct (query_first_new (uuid4 (draws w)) (documents w) doc F eq_refl)
    as [Q1 _].
  change (user_id doc) with current_user in Q1.
  split; [now rewrite Q1|].
  intros v j Hj. rewrite query_first_app_other; [reflexivity|].
  intros E. apply Hj. now rewrite <- E.
Qed.

(** X13.  A save with the id of a document of the user overwrites it
    and the document is served back: the title, the content and the
    corrected content are those of the request, and when the request
    does not hold them they are replaced by the defaults (a dated
    title, empty strings), not kept; the agent of the request is
    ignored, and the agent, the status, the creation time and the
    statistics of the document are kept.  The time of update is the
    reading of the clock at the assignment, unless this reading is the
    time that the document had while the title, the content or the
    corrected content changes: the time is then the next reading, made
    for the column at the commit.  What a GET of another id, or by
    another user, answers does not change. *)
Theorem saved_document_is_served
    (current_user : nat) (sb : save_body) (w : World) (i : str)
    (d : Document) :
  sb_id sb = Some i -> truthy i = true ->
  query_first i current_user (documents w) = Some d ->
  fst (save_document current_user sb w)
  = ok (Saved i (lit "Document sauvegardé"))
  /\ handle_document_get current_user i
       (snd (save_document current_user sb w))
     = inr {| v_id := i;
              v_title :=
                get (sb_title sb)
                    (lit "Document du "
                     ++ now_strftime (lit "%d/%m/%Y %H:%M"));
              v_content := get (sb_content sb) [];
              v_corrected_content :=
                Some (get (sb_corrected_content sb) []);
              v_agent_used := agent_used d;
              v_status := status d;
              v_created_at := created_at d;
              v_updated_at :=
                if (utcnow (ticks w) =? updated_at d)%Z
                   && negb (Py.eqb (title d)
                              (get (sb_title sb)
                                 (lit "Document du "
                                  ++ now_strftime (lit "%d/%m/%Y %H:%M")))
                            && Py.eqb (content d) (get (sb_content sb) [])
                            && eqb_opt (corrected_content d)
                                 (Some (get (sb_corrected_content sb) [])))
                then utcnow (S (ticks w)) else utcnow (ticks w);
              v_word_count := word_count d;
              v_corrections_count := corrections_count d;
              v_processing_time := processing_time d |}
  /\ (forall v j, j <> i \/ v <> current_user ->
        handle_document_get v j (snd (save_document current_user sb w))
        = handle_document_get v j w).
Proof.
  intros Hi T Q. unfold handle_document_get, save_document.
  rewrite Hi. cbn [get]. rewrite T, Q.
  destruct (query_first_owned i current_user (documents w) d Q)
    as (_ & Hid & Hu).
  cbn [fst snd]. rewrite documents_commit.
  cbn [documents set_documents tick ticks]. split; [now rewrite Hid|].
  split.
  - match goal with
    | |- context [update_first i current_user ?f _] =>
        rewrite (query_first_update i current_user f (documents w) d Q)
    end.
    + unfold view, committed, onupdate.
      rewrite same_columns_assigned, eqb_refl, andb_true_r.
      cbn [updated_at].
      destruct (_ && _); cbn; now rewrite Hid.
    + apply owned_spec. rewrite committed_id, committed_user_id. cbn. auto.
  - intros v j H. rewrite query_first_update_other; auto.
    + intros d0. now rewrite committed_id.
    + intros d0. now rewrite committed_user_id.
Qed.

(** X14.  After a PUT on a document of the user a GET shows the title,
    the content and the status of the request, each kept when the
    request does not hold it; the corrected content, the agent, the
    creation time and the statistics are those of the document before.
    The time of update is the reading of the clock at the assignment,
    unless this reading is the time that the document had while the
    title, the content or the status changes: the time is then the next
    reading, made for the column at the commit.  What a GET of another
    id, or by another user, answers does not change. *)
Theorem put_document_is_served
    (current_user : nat) (i : str) (ub : put_body) (w : World)
    (d : Document) :
  query_first i current_user (documents w) = Some d ->
  fst (handle_document_put current_user i ub w)
  = ok (Done (lit "Document mis à jour"))
  /\ handle_document_get current_user i
       (snd (handle_document_put current_user i ub w))
     = inr {| v_id := i;
              v_title := get (ub_title ub) (title d);
              v_content := get (ub_content ub) (content d);
              v_corrected_content := corrected_content d;
              v_agent_used := agent_used d;
              v_status := get (ub_status ub) (status d);
              v_created_at := created_at d;
              v_updated_at :=
                if (utcnow (ticks w) =? updated_at d)%Z
                   && negb (Py.eqb (title d) (get (ub_title ub) (title d))
                            && Py.eqb (content d)
                                 (get (ub_content ub) (content d))
                            && Py.eqb (status d)
                                 (get (ub_status ub) (status d)))
                then utcnow (S (ticks w)) else utcnow (ticks w);
              v_word_count := word_count d;
              v_corrections_count := corrections_count d;
              v_processing_time := processing_time d |}
  /\ (forall v j, j <> i \/ v <> current_user ->
        handle_document_get v j
          (snd (handle_document_put current_user i ub w))
        = handle_document_get v j w).
Proof.
  intros Q. unfold handle_document_get, handle_document_put. rewrite Q.
  destruct (query_first_owned i current_user (documents w) d Q)
    as (_ & Hid & Hu).
  cbn [fst snd]. rewrite documents_commit.
  cbn [documents set_documents tick ticks]. split; [reflexivity|].
  split.
  - match goal with
    | |- context [update_first i current_user ?f _] =>
        rewrite (query_first_update i current_user f (documents w) d Q)
    end.
    + unfold view, committed, onupdate.
      rewrite same_columns_assigned, eqb_opt_refl, andb_true_r.
      cbn [updated_at].
      destruct (_ && _); cbn; now rewrite Hid.
    + apply owned_spec. rewrite committed_id, committed_user_id. cbn. auto.
  - intros v j H. rewrite query_first_update_other; auto.
    + intros d0. now rewrite committed_id.
    + intros d0. now rewrite committed_user_id.
Qed.

(** X15.  A deleted document is gone and nothing else is: in a table
    whose ids are distinct, after the DELETE of a document of the user
    a GET and a second DELETE of this id answer 404, the table has one
    row less, and what a GET of another id, or by another user, answers
    does not change. *)
Theorem deleted_document_is_gone
    (current_user : nat) (i : str) (w : World) (d : Document) :
  NoDup (map id (documents w)) ->
  query_first i current_user (documents w) = Some d ->
  fst (handle_document_delete current_user i w)
  = ok (Done (lit "Document supprimé"))
  /\ handle_document_get current_user i
       (snd (handle_document_delete current_user i w))
     = inl not_found
  /\ fst (handle_document_delete current_user i
            (snd (handle_document_delete current_user i w)))
     = not_found
  /\ S (List.length
          (documents (snd (handle_document_delete current_user i w))))
     = List.length (documents w)
  /\ (forall v j, j <> i \/ v <> current_user ->
        handle_document_get v j
          (snd (handle_document_delete current_user i w))
        = handle_document_get v j w).
Proof.
  intros N Q. unfold handle_document_get, handle_document_delete.
  rewrite Q. cbn [fst snd documents set_documents].
  rewrite (query_first_delete i current_user (documents w) N).
  split; [reflexivity|]. split; [reflexivity|]. split; [reflexivity|].
  split; [exact (delete_first_length i current_user (documents w) d Q)|].
  intros v j H. now rewrite query_first_delete_other.
Qed.

End StoreFacts.

(* ================================================================== *)
(** * Accounts *)
(* ================================================================== *)

Section AccountFacts.
Context {C : Collaborators} {B : Backend}.

Lemma by_email_none (e : str) (us : list User) :
  by_email (Some e) us = None -> Forall (fun u => u_email u <> e) us.
Proof.
  unfold by_email. intros H. apply Forall_forall. intros u Hu E.
  apply (find_none _ _ H) in Hu. cbv beta in Hu.
  rewrite E, eqb_refl in Hu. discriminate.
Qed.

Lemma by_email_some (e : option str) (us : list User) (u : User) :
  by_email e us = Some u -> List.In u us /\ e = Some (u_email u).
Proof.
  destruct e as [e|]; [|discriminate]. unfold by_email. intros H.
  apply find_some in H as [H E]. split; [exact H|].
  destruct (eqb_spec (u_email u) e); congruence.
Qed.

Lemma by_email_new (e : str) (us : list User) (u : User) :
  by_email (Some e) us = None -> u_email u = e ->
  by_email (Some e) (us ++ [u]) = Some u.
Proof.
  unfold by_email. intros H E.
  induction us as [|x us IH]; simpl in *.
  - now rewrite E, eqb_refl.
  - destruct (Py.eqb (u_email x) e); [discriminate|auto].
Qed.

Lemma update_user_map {A} (g : User -> A) (i : nat) (f : User -> User)
    (us : list User) :
  (forall u, g (f u) = g u) -> map g (update_user i f us) = map g us.
Proof.
  intros H. unfold update_user. rewrite map_map. apply map_ext.
  intros u. destruct (u_id u =? i); auto.
Qed.

Lemma update_user_Forall2 (R : User -> User -> Prop) (i : nat)
    (f : User -> User) (us : list User) :
  (forall u, R u u) -> (forall u, u_id u = i -> R u (f u)) ->
  Forall2 R us (update_user i f us).
Proof.
  intros Hr Hf. induction us as [|u us IH]; simpl; constructor; auto.
  destruct (u_id u =? i) eqn:E; auto. apply Hf. now apply Nat.eqb_eq.
Qed.

Lemma load_user_update (i : nat) (f : User -> User) (us : list User) :
  (forall u, u_id (f u) = u_id u) ->
  load_user i (update_user i f us) = option_map f (load_user i us).
Proof.
  intros H. unfold load_user, update_user.
  induction us as [|u us IH]; simpl; [reflexivity|].
  destruct (u_id u =? i) eqn:E.
  - now rewrite H, E.
  - now rewrite E.
Qed.

Lemma load_user_In (u : User) (us : list User) :
  NoDup (map u_id us) -> List.In u us -> load_user (u_id u) us = Some u.
Proof.
  unfold load_user. induction us as [|x us IH]; simpl; [tauto|].
  intros N [->|Hu].
  - now rewrite Nat.eqb_refl.
  - inversion N as [|? ? Hx N']; subst.
    destruct (u_id x =? u_id u) eqn:E; [|auto].
    apply Nat.eqb_eq in E. elim Hx. rewrite E. now apply in_map.
Qed.

Lemma NoDup_snoc {A} (l : list A) (a : A) :
  NoDup l -> ~ List.In a l -> NoDup (l ++ [a]).
Proof.
  induction 1 as [|x l Hx N IH]; simpl; intros Ha.
  - constructor; [simpl; tauto|constructor].
  - constructor; [|apply IH; tauto].
    intros H. apply in_app_or in H as [H|[H|[]]]; [exact (Hx H)|].
    apply Ha. left. now symmetry.
Qed.

Lemma same_account_refl (u : User) : same_account u u.
Proof. unfold same_account. tauto. Qed.

Lemma same_rights_refl (i : nat) (u : User) : same_rights i u u.
Proof. unfold same_rights. tauto. Qed.

(** X16.  A registration either is refused and changes nothing, or
    adds one account after the others and opens a session for it: the
    three fields are then present and not empty, no account had the
    email, and the new account has the email and the name of the
    request, the role [collaborateur] whatever the request holds, is
    active and has never logged in. *)
Theorem register_adds_a_collaborator
    (m : method) (is_json : bool) (data : register_body) (s : Site) :
  (snd (register m is_json data s) = s
   /\ (fst (register m is_json data s) = Render (lit "register.html") None
       \/ fst (register m is_json data s)
          = Refused 400 (lit "Tous les champs sont requis")
       \/ fst (register m is_json data s)
          = Refused 400 (lit "Cet email est déjà utilisé")))
  \/ (exists user e p n,
        m = POST
        /\ rb_email data = Some e /\ truthy e = true
        /\ rb_password data = Some p /\ truthy p = true
        /\ rb_name data = Some n /\ truthy n = true
        /\ Forall (fun u => u_email u <> e) (users s)
        /\ users (snd (register m is_json data s)) = users s ++ [user]
        /\ session (snd (register m is_json data s)) = Some (u_id user)
        /\ u_email user = e
        /\ u_name user = n
        /\ u_role user = lit "collaborateur"
        /\ u_is_active user = true
        /\ u_last_login user = None).
Proof.
  unfold register.
  destruct m; [left; split; [reflexivity|left; reflexivity]|].
  destruct (rb_email data) as [e|]; cbn [filled andb negb];
    [|left; split; [reflexivity|right; left; reflexivity]].
  destruct (truthy e) eqn:Te; cbn [andb negb];
    [|left; split; [reflexivity|right; left; reflexivity]].
  destruct (rb_password data) as [p|]; cbn [filled andb negb];
    [|left; split; [reflexivity|right; left; reflexivity]].
  destruct (truthy p) eqn:Tp; cbn [andb negb];
    [|left; split; [reflexivity|right; left; reflexivity]].
  destruct (rb_name data) as [n|]; cbn [filled andb negb];
    [|left; split; [reflexivity|right; left; reflexivity]].
  destruct (truthy n) eqn:Tn; cbn [andb negb];
    [|left; split; [reflexivity|right; left; reflexivity]].
  destruct (by_email (Some e) (users s)) eqn:Q;
    [left; split; [reflexivity|right; right; reflexivity]|].
  right. cbn [snd users session get].
  eexists _, e, p, n.
  split; [reflexivity|]. split; [reflexivity|]. split; [exact Te|].
  split; [reflexivity|]. split; [exact Tp|].
  split; [reflexivity|]. split; [exact Tn|].
  split; [exact (by_email_none e (users s) Q)|].
  repeat (split; [reflexivity|]). reflexivity.
Qed.

(** X17.  The emails of the accounts stay distinct: when they are
    before a registration, a login or an update of the profile, they
    are after it. *)
Theorem accounts_keep_distinct_emails
    (m : method) (is_json : bool) (rb : register_body) (lb : login_body)
    (i : nat) (pb : profile_body) (s : Site) :
  NoDup (map u_email (users s)) ->
  NoDup (map u_email (users (snd (register m is_json rb s))))
  /\ NoDup (map u_email (users (snd (login m is_json lb s))))
  /\ NoDup (map u_email (users (snd (profile_api_put i pb s)))).
Proof.
  intros N. split; [|split].
  - unfold register. destruct m; [exact N|].
    destruct (rb_email rb) as [e|]; cbn [filled andb negb]; [|exact N].
    destruct (negb _); [exact N|].
    destruct (by_email (Some e) (users s)) eqn:Q; [exact N|].
    cbn [snd users get]. rewrite map_app. cbn [map u_email].
    apply NoDup_snoc; [exact N|].
    intros Hx. apply in_map_iff in Hx as (u & E & Hu).
    apply by_email_none in Q. rewrite Forall_forall in Q.
    exact (Q u Hu E).
  - unfold login. cbv zeta.
    destruct (is_authenticated s); [exact N|]. destruct m; [exact N|].
    destruct (by_email (lb_email lb) (users s)) as [user|]; [|exact N].
    destruct (check_password_hash _ _) as [checked|]; [|exact N].
    destruct (checked && u_is_active user); [|exact N].
    cbn [snd users]. rewrite update_user_map; [exact N|reflexivity].
  - unfold profile_api_put.
    destruct (pr_name pb) as [[n|]|]; cbn [snd users]; try exact N;
      (rewrite update_user_map; [exact N|reflexivity]).
Qed.

(** X18.  A login opens a session only on a checked password: either
    it changes nothing and does not answer with the data of a user, or
    the request is a POST made without a session of an active user, an
    account has the email of the request, this account is active and
    the password of the request checks against its hash; the session is
    then that of this account, and no row changes but for the time of
    the last login. *)
Theorem login_checks_the_password
    (m : method) (is_json : bool) (data : login_body) (s : Site) :
  (snd (login m is_json data s) = s
   /\ forall redirect name email role,
        fst (login m is_json data s) <> LoggedIn redirect name email role)
  \/ (exists user,
        m = POST
        /\ is_authenticated s = false
        /\ List.In user (users s)
        /\ lb_email data = Some (u_email user)
        /\ u_is_active user = true
        /\ check_password_hash (u_password_hash user) (lb_password data)
           = Some true
        /\ session (snd (login m is_json data s)) = Some (u_id user)
        /\ Forall2 same_account (users s)
             (users (snd (login m is_json data s)))).
Proof.
  unfold login. cbv zeta.
  destruct (is_authenticated s); [left; split; [reflexivity|discriminate]|].
  destruct m; [left; split; [reflexivity|discriminate]|].
  destruct (by_email (lb_email data) (users s)) as [user|] eqn:Q;
    [|left; split; [reflexivity|destruct is_json; discriminate]].
  destruct (check_password_hash _ _) as [checked|] eqn:K;
    [|left; split; [reflexivity|discriminate]].
  destruct checked; cbn [andb];
    [|left; split; [reflexivity|destruct is_json; discriminate]].
  destruct (u_is_active user) eqn:A;
    [|left; split; [reflexivity|destruct is_json; discriminate]].
  right. exists user. apply by_email_some in Q as [Hin He].
  cbn [snd users session].
  split; [reflexivity|]. split; [reflexivity|]. split; [exact Hin|].
  split; [exact He|]. split; [exact A|]. split; [exact K|].
  split; [reflexivity|].
  apply update_user_Forall2; [exact same_account_refl|].
  intros u _. unfold same_account. cbn. tauto.
Qed.

(** X19.  A session from login to logout: in a table whose ids are
    distinct, after a login that answers with the data of a user or
    with a redirection to the dashboard the user is authenticated, and
    a further login only redirects to the dashboard, changing nothing;
    after a logout nobody is authenticated, whatever the state before,
    and the accounts are as they were. *)
Theorem session_from_login_to_logout
    (data data' : login_body) (m m' : method) (is_json is_json' : bool)
    (s : Site) :
  NoDup (map u_id (users s)) ->
  fst (login m is_json data s) = Redirect (lit "dashboard")
  \/ (exists name email role,
        fst (login m is_json data s)
        = LoggedIn (lit "dashboard") name email role) ->
  is_authenticated (snd (login m is_json data s)) = true
  /\ login m' is_json' data' (snd (login m is_json data s))
     = (Redirect (lit "dashboard"), snd (login m is_json data s))
  /\ is_authenticated (snd (logout (snd (login m is_json data s)))) = false
  /\ users (snd (logout (snd (login m is_json data s))))
     = users (snd (login m is_json data s)).
Proof.
  intros N L.
  assert (A : is_authenticated (snd (login m is_json data s)) = true).
  { revert L. unfold login. cbv zeta.
    destruct (is_authenticated s) eqn:A0; [intros _; exact A0|].
    destruct m.
    { intros [L|(n & e & r & L)]; discriminate. }
    destruct (by_email (lb_email data) (users s)) as [user|] eqn:Q.
    2:{ intros [L|(n & e & r & L)]; destruct is_json; discriminate. }
    destruct (check_password_hash _ _) as [checked|].
    2:{ intros [L|(n & e & r & L)]; discriminate. }
    destruct checked; cbn [andb].
    2:{ intros [L|(n & e & r & L)]; destruct is_json; discriminate. }
    destruct (u_is_active user) eqn:A.
    2:{ intros [L|(n & e & r & L)]; destruct is_json; discriminate. }
    intros _. apply by_email_some in Q as [Hin _].
    unfold is_authenticated, current_user. cbn [snd users session].
    rewrite load_user_update by reflexivity.
    rewrite (load_user_In user (users s) N Hin). exact A. }
  split; [exact A|]. split.
  - unfold login at 1. now rewrite A.
  - unfold logout. rewrite A. cbn [snd users].
    unfold is_authenticated, current_user. cbn [session]. auto.
Qed.

(** X20.  An update of the profile changes names and services only, and
    only those of the user: the id, the email, the password hash, the
    role, the activity and the times of every account are kept, the
    accounts of the other users are kept whole, and so is the
    session.  A null name is not written: the state is then as it
    was. *)
Theorem profile_api_put_keeps_rights
    (i : nat) (data : profile_body) (s : Site) :
  Forall2 (same_rights i) (users s)
    (users (snd (profile_api_put i data s)))
  /\ session (snd (profile_api_put i data s)) = session s
  /\ (pr_name data = Some None -> snd (profile_api_put i data s) = s).
Proof.
  unfold profile_api_put.
  assert (R : Forall2 (same_rights i) (users s) (users s))
    by (apply Forall2_same; exact (same_rights_refl i)).
  destruct (pr_name data) as [[n|]|]; cbn [snd users session];
    (split; [|split; [reflexivity|]]); try exact R;
    try discriminate; try reflexivity;
    (apply update_user_Forall2; [exact (same_rights_refl i)|];
     intros u Hu; unfold same_rights; cbn;
     repeat (split; [reflexivity|]); intros Hn; now elim Hn).
Qed.

(** X21.  Who has registered can log in: when the backend checks a
    password against a hash it made of it, after a registration that
    is not refused and a logout, nobody is authenticated, and a login
    with the email and the password of the registration opens the
    session of the account that the registration made. *)
Theorem registered_user_logs_in
    (is_json is_json' : bool) (data : register_body) (s : Site)
    (e p : str) :
  (forall n password,
     check_password_hash (generate_password_hash n password)
       (Some password) = Some true) ->
  rb_email data = Some e -> rb_password data = Some p ->
  (forall c err, fst (register POST is_json data s) <> Refused c err) ->
  exists user,
    by_email (Some e) (users (snd (register POST is_json data s)))
    = Some user
    /\ session (snd (register POST is_json data s)) = Some (u_id user)
    /\ is_authenticated (snd (logout (snd (register POST is_json data s))))
       = false
    /\ session
         (snd (login POST is_json'
                 {| lb_email := Some e; lb_password := Some p |}
                 (snd (logout (snd (register POST is_json data s))))))
       = Some (u_id user).
Proof.
  intros K He Hp. unfold register. rewrite He, Hp.
  cbn [filled].
  destruct (negb _); [intros H; now elim (H _ _ eq_refl)|].
  destruct (by_email (Some e) (users s)) eqn:Q;
    [intros H; now elim (H _ _ eq_refl)|].
  intros _. cbn [snd get].
  match goal with
  | |- context [logout ?s1] => set (s' := s1)
  end.
  assert (O : is_authenticated (snd (logout s')) = false).
  { unfold logout. destruct (is_authenticated s') eqn:A; [|exact A].
    reflexivity. }
  assert (Us : users (snd (logout s')) = users s').
  { unfold logout. now destruct (is_authenticated s'). }
  eexists. split; [|split; [|split; [exact O|]]].
  - unfold s'. cbn [users]. apply (by_email_new e (users s) _ Q).
    reflexivity.
  - reflexivity.
  - unfold login. cbv zeta. rewrite O, Us.
    cbn [lb_email lb_password]. unfold s' at 1. cbn [users].
    match goal with
    | |- context [by_email (Some e) (users s ++ [?u])] =>
        rewrite (by_email_new e (users s) u Q eq_refl)
    end.
    cbn [u_password_hash u_is_active]. rewrite K. cbn [andb].
    destruct is_json'; reflexivity.
Qed.

End AccountFacts.

(* ================================================================== *)
(** * The agents *)
(* ================================================================== *)

Section AgentFacts.

Lemma calls_grow (r : completion_request) (l : list completion_request) :
  l <> r :: l.
Proof.
  intros H. apply (f_equal (@List.length _)) in H. simpl in H. lia.
Qed.

(** X22.  The agents that [get_agents] lists are the agents that are
    served: [editor] renders each under its name with the listed name
    and description, a process call that names it is not refused as an
    unknown agent, and the completion call it makes asks for the listed
    model.  For any other name [editor] renders the agent [jurifix]. *)
Theorem listed_agents_are_served (k : str) :
  (forall info, List.In (k, info) get_agents ->
     exists a,
       editor k = Some a
       /\ ai_name info = name a
       /\ ai_description info = description a
       /\ ai_model info = model a
       /\ forall (U : Unicode) (C : Collaborators) (current_user : nat)
            (data : process_body) (w : World),
            pb_agent data = Some k ->
            payload (fst (process_text current_user data w))
            <> Err (lit "Agent non reconnu")
            /\ forall r,
                 calls (snd (process_text current_user data w))
                 = r :: calls w ->
                 cr_model r = ai_model info)
  /\ ((forall info, ~ List.In (k, info) get_agents) ->
      editor k = editor (lit "jurifix") /\ editor k <> None).
Proof.
  assert (J : exists a, AGENTS = [(lit "jurifix", a)])
    by (eexists; reflexivity).
  destruct J as (a & J).
  assert (L : lookup (lit "jurifix") AGENTS = Some a).
  { rewrite J. cbv [lookup]. now rewrite eqb_refl. }
  split.
  - intros info H. unfold get_agents in H. rewrite J in H.
    cbn [map fst snd] in H. destruct H as [H|[]].
    injection H as <- <-. exists a.
    split; [unfold editor; now rewrite L|].
    split; [reflexivity|]. split; [reflexivity|]. split; [reflexivity|].
    intros U C current_user data w Hk. unfold process_text.
    rewrite Hk. cbn [get]. rewrite L.
    destruct (truthy (strip _)); cbn [negb fst snd].
    + destruct (create _) as [[contenu|]|e];
        (split; [discriminate|]); cbn [fst snd];
        try (cbn [calls record_call tick]; now intros r [= <-]).
      destruct (pb_document_id data) as [i|].
      * destruct (truthy i).
        -- cbn [documents tick record_call].
           destruct (query_first i current_user (documents w));
             try destruct (onupdate _ _);
             cbn [calls set_documents record_call tick];
             now intros r [= <-].
        -- cbn [calls record_call tick]. now intros r [= <-].
      * cbn [calls record_call tick]. now intros r [= <-].
    + split.
      * cbn [payload fail]. intros [= H].
      * intros r H. now elim (calls_grow r (calls w)).
  - intros H. unfold editor.
    destruct (lookup k AGENTS) as [x|] eqn:E.
    + exfalso. rewrite J in E. cbv [lookup] in E.
      destruct (eqb_spec k (lit "jurifix")) as [->|]; [|discriminate].
      apply (H {| ai_name := name a; ai_description := description a;
                  ai_model := model a |}).
      unfold get_agents. rewrite J. now left.
    + split; [now rewrite L|]. rewrite L. discriminate.
Qed.

End AgentFacts.

(* ================================================================== *)
(** * Addresses and telephone numbers in a text *)
(* ================================================================== *)

Section Redaction.
Context {U : Unicode}.

Lemma ms_Cat_head (ic : bool) (a b : regex) (st s1 s2 : mstate)
    (l1 l2 : list mstate) :
  ms ic a st = s1 :: l1 -> ms ic b s1 = s2 :: l2 ->
  exists l, ms ic (Cat a b) st = s2 :: l.
Proof.
  intros H1 H2.
  change (ms ic (Cat a b) st) with (flat_map (ms ic b) (ms ic a st)).
  rewrite H1. cbn [flat_map]. rewrite H2. simpl. eauto.
Qed.

Lemma after_snoc (b : option char) (w : str) (c : char) :
  after b (w ++ [c]) = Some c.
Proof.
  unfold after. rewrite map_app. simpl. apply last_last.
Qed.

(** The first way a repetition of a set reads a text: the longest. *)
Lemma rep_class_head (ic : bool) (cs : list item) (lo : nat)
    (hi : option nat) (w : str) :
  forall (n fuel : nat) (b : option char) (z : str) (g : list (nat * str)),
    Forall (fun c => in_set ic cs c = true) w ->
    (forall c t, z = c :: t -> in_set ic cs c = false)
    \/ below (n + List.length w) hi = false ->
    (forall k, k < List.length w -> below (n + k) hi = true) ->
    lo <= n + List.length w -> List.length w <= fuel ->
    exists l,
      rep (ms ic (In cs)) lo hi fuel n
          {| prev := b; rest := w ++ z; groups := g |}
      = {| prev := after b w; rest := z; groups := g |} :: l.
Proof.
  induction w as [|c w IH]; intros n fuel b z g F St B L Hf.
  - simpl in L. rewrite Nat.add_0_r in *. cbn [app after map last].
    apply Nat.leb_le in L.
    destruct fuel as [|fuel]; simpl; rewrite L; [eauto|].
    destruct St as [St|St]; [|rewrite St; simpl; eauto].
    destruct (below n hi); [|simpl; eauto].
    destruct z as [|c t]; [simpl; eauto|].
    rewrite (St c t eq_refl). simpl. eauto.
  - destruct fuel as [|fuel]; [simpl in Hf; lia|].
    inversion F as [|? ? Hc F']; subst.
    assert (B0 : below n hi = true).
    { rewrite <- (Nat.add_0_r n). apply B. simpl. lia. }
    destruct (IH (S n) fuel (Some c) z g F') as (l & E).
    + destruct St as [St|St]; [now left|right].
      simpl in St. now rewrite Nat.add_succ_r in St.
    + intros k Hk. rewrite Nat.add_succ_l, <- Nat.add_succ_r.
      apply B. simpl. lia.
    + simpl in L. lia.
    + simpl in Hf. lia.
    + assert (H1 : ms ic (In cs)
                     {| prev := b; rest := (c :: w) ++ z; groups := g |}
                   = [{| prev := Some c; rest := w ++ z; groups := g |}]).
      { cbn [ms rest app]. now rewrite Hc. }
      revert E H1. generalize (ms ic (In cs)). intros f E H1.
      cbn [rep]. rewrite B0, H1. cbn [flat_map rest app].
      assert (T : (List.length (w ++ z) <? List.length (c :: w ++ z)) = true)
        by (apply Nat.ltb_lt; simpl; lia).
      rewrite T, E. rewrite app_nil_r.
      replace (after b (c :: w)) with (after (Some c) w)
        by (symmetry; apply after_cons).
      simpl. eauto.
Qed.

Lemma plus_class_head (ic : bool) (cs : list item) (w z : str)
    (b : option char) (g : list (nat * str)) :
  w <> [] -> Forall (fun c => in_set ic cs c = true) w ->
  (forall c t, z = c :: t -> in_set ic cs c = false) ->
  exists l,
    ms ic (plus (In cs)) {| prev := b; rest := w ++ z; groups := g |}
    = {| prev := after b w; rest := z; groups := g |} :: l.
Proof.
  intros Hw F St.
  change (ms ic (plus (In cs))
            {| prev := b; rest := w ++ z; groups := g |})
    with (rep (ms ic (In cs)) 1 None (List.length (w ++ z)) 0
              {| prev := b; rest := w ++ z; groups := g |}).
  apply rep_class_head; auto.
  - destruct w; [contradiction|simpl; lia].
  - rewrite length_app. lia.
Qed.

Lemma lit_head (a : char) (t : str) (b : option char)
    (g : list (nat * str)) :
  ms false (Lit a) {| prev := b; rest := a :: t; groups := g |}
  = [{| prev := Some a; rest := t; groups := g |}].
Proof.
  cbn [ms rest]. unfold lit_match. cbn [andb]. now rewrite N.eqb_refl.
Qed.

Lemma boundary_head (ic : bool) (st : mstate) :
  at_boundary st = true -> ms ic WordBoundary st = [st].
Proof. intros H. cbn [ms]. now rewrite H. Qed.

Lemma in_set_false (cs : list item) (c : char) :
  in_set false cs c = existsb (fun it => in_item it c) cs.
Proof. reflexivity. Qed.

Lemma host_in_domain (c : char) :
  in_set false host_chars c = true -> in_set false domain_chars c = true.
Proof.
  rewrite !in_set_false. cbn [existsb host_chars domain_chars].
  rewrite !orb_true_iff. tauto.
Qed.

Lemma domain_in_local (c : char) :
  in_set false domain_chars c = true -> in_set false local_chars c = true.
Proof.
  rewrite !in_set_false. cbn [existsb local_chars domain_chars].
  rewrite !orb_true_iff. tauto.
Qed.

Lemma delimiter_facts (c : char) :
  delimiter c = true ->
  (c < 256)%N /\ is_word c = false /\ in_set false local_chars c = false
  /\ in_set false domain_chars c = false.
Proof.
  unfold delimiter. rewrite !andb_true_iff, !negb_true_iff, N.ltb_lt.
  intros [[[H1 H2] H3] _]. repeat split; auto.
  destruct (in_set false domain_chars c) eqn:E; [|reflexivity].
  apply domain_in_local in E. congruence.
Qed.

(** The second rule at an address: the first match reads the address
    to its end. *)
Lemma email_match (b : option char) (local host domain post : str) :
  address_parts local host domain -> word_opt b = false ->
  delimited (hd_error post) = true ->
  exists st',
    match_at re_email b (address local host domain ++ post) = Some st'
    /\ rest st' = post /\ word_opt (prev st') = true.
Proof.
  intros (Fl & Fh & Fd & Hh & (c0 & t0 & El & W0) & (td & cd & Ed & Wd)) Hb
    Hp.
  assert (Sp : forall c t, post = c :: t ->
                 in_set false domain_chars c = false /\ is_word c = false).
  { intros c t ->. apply delimiter_facts in Hp. tauto. }
  set (s5 := {| prev := after (Some (chr ".")) domain; rest := post;
                groups := [] |}).
  assert (H6 : ms false WordBoundary s5 = [s5]).
  { apply boundary_head. unfold at_boundary, s5. cbn [prev rest].
    rewrite Ed, after_snoc. cbn [word_opt]. rewrite Wd.
    destruct post as [|c t]; [reflexivity|].
    cbn [hd_error word_opt]. now rewrite (proj2 (Sp c t eq_refl)). }
  destruct (plus_class_head false domain_chars domain post (Some (chr ".")) [])
    as (l5 & H5); auto.
  { rewrite Ed. now destruct td. }
  { intros c t E. exact (proj1 (Sp c t E)). }
  destruct (ms_Cat_head false _ _ _ _ _ _ _ H5 H6) as (l45 & H45).
  pose proof (lit_head (chr ".") (domain ++ post)
                (after (Some (chr "@")) host) []) as H4.
  destruct (ms_Cat_head false _ _ _ _ _ _ _ H4 H45) as (l4 & H4').
  destruct (plus_class_head false host_chars host (chr "." :: domain ++ post)
              (Some (chr "@")) []) as (l3 & H3); auto.
  { intros c t [= <- _]. reflexivity. }
  destruct (ms_Cat_head false _ _ _ _ _ _ _ H3 H4') as (l3' & H3').
  pose proof (lit_head (chr "@") (host ++ chr "." :: domain ++ post)
                (after b local) []) as H2.
  destruct (ms_Cat_head false _ _ _ _ _ _ _ H2 H3') as (l2 & H2').
  destruct (plus_class_head false local_chars local
              (chr "@" :: host ++ chr "." :: domain ++ post) b [])
    as (l1 & H1); auto.
  { rewrite El. discriminate. }
  { intros c t [= <- _]. reflexivity. }
  destruct (ms_Cat_head false _ _ _ _ _ _ _ H1 H2') as (l1' & H1').
  assert (H0 : ms false WordBoundary
                 {| prev := b;
                    rest := local ++ chr "@" :: host ++ chr "." :: domain
                            ++ post;
                    groups := [] |}
               = [{| prev := b;
                     rest := local ++ chr "@" :: host ++ chr "." :: domain
                             ++ post;
                     groups := [] |}]).
  { apply boundary_head. unfold at_boundary. cbn [prev rest]. rewrite Hb.
    rewrite El. cbn [app hd_error word_opt]. now rewrite W0. }
  destruct (ms_Cat_head false _ _ _ _ _ _ _ H0 H1') as (l0 & H0').
  exists s5. split; [|split; [reflexivity|]].
  - unfold match_at.
    replace (address local host domain ++ post)
      with (local ++ chr "@" :: host ++ chr "." :: domain ++ post).
    + change (re re_email)
        with (Cat WordBoundary
               (Cat (plus (In local_chars))
                 (Cat (Lit (chr "@"))
                   (Cat (plus (In host_chars))
                     (Cat (Lit (chr "."))
                       (Cat (plus (In domain_chars)) WordBoundary)))))).
      change (ignorecase re_email) with false.
      rewrite H0'. reflexivity.
    + unfold address. rewrite <- app_assoc. cbn [app].
      rewrite <- app_assoc. reflexivity.
  - unfold s5. cbn [prev]. rewrite Ed, after_snoc. exact Wd.
Qed.


(** ** Checks over Latin-1 *)

Lemma latin1_check (P : char -> bool) :
  forallb P (map N.of_nat (seq 0 256)) = true ->
  forall c, (c < 256)%N -> P c = true.
Proof.
  intros H c Hc. rewrite forallb_forall in H. apply H.
  apply in_map_iff. exists (N.to_nat c). split; [apply N2Nat.id|].
  apply in_seq. lia.
Qed.

Lemma delimiter_honorific (c : char) :
  delimiter c = true ->
  may true honorific c = false /\ lower c <> 109%N /\ c <> 64%N
  /\ c <> 48%N /\ may false (re re_email) c = false.
Proof.
  intros H.
  assert (L : (c < 256)%N).
  { unfold delimiter in H. rewrite !andb_true_iff, N.ltb_lt in H. tauto. }
  pose proof (latin1_check
    (fun c => implb (delimiter c)
                (negb (may true honorific c) && negb (lower c =? 109)%N
                 && negb (c =? 64)%N && negb (c =? 48)%N
                 && negb (may false (re re_email) c)))
    ltac:(vm_compute; reflexivity) c L) as K.
  cbv beta in K. rewrite H in K. cbn [implb] in K.
  rewrite !andb_true_iff, !negb_true_iff, !N.eqb_neq in K. tauto.
Qed.

(** ** Where a rule cannot match *)

Lemma overrun (P : char -> Prop) (p post w r : str) :
  p ++ post = w ++ r -> Forall (fun c => ~ P c) p -> Exists P w ->
  exists c t, post = c :: t /\ List.In c w.
Proof.
  revert w. induction p as [|a p IH]; intros w E F X.
  - destruct X as [c w' Hc|c w' X]; simpl in E; subst post;
      eexists _, _; (split; [reflexivity|now left]).
  - inversion F as [|? ? Ha F']; subst.
    destruct X as [c w' Hc|c w' X]; simpl in E; injection E as <- E.
    + contradiction.
    + destruct (IH w' E F' X) as (c' & t & -> & I).
      eexists _, _. split; [reflexivity|now right].
Qed.

(** The second rule has no match that starts in a text without [@]
    which a delimiter follows. *)
Lemma email_blocked (b : option char) (p post : str) (g : list (nat * str)) :
  Forall (fun c => c <> 64%N) p -> delimited (hd_error post) = true ->
  ms false (re re_email) {| prev := b; rest := p ++ post; groups := g |}
  = [].
Proof.
  intros F D. destruct (ms _ _ _) as [|st' l] eqn:E; [reflexivity|exfalso].
  assert (M : List.In st'
                (ms false (re re_email)
                    {| prev := b; rest := p ++ post; groups := g |}))
    by (rewrite E; now left).
  destruct (ms_span false _ _ _ M) as (w & R & _ & Fw). cbn [rest] in R.
  assert (X : Exists (fun c => (c =? 64)%N = true) w).
  { refine (ms_must false at_leaf (fun c => (c =? 64)%N) _ (re re_email)
              {| prev := b; rest := p ++ post; groups := g |} st' w
              eq_refl M R).
    intros [|a| | | | | |] x L Y; try discriminate. cbn [at_leaf] in L.
    apply N.eqb_eq in L. subst. cbn [may] in Y. unfold lit_match in Y.
    exact Y. }
  destruct (overrun (fun c => (c =? 64)%N = true) p post w _ R) as
    (c & t & -> & I); [|exact X|].
  - eapply Forall_impl; [|exact F]. intros a Ha Hb.
    apply N.eqb_eq in Hb. contradiction.
  - cbn [hd_error delimited] in D. apply delimiter_honorific in D.
    rewrite Forall_forall in Fw. rewrite (Fw c I) in D.
    destruct D as (_ & _ & _ & _ & D). discriminate.
Qed.

Lemma plus_class_none (ic : bool) (cs : list item) (st : mstate) :
  (forall c t, rest st = c :: t -> in_set ic cs c = false) ->
  ms ic (plus (In cs)) st = [].
Proof.
  intros H.
  change (ms ic (plus (In cs)) st)
    with (rep (ms ic (In cs)) 1 None (List.length (rest st)) 0 st).
  destruct (rest st) as [|c t] eqn:E; [reflexivity|].
  cbn [List.length rep below]. cbn [ms]. rewrite E.
  rewrite (H c t eq_refl). reflexivity.
Qed.

Lemma ms_Cat_nil (ic : bool) (a b : regex) (st : mstate) :
  ms ic a st = [] -> ms ic (Cat a b) st = [].
Proof.
  intros H.
  change (ms ic (Cat a b) st) with (flat_map (ms ic b) (ms ic a st)).
  now rewrite H.
Qed.

Lemma ms_boundary_Cat (ic : bool) (r : regex) (st : mstate) :
  ms ic (Cat WordBoundary r) st
  = if at_boundary st then ms ic r st else [].
Proof.
  change (ms ic (Cat WordBoundary r) st)
    with (flat_map (ms ic r) (if at_boundary st then [st] else [])).
  destruct (at_boundary st); [|reflexivity].
  cbn [flat_map]. apply app_nil_r.
Qed.

(** No match of the second rule starts at a delimiter or at the end. *)
Lemma email_start (st : mstate) :
  delimited (hd_error (rest st)) = true -> ms false (re re_email) st = [].
Proof.
  intros D.
  change (re re_email)
    with (Cat WordBoundary
           (Cat (plus (In local_chars))
             (Cat (Lit (chr "@"))
               (Cat (plus (In host_chars))
                 (Cat (Lit (chr "."))
                   (Cat (plus (In domain_chars)) WordBoundary)))))).
  rewrite ms_boundary_Cat. destruct (at_boundary st); [|reflexivity].
  apply ms_Cat_nil, plus_class_none.
  intros c t E. rewrite E in D. cbn [hd_error delimited] in D.
  apply delimiter_facts in D. tauto.
Qed.

(** No match of the third rule starts elsewhere than at a [0]. *)
Lemma telephone_start (st : mstate) :
  (forall t, rest st <> 48%N :: t) -> ms false (re re_telephone) st = [].
Proof.
  intros H.
  match goal with
  | |- ms false ?r st = [] =>
      let r' := eval cbv [re re_telephone] in r in change r with r'
  end.
  rewrite ms_boundary_Cat. destruct (at_boundary st); [|reflexivity].
  apply ms_Cat_nil. cbn [ms].
  destruct (rest st) as [|c t] eqn:E; [reflexivity|].
  unfold lit_match. cbn [andb].
  destruct (N.eqb_spec c (chr "0")) as [->|_]; [|reflexivity].
  now elim (H t).
Qed.

(** Away from a word boundary the later rules have no match. *)
Lemma later_rule_boundary (rule : pattern * list titem) (st : mstate) :
  List.In rule (tl rules) -> at_boundary st = false ->
  ms (ignorecase (fst rule)) (re (fst rule)) st = [].
Proof.
  intros H B.
  assert (E : exists r, re (fst rule) = Cat WordBoundary r).
  { destruct H as [<-|[<-|[<-|[]]]]; eexists; reflexivity. }
  destruct E as (r & ->). rewrite ms_boundary_Cat. now rewrite B.
Qed.


(** ** The first rule at the end of a text without blank *)

Lemma space_set (c : char) : in_set true [ICat CSpace] c = isspace c.
Proof.
  unfold in_set. cbn [andb existsb item_cased orb in_item in_category].
  apply orb_false_r.
Qed.

(** A match of the first rule that starts in a text without blank
    reads this text to its end as the honorific, and a blank next. *)
Lemma nom_tail (b : option char) (x post : str) (st' : mstate) :
  Forall (fun a => isspace a = false) x ->
  (forall c t, post = c :: t -> may true honorific c = false) ->
  List.In st' (ms true (re re_nom)
                  {| prev := b; rest := x ++ post; groups := [] |}) ->
  group st' 1 = x /\ post <> []
  /\ List.length (rest st') < List.length (x ++ post).
Proof.
  intros Fx Hp H.
  assert (Pr : List.length (rest st') < List.length (x ++ post)).
  { destruct (rule_match (rule := (re_nom, repl_nom)) _ _
                ltac:(simpl; auto) H) as (w & R & X & _).
    cbn [rest] in R. rewrite R, length_app.
    destruct X; simpl; lia. }
  revert H. set (st := {| prev := b; rest := x ++ post; groups := [] |}).
  change (re re_nom)
    with (Cat WordBoundary (Cat (Group 1 honorific) suite_nom)).
  rewrite ms_boundary_Cat. destruct (at_boundary st); [|intros []].
  change (ms true (Cat (Group 1 honorific) suite_nom) st)
    with (flat_map (ms true suite_nom)
            (map (set_group 1 st) (ms true honorific st))).
  intros H. apply in_flat_map in H as (s1 & H1 & H2).
  apply in_map_iff in H1 as (s1' & <- & H1).
  destruct (ms_span true honorific _ _ H1) as (h' & Sp).
  pose proof (ms_no_group true 1 suite_nom eq_refl _ _ H2) as G.
  assert (G1 : group (set_group 1 st s1') 1 = h').
  { unfold group, set_group. cbn [groups find fst snd Nat.eqb].
    exact (consumed_span Sp). }
  rewrite G1 in G. destruct Sp as (R & _ & Fh). cbn [rest st] in R.
  revert H2.
  change (ms true suite_nom (set_group 1 st s1'))
    with (flat_map
            (ms true (Group 2 (Cat name_word
                                 (opt (Cat (plus space) name_word)))))
            (rep (ms true space) 1 None
                 (List.length (rest (set_group 1 st s1'))) 0
                 (set_group 1 st s1'))).
  intros H2. apply in_flat_map in H2 as (s2 & H2 & _).
  apply rep_first in H2 as (s1a & fuel' & H3 & _); [|lia].
  unfold space in H3. cbn [ms set_group rest] in H3.
  destruct (rest s1') as [|k r] eqn:Er; [destruct H3|].
  rewrite space_set in H3. destruct (isspace k) eqn:K; [|destruct H3].
  destruct (prefix_before_barrier (fun a => isspace a = false) k x h' r post)
    as (g2 & E2); [now symmetry|exact Fx|congruence|].
  clear G1.
  rewrite E2 in R, Fh, G.
  assert (R' : x ++ post = x ++ (g2 ++ k :: r))
    by (rewrite R; symmetry; apply app_assoc).
  clear R. apply app_inv_head in R'. rename R' into R.
  destruct g2 as [|c g2].
  - split; [now rewrite G, app_nil_r|]. split; [|exact Pr].
    simpl in R. now rewrite R.
  - exfalso. simpl in R. apply Forall_app in Fh as [_ Fh].
    inversion Fh as [|? ? Hc _]; subst.
    rewrite (Hp c _ eq_refl) in Hc. discriminate.
Qed.


(** ** One substitution on a text with a known beginning *)

Lemma sub_loop_stop (p : pattern) (repl : list titem) (fuel : nat)
    (b : option char) (post : str) :
  match_at p b post = None ->
  exists z, sub_loop p repl fuel b post = z /\ hd_error z = hd_error post.
Proof.
  intros H. destruct fuel as [|fuel]; [eauto|].
  cbn [sub_loop]. rewrite H. destruct post; eauto.
Qed.

(** Where no match starts in [P] nor at its end, [P] is kept, and the
    character after it. *)
Lemma sub_keep (p : pattern) (repl : list titem) (P post : str) :
  (forall p1 p2, P = p1 ++ p2 -> p2 <> [] ->
     match_at p (after None p1) (p2 ++ post) = None) ->
  match_at p (after None P) post = None ->
  exists z, sub p repl (P ++ post) = P ++ z
            /\ hd_error z = hd_error post.
Proof.
  intros H1 H2. unfold sub.
  rewrite (sub_loop_prefix p repl post None H1)
    by (rewrite length_app; lia).
  destruct (sub_loop_stop p repl
              (S (List.length (P ++ post)) - List.length P)
              (after None P) post H2) as (z & -> & Hz).
  eauto.
Qed.

(** Where no match starts in [P] and the match at its end reads [X],
    [P] is kept and [X] is replaced; the character after [X] is kept
    when no match starts there. *)
Lemma sub_hit (p : pattern) (repl : list titem) (P X post : str)
    (st' : mstate) :
  (forall p1 p2, P = p1 ++ p2 -> p2 <> [] ->
     match_at p (after None p1) (p2 ++ X ++ post) = None) ->
  match_at p (after None P) (X ++ post) = Some st' ->
  rest st' = post -> X <> [] ->
  match_at p (prev st') post = None ->
  exists z, sub p repl (P ++ X ++ post) = P ++ expand repl st' ++ z
            /\ hd_error z = hd_error post.
Proof.
  intros H1 H2 R HX H3. unfold sub.
  rewrite (sub_loop_prefix p repl (X ++ post) None H1)
    by (rewrite length_app; lia).
  replace (S (List.length (P ++ X ++ post)) - List.length P)
    with (S (List.length (X ++ post)))
    by (rewrite !length_app; lia).
  rewrite (sub_loop_match p repl _ _ _ st' H2).
  - rewrite R.
    destruct (sub_loop_stop p repl (List.length (X ++ post)) (prev st')
                post H3) as (z & -> & Hz).
    eauto.
  - rewrite R, length_app. destruct X; [contradiction|simpl; lia].
Qed.

Lemma suffix_snoc {A} (p1 p2 G : list A) (k : A) :
  p1 ++ p2 = G ++ [k] -> p2 <> [] ->
  exists g, p2 = g ++ [k] /\ G = p1 ++ g.
Proof.
  intros E H. destruct (exists_last H) as (g & k' & ->).
  rewrite app_assoc in E. apply app_inj_tail in E as [<- <-]. eauto.
Qed.

Lemma delimited_word (o : option char) :
  delimited o = true -> word_opt o = false.
Proof.
  destruct o as [c|]; [|reflexivity]. cbn [delimited word_opt].
  intros H. apply delimiter_facts in H. tauto.
Qed.

(** A later rule keeps a text without [@] and digit that a bracket
    closes, and the delimiter after it. *)
Lemma later_keep (rule : pattern * list titem) (G z : str) :
  List.In rule (tl rules) -> Forall (fun c => mark c = false) G ->
  delimited (hd_error z) = true ->
  exists z', sub (fst rule) (snd rule) ((G ++ [93%N]) ++ z)
             = (G ++ [93%N]) ++ z'
             /\ hd_error z' = hd_error z.
Proof.
  intros Hr FG D. apply sub_keep.
  - intros p1 p2 E Hp. symmetry in E.
    destruct (suffix_snoc p1 p2 G 93%N E Hp) as (g & -> & ->).
    rewrite <- app_assoc. cbn [app].
    apply guarded_no_match; [exact Hr| |now right].
    now apply Forall_app in FG.
  - apply match_at_None. apply later_rule_boundary; [exact Hr|].
    unfold at_boundary. cbn [prev rest]. rewrite after_snoc.
    rewrite (delimited_word _ D). reflexivity.
Qed.


(** ** An address in a text *)

Lemma local_latin1 (c : char) :
  in_set false local_chars c = true -> (c < 256)%N.
Proof.
  rewrite in_set_false.
  cbn [existsb local_chars in_item az AZ d09]. unfold between.
  repeat match goal with
         | |- context [chr ?a] =>
             let v := eval vm_compute in (chr a) in change (chr a) with v
         end.
  rewrite !orb_true_iff, !andb_true_iff, !N.leb_le, !N.eqb_eq. lia.
Qed.

Lemma local_nonspace (c : char) :
  in_set false local_chars c = true -> isspace c = false.
Proof.
  intros H.
  pose proof (latin1_check
    (fun c => implb (in_set false local_chars c) (negb (isspace c)))
    ltac:(vm_compute; reflexivity) c (local_latin1 c H)) as K.
  cbv beta in K. rewrite H in K. now apply negb_true_iff in K.
Qed.

Lemma address_nonspace (local host domain : str) :
  address_parts local host domain ->
  Forall (fun a => isspace a = false) (address local host domain)
  /\ address local host domain <> [].
Proof.
  intros (Fl & Fh & Fd & _ & (c0 & t0 & -> & _) & _). split;
    [|discriminate].
  unfold address. apply Forall_app. split.
  - eapply Forall_impl; [|exact Fl]. exact local_nonspace.
  - constructor; [reflexivity|]. apply Forall_app. split.
    + eapply Forall_impl; [|exact Fh]. intros a Ha.
      now apply local_nonspace, domain_in_local, host_in_domain.
    + constructor; [reflexivity|].
      eapply Forall_impl; [|exact Fd]. intros a Ha.
      now apply local_nonspace, domain_in_local.
Qed.

(** The first rule keeps a text without blank, up to the delimiter
    that follows it: a match that starts in it writes the text again,
    and a space after it. *)
Lemma nom_tail_sub (post : str) :
  delimited (hd_error post) = true ->
  forall (x : str) (fuel : nat) (before : option char),
    Forall (fun a => isspace a = false) x ->
    List.length (x ++ post) < fuel ->
    exists z : str,
      sub_loop re_nom repl_nom fuel before (x ++ post) = x ++ z
      /\ delimited (hd_error z) = true /\ (post = [] -> z = []).
Proof.
  intros D.
  assert (Hp : forall c t, post = c :: t ->
                 may true honorific c = false /\ lower c <> 109%N).
  { intros c t ->. cbn [hd_error delimited] in D.
    apply delimiter_honorific in D. tauto. }
  induction x as [|a x IH]; intros fuel before Fx Hf.
  - cbn [app] in *.
    assert (M : match_at re_nom before post = None).
    { apply match_at_None, nom_needs_m. cbn [rest]. intros c t E.
      exact (proj2 (Hp c t E)). }
    destruct (sub_loop_stop re_nom repl_nom fuel before post M)
      as (z & -> & Hz).
    exists z. split; [reflexivity|]. rewrite Hz. split; [exact D|].
    intros ->. now destruct z.
  - destruct fuel as [|fuel]; [lia|].
    inversion Fx as [|? ? Ha Fx']; subst.
    destruct (match_at re_nom before ((a :: x) ++ post)) as [st'|] eqn:M.
    + destruct (nom_tail before (a :: x) post st' Fx) as (G & Hne & Pr).
      * intros c t E. exact (proj1 (Hp c t E)).
      * apply (match_at_In re_nom). exact M.
      * rewrite (sub_loop_match re_nom repl_nom fuel before _ st' M Pr).
        cbn [expand repl_nom flat_map]. rewrite G, app_nil_r.
        change (lit " [nom]") with (32%N :: lit "[nom]").
        eexists. split; [rewrite <- app_assoc; reflexivity|].
        split; [reflexivity|]. intros E. contradiction.
    + cbn [app] in *. cbn [sub_loop]. rewrite M.
      destruct (IH fuel (Some a) Fx') as (z & -> & Hz); [simpl in Hf; lia|].
      exists z. split; [reflexivity|exact Hz].
Qed.

(** X23.  An electronic address in a text is replaced by the token
    [[email]], whole.  Take an address [local@host.domain] whose parts
    are made of the characters that the second rule reads, after a
    text that holds no letter m in either case, no [@] and no digit and
    ends with a delimiter (or is empty), and before the end of the text
    or a delimiter.  The redaction keeps the text before, writes the
    token for the address, and what comes after the token starts with a
    delimiter again, or is empty when nothing followed the address: no
    piece of the address is left. *)
Theorem anonymiser_texte_email (pre local host domain post : str) :
  Forall (fun c => lower c <> 109%N /\ mark c = false) pre ->
  delimited (after None pre) = true ->
  address_parts local host domain ->
  delimited (hd_error post) = true ->
  exists suite : str,
    anonymiser_texte (pre ++ address local host domain ++ post)
    = pre ++ lit "[email]" ++ suite
    /\ delimited (hd_error suite) = true
    /\ (post = [] -> suite = []).
Proof.
  intros Fp Dp HA D.
  destruct (address_nonspace local host domain HA) as (FA & NA).
  set (A := address local host domain) in *.
  (* the first rule *)
  assert (N1 : exists z1 : str,
             sub re_nom repl_nom (pre ++ A ++ post) = pre ++ A ++ z1
             /\ delimited (hd_error z1) = true /\ (post = [] -> z1 = [])).
  { unfold sub.
    assert (H0 : forall p1 p2, pre = p1 ++ p2 -> p2 <> [] ->
               match_at re_nom (after None p1) (p2 ++ A ++ post) = None).
    { intros p1 p2 -> Hp2. apply match_at_None, nom_needs_m.
      cbn [rest]. intros c t E.
      apply Forall_app in Fp as [_ Fp]. destruct p2 as [|c' p2];
        [contradiction|]. injection E as <- _.
      inversion Fp as [|? ? [Hc _] _]. exact Hc. }
    rewrite (sub_loop_prefix re_nom repl_nom (A ++ post) None H0)
      by (rewrite length_app; lia).
    destruct (nom_tail_sub post D A
                (S (List.length (pre ++ A ++ post)) - List.length pre)
                (after None pre) FA) as (z1 & -> & Hz).
    { rewrite !length_app. lia. }
    exists z1. split; [reflexivity|exact Hz]. }
  destruct N1 as (z1 & E1 & D1 & Z1).
  (* the second rule *)
  destruct (email_match (after None pre) local host domain z1 HA
              (delimited_word _ Dp) D1) as (st' & M & R & _).
  fold A in M.
  destruct (sub_hit re_email repl_email pre A z1 st') as (z2 & E2 & H2);
    auto.
  { intros p1 p2 -> Hp2. apply match_at_None.
    destruct (exists_last Hp2) as (q & k & ->).
    rewrite <- app_assoc. cbn [app].
    apply email_blocked.
    - rewrite app_assoc in Fp. apply Forall_app in Fp as [Fp _].
      apply Forall_app in Fp as [_ Fp].
      eapply Forall_impl; [|exact Fp]. intros c [_ Hc] ->. discriminate.
    - cbn [hd_error]. rewrite app_assoc, after_snoc in Dp. exact Dp. }
  { apply match_at_None, email_start. cbn [rest]. exact D1. }
  cbn [expand repl_email flat_map] in E2. rewrite app_nil_r in E2.
  (* the later rules *)
  assert (FG : Forall (fun c => mark c = false) (pre ++ lit "[email")).
  { apply Forall_app. split; [|repeat constructor].
    eapply Forall_impl; [|exact Fp]. now intros c [_ Hc]. }
  assert (EG : pre ++ lit "[email]" ++ z2
               = ((pre ++ lit "[email") ++ [93%N]) ++ z2).
  { rewrite <- !app_assoc. reflexivity. }
  rewrite <- H2 in D1.
  destruct (later_keep (re_telephone, repl_telephone) _ z2
              ltac:(simpl; auto) FG D1) as (z3 & E3 & H3).
  rewrite <- H3 in D1.
  destruct (later_keep (re_iban, repl_iban) _ z3
              ltac:(simpl; auto) FG D1) as (z4 & E4 & H4).
  cbn [fst snd] in E3, E4.
  exists z4. unfold anonymiser_texte. cbv zeta.
  rewrite E1, E2, EG, E3, E4. rewrite <- !app_assoc.
  split; [reflexivity|]. rewrite H4. split; [exact D1|].
  intros Ep. specialize (Z1 Ep). subst z1.
  destruct z2; [|discriminate]. destruct z3; [|discriminate].
  now destruct z4.
Qed.


(** ** A telephone number in a text *)

Lemma digit_facts (c : char) :
  ascii_digit c = true ->
  (c < 256)%N /\ in_set false [ICat CDigit] c = true /\ is_word c = true
  /\ in_set false [ICat CSpace; ILit (chr "."); ILit (chr "-")] c = false
  /\ lower c <> 109%N /\ c <> 64%N.
Proof.
  intros H.
  assert (L : (c < 256)%N).
  { unfold ascii_digit, between in H.
    rewrite andb_true_iff, !N.leb_le in H. lia. }
  split; [exact L|].
  pose proof (latin1_check
    (fun c => implb (ascii_digit c)
       (in_set false [ICat CDigit] c && is_word c
        && negb (in_set false [ICat CSpace; ILit (chr "."); ILit (chr "-")]
                   c)
        && negb (lower c =? 109)%N && negb (c =? 64)%N))
    ltac:(vm_compute; reflexivity) c L) as K.
  cbv beta in K. rewrite H in K. cbn [implb] in K.
  rewrite !andb_true_iff, !negb_true_iff, !N.eqb_neq in K. tauto.
Qed.

Lemma separator_facts (c : char) :
  separator c = true ->
  in_set false [ICat CSpace; ILit (chr "."); ILit (chr "-")] c = true
  /\ lower c <> 109%N /\ c <> 64%N.
Proof.
  intros H.
  assert (L : (c < 256)%N).
  { unfold separator in H. rewrite andb_true_iff, N.ltb_lt in H. tauto. }
  pose proof (latin1_check
    (fun c => implb (separator c)
       (negb (lower c =? 109)%N && negb (c =? 64)%N))
    ltac:(vm_compute; reflexivity) c L) as K.
  cbv beta in K. rewrite H in K. cbn [implb] in K.
  rewrite !andb_true_iff, !negb_true_iff, !N.eqb_neq in K.
  unfold separator in H. rewrite andb_true_iff in H. tauto.
Qed.

Lemma pair_facts (g : str) :
  digit_pair g ->
  Forall (fun c => lower c <> 109%N /\ c <> 64%N) g
  /\ exists t d, g = t ++ [d] /\ is_word d = true.
Proof.
  intros [a b Ha Hb|k a b Hk Ha Hb];
    apply digit_facts in Ha; apply digit_facts in Hb;
    try apply separator_facts in Hk.
  - split; [repeat constructor; tauto|].
    exists [a], b. split; [reflexivity|tauto].
  - split; [repeat constructor; tauto|].
    exists [k; a], b. split; [reflexivity|tauto].
Qed.

(** A digit_pair of digits is read at once, with its separator. *)
Lemma pair_head (g z : str) (b : option char) (K : regex)
    (sK : mstate) (lK : list mstate) :
  digit_pair g ->
  ms false K {| prev := after b g; rest := z; groups := [] |} = sK :: lK ->
  exists l,
    ms false (Cat sep (Cat (times 2 digit) K))
       {| prev := b; rest := g ++ z; groups := [] |} = sK :: l.
Proof.
  intros Hg HK.
  assert (T : forall (p : option char) (a c : char),
            ascii_digit a = true -> ascii_digit c = true ->
            ms false K {| prev := Some c; rest := z; groups := [] |}
            = sK :: lK ->
            exists l,
              ms false (Cat (times 2 digit) K)
                 {| prev := p; rest := [a; c] ++ z; groups := [] |}
              = sK :: l).
  { intros p a c Ha Hc HK'.
    apply digit_facts in Ha. apply digit_facts in Hc.
    destruct (rep_class_head false [ICat CDigit] 2 (Some 2) [a; c] 0
                (List.length ([a; c] ++ z)) p z []) as (l2 & H2).
    - repeat constructor; tauto.
    - now right.
    - intros k Hk. simpl in Hk. cbn [below Nat.add]. apply Nat.ltb_lt. lia.
    - simpl. lia.
    - simpl. lia.
    - eapply ms_Cat_head; [exact H2|exact HK']. }
  destruct Hg as [a c Ha Hc|k a c Hk Ha Hc].
  - destruct (T b a c Ha Hc HK) as (l & Hl).
    destruct (rep_class_head false [ICat CSpace; ILit (chr "."); ILit (chr "-")]
                0 (Some 1) [] 0 (List.length ([a; c] ++ z)) b
                ([a; c] ++ z) []) as (l1 & H1).
    + constructor.
    + left. intros x t [= <- _]. apply digit_facts in Ha. tauto.
    + intros k Hk. simpl in Hk. lia.
    + lia.
    + simpl. lia.
    + eapply ms_Cat_head; [exact H1|exact Hl].
  - destruct (T (Some k) a c Ha Hc HK) as (l & Hl).
    destruct (rep_class_head false [ICat CSpace; ILit (chr "."); ILit (chr "-")]
                0 (Some 1) [k] 0 (List.length ([k; a; c] ++ z)) b
                ([a; c] ++ z) []) as (l1 & H1).
    + constructor; [|constructor]. apply separator_facts in Hk. tauto.
    + now right.
    + intros n Hn. simpl in Hn. destruct n; [reflexivity|lia].
    + lia.
    + simpl. lia.
    + eapply ms_Cat_head; [exact H1|exact Hl].
Qed.

(** The third rule at a telephone number: the first match reads the
    number to its end. *)
Lemma telephone_match (b : option char) (T post : str) :
  numero T -> word_opt b = false -> word_opt (hd_error post) = false ->
  exists st',
    match_at re_telephone b (T ++ post) = Some st'
    /\ rest st' = post.
Proof.
  intros [d g1 g2 g3 g4 Hd H1 H2 H3 H4] Hb Hp.
  set (b1 := Some d).
  set (b2 := after b1 g1). set (b3 := after b2 g2).
  set (b4 := after b3 g3). set (b5 := after b4 g4).
  set (s5 := {| prev := b5; rest := post; groups := [] |}).
  assert (E5 : ms false WordBoundary s5 = [s5]).
  { apply boundary_head. unfold at_boundary, s5. cbn [prev rest].
    rewrite Hp. unfold b5.
    destruct (pair_facts g4 H4) as (_ & t & x & -> & W).
    rewrite after_snoc. cbn [word_opt]. now rewrite W. }
  destruct (pair_head g4 post b4 WordBoundary s5 [] H4 E5) as (l4 & E4).
  destruct (pair_head g3 (g4 ++ post) b3 _ s5 l4 H3 E4) as (l3 & E3).
  destruct (pair_head g2 (g3 ++ g4 ++ post) b2 _ s5 l3 H2 E3)
    as (l2 & E2).
  destruct (pair_head g1 (g2 ++ g3 ++ g4 ++ post) b1 _ s5 l2 H1 E2)
    as (l1 & E1).
  assert (Ed : ms false (In [IRange (chr "1") (chr "9")])
                 {| prev := Some (chr "0");
                    rest := d :: g1 ++ g2 ++ g3 ++ g4 ++ post;
                    groups := [] |}
               = [{| prev := b1; rest := g1 ++ g2 ++ g3 ++ g4 ++ post;
                     groups := [] |}]).
  { cbn [ms rest]. rewrite in_set_false. cbn [existsb in_item].
    change (between (chr "1") (chr "9") d) with (between 49%N 57%N d).
    rewrite Hd. reflexivity. }
  destruct (ms_Cat_head false _ _ _ _ _ _ _ Ed E1) as (ld & Ed').
  pose proof (lit_head (chr "0") (d :: g1 ++ g2 ++ g3 ++ g4 ++ post) b [])
    as E0.
  destruct (ms_Cat_head false _ _ _ _ _ _ _ E0 Ed') as (l0 & E0').
  exists s5. split; [|reflexivity].
  unfold match_at.
  replace ((chr "0" :: d :: g1 ++ g2 ++ g3 ++ g4) ++ post)
    with (chr "0" :: d :: g1 ++ g2 ++ g3 ++ g4 ++ post)
    by (cbn [app]; now rewrite <- !app_assoc).
  match goal with
  | |- hd_error (ms _ ?r ?st) = _ =>
      let r' := eval cbv [re re_telephone] in r in change r with r'
  end.
  change (ignorecase re_telephone) with false.
  rewrite ms_boundary_Cat.
  assert (B : at_boundary
                {| prev := b;
                   rest := chr "0" :: d :: g1 ++ g2 ++ g3 ++ g4 ++ post;
                   groups := [] |} = true).
  { unfold at_boundary. cbn [prev rest hd_error]. rewrite Hb. reflexivity. }
  rewrite B, E0'. reflexivity.
Qed.


Lemma numero_facts (T : str) :
  numero T ->
  Forall (fun c => lower c <> 109%N /\ c <> 64%N) T /\ T <> [].
Proof.
  intros [d g1 g2 g3 g4 Hd H1 H2 H3 H4]. split; [|discriminate].
  constructor; [split; [vm_compute|]; discriminate|].
  constructor.
  - apply (digit_facts d).
    unfold ascii_digit, between in *.
    rewrite andb_true_iff, !N.leb_le in *. lia.
  - repeat (apply Forall_app; split); now apply pair_facts.
Qed.

Lemma head_not_m (P post : str) :
  Forall (fun c => lower c <> 109%N) P -> delimited (hd_error post) = true ->
  (forall p1 p2, P = p1 ++ p2 -> p2 <> [] ->
     match_at re_nom (after None p1) (p2 ++ post) = None)
  /\ match_at re_nom (after None P) post = None.
Proof.
  intros F D. split.
  - intros p1 p2 -> Hp. apply match_at_None, nom_needs_m. cbn [rest].
    apply Forall_app in F as [_ F]. destruct p2 as [|c p2];
      [contradiction|]. intros c' t [= <- _]. now inversion F.
  - apply match_at_None, nom_needs_m. cbn [rest]. intros c t E.
    rewrite E in D. cbn [hd_error delimited] in D.
    apply delimiter_honorific in D. tauto.
Qed.

(** X24.  A telephone number in a text is replaced by the token
    [[téléphone]], whole.  Take a number made of [0], a digit from 1 to
    9 and four pairs of digits, each after at most one separator,
    after a text that holds no letter m in either case, no [@] and no
    digit and does not end with a word character, and before the end of
    the text or a delimiter.  The redaction keeps the text before and
    writes the token for the number; the character after the token is
    the one that followed the number. *)
Theorem anonymiser_texte_telephone (pre T post : str) :
  Forall (fun c => lower c <> 109%N /\ mark c = false) pre ->
  word_opt (after None pre) = false ->
  numero T ->
  delimited (hd_error post) = true ->
  exists suite : str,
    anonymiser_texte (pre ++ T ++ post)
    = pre ++ lit "[téléphone]" ++ suite
    /\ hd_error suite = hd_error post.
Proof.
  intros Fp Bp HT D.
  destruct (numero_facts T HT) as (FT & NT).
  assert (F1 : Forall (fun c => lower c <> 109%N) (pre ++ T)).
  { apply Forall_app. split; [eapply Forall_impl; [|exact Fp]
                             |eapply Forall_impl; [|exact FT]];
      now intros c [H _]. }
  assert (F2 : Forall (fun c => c <> 64%N) (pre ++ T)).
  { apply Forall_app. split; [eapply Forall_impl; [|exact Fp]
                             |eapply Forall_impl; [|exact FT]].
    - intros c [_ H] ->. discriminate.
    - now intros c [_ H]. }
  (* the first rule *)
  destruct (head_not_m (pre ++ T) post F1 D) as (A1 & B1).
  destruct (sub_keep re_nom repl_nom (pre ++ T) post A1 B1)
    as (z1 & E1 & H1).
  rewrite <- H1 in D.
  (* the second rule *)
  destruct (sub_keep re_email repl_email (pre ++ T) z1) as (z2 & E2 & H2).
  { intros p1 p2 E Hp. apply match_at_None, email_blocked; [|exact D].
    rewrite E in F2. now apply Forall_app in F2. }
  { apply match_at_None, email_start. exact D. }
  rewrite <- H2 in D.
  (* the third rule *)
  destruct (telephone_match (after None pre) T z2 HT Bp
              (delimited_word _ D)) as (st' & M & R).
  destruct (sub_hit re_telephone repl_telephone pre T z2 st')
    as (z3 & E3 & H3); auto.
  { intros p1 p2 -> Hp. apply match_at_None, telephone_start.
    cbn [rest]. destruct p2 as [|c p2]; [contradiction|].
    intros t [= -> _]. apply Forall_app in Fp as [_ Fp].
    inversion Fp as [|? ? [_ Hc] _]. discriminate. }
  { apply match_at_None, telephone_start. cbn [rest].
    intros t E. rewrite E in D. cbn [hd_error delimited] in D.
    apply delimiter_honorific in D. tauto. }
  cbn [expand repl_telephone flat_map] in E3. rewrite app_nil_r in E3.
  rewrite <- H3 in D.
  (* the fourth rule *)
  assert (FG : Forall (fun c => mark c = false) (pre ++ lit "[téléphone")).
  { apply Forall_app. split; [|repeat constructor].
    eapply Forall_impl; [|exact Fp]. now intros c [_ Hc]. }
  assert (EG : pre ++ lit "[téléphone]" ++ z3
               = ((pre ++ lit "[téléphone") ++ [93%N]) ++ z3).
  { rewrite <- !app_assoc. reflexivity. }
  destruct (later_keep (re_iban, repl_iban) _ z3
              ltac:(simpl; auto) FG D) as (z4 & E4 & H4).
  cbn [fst snd] in E4.
  exists z4. unfold anonymiser_texte. cbv zeta.
  rewrite (app_assoc pre T post), E1.
  rewrite E2, <- (app_assoc pre T z2), E3, EG, E4, <- !app_assoc.
  split; [reflexivity|]. congruence.
Qed.

End Redaction.

(* ================================================================== *)
(** * An honorific and a name in a text *)
(* ================================================================== *)

Section Names.
Context {U : Unicode}.

(** ** What follows a bracket *)

Lemma Forall2_flat_map {A B} (R : A -> A -> Prop) (R' : B -> B -> Prop)
    (f f' : A -> list B) (l l' : list A) :
  Forall2 R l l' -> (forall a a', R a a' -> Forall2 R' (f a) (f' a')) ->
  Forall2 R' (flat_map f l) (flat_map f' l').
Proof.
  intros H Hf. induction H; simpl; [constructor|].
  apply Forall2_app; auto.
Qed.

Lemma alike_lengths (k : char) (z z' : str) (s s' a a' : mstate) :
  alike k z z' s s' -> alike k z z' a a' ->
  (List.length (rest a') <? List.length (rest s'))
  = (List.length (rest a) <? List.length (rest s)).
Proof.
  intros (w & R & R' & _) (w1 & R1 & R1' & _).
  rewrite R, R', R1, R1', !length_app. simpl.
  destruct (Nat.ltb_spec (List.length w1 + S (List.length z'))
              (List.length w + S (List.length z')));
    destruct (Nat.ltb_spec (List.length w1 + S (List.length z))
                (List.length w + S (List.length z))); auto; lia.
Qed.

Lemma rep_alike (k : char) (z z' : str) (f : mstate -> list mstate)
    (lo : nat) (hi : option nat) :
  (forall s s', alike k z z' s s' -> Forall2 (alike k z z') (f s) (f s')) ->
  forall fuel fuel' n s s' w,
    rest s = w ++ k :: z -> alike k z z' s s' ->
    List.length w < fuel -> List.length w < fuel' ->
    Forall2 (alike k z z') (rep f lo hi fuel n s) (rep f lo hi fuel' n s').
Proof.
  intros Hf. induction fuel as [|fuel IH]; intros fuel' n s s' w R A H1 H2;
    [lia|]. destruct fuel' as [|fuel']; [lia|].
  cbn [rep]. apply Forall2_app.
  - destruct (below n hi); [|constructor].
    apply Forall2_flat_map with (R := alike k z z'); [now apply Hf|].
    intros a a' Aa. rewrite (alike_lengths k z z' s s' a a' A Aa).
    destruct (List.length (rest a) <? List.length (rest s)) eqn:L;
      [|constructor].
    apply Nat.ltb_lt in L. destruct Aa as (w1 & R1 & R1' & P1 & G1).
    apply IH with (w := w1); auto.
    + exists w1. auto.
    + rewrite R, R1, !length_app in L. simpl in L. lia.
    + rewrite R, R1, !length_app in L. simpl in L. lia.
  - destruct (lo <=? n); constructor; auto.
Qed.

(** A pattern that reads no [k] matches in the same ways from two
    texts that are the same up to a [k]. *)
Lemma ms_alike (k : char) (z z' : str) (ic : bool) (r : regex) :
  may ic r k = false ->
  forall s s',
    alike k z z' s s' -> Forall2 (alike k z z') (ms ic r s) (ms ic r s').
Proof.
  induction r as [|a|cs| |r1 IH1 r2 IH2|r1 IH1 r2 IH2|lo hi r IH|n r IH];
    intros M s s' A; cbn [may] in M.
  - simpl. constructor; auto.
  - destruct A as (w & R & R' & P & G). cbn [ms]. rewrite R, R'.
    destruct w as [|c w]; cbn [app].
    + rewrite M. constructor.
    + destruct (lit_match ic a c); constructor; [|constructor].
      exists w. unfold advance. cbn. auto.
  - destruct A as (w & R & R' & P & G). cbn [ms]. rewrite R, R'.
    destruct w as [|c w]; cbn [app].
    + rewrite M. constructor.
    + destruct (in_set ic cs c); constructor; [|constructor].
      exists w. unfold advance. cbn. auto.
  - cbn [ms].
    assert (E : at_boundary s' = at_boundary s).
    { destruct A as (w & R & R' & P & G). unfold at_boundary.
      rewrite R, R', P. now destruct w. }
    rewrite E. destruct (at_boundary s); constructor; auto.
  - apply orb_false_iff in M as [M1 M2]. cbn [ms].
    apply Forall2_flat_map with (R := alike k z z'); auto.
  - apply orb_false_iff in M as [M1 M2]. cbn [ms].
    apply Forall2_app; auto.
  - cbn [ms]. destruct A as (w & R & R' & P & G).
    apply rep_alike with (w := w); auto.
    + exists w. auto.
    + rewrite R, length_app. simpl. lia.
    + rewrite R', length_app. simpl. lia.
  - cbn [ms]. specialize (IH M s s' A).
    induction IH as [|a a' l l' Aa _ IHl]; simpl; constructor; auto.
    destruct A as (w & R & R' & P & G).
    destruct Aa as (w1 & R1 & R1' & P1 & G1).
    exists w1. unfold set_group, consumed. cbn [rest prev groups].
    repeat split; auto. rewrite G1. f_equal. f_equal.
    rewrite R, R', R1, R1', !length_app. simpl.
    replace (List.length w + S (List.length z)
             - (List.length w1 + S (List.length z)))
      with (List.length w - List.length w1) by lia.
    replace (List.length w + S (List.length z')
             - (List.length w1 + S (List.length z')))
      with (List.length w - List.length w1) by lia.
    rewrite !firstn_app.
    replace (List.length w - List.length w1 - List.length w) with 0 by lia.
    reflexivity.
Qed.


(** No match of a rule depends on what follows a bracket. *)
Lemma match_at_barrier (rule : pattern * list titem) (b : option char)
    (w z z' : str) (k : char) :
  List.In rule rules -> (k = 91 \/ k = 93)%N ->
  match_at (fst rule) b (w ++ k :: z) = None ->
  match_at (fst rule) b (w ++ k :: z') = None.
Proof.
  intros Hr Hk H. apply match_at_None in H. apply match_at_None.
  pose proof (ms_alike k z z' (ignorecase (fst rule)) (re (fst rule))
                (@rules_skip_brackets _ rule k Hr Hk)
                {| prev := b; rest := w ++ k :: z; groups := [] |}
                {| prev := b; rest := w ++ k :: z'; groups := [] |}) as A.
  rewrite H in A.
  assert (A0 : alike k z z' {| prev := b; rest := w ++ k :: z; groups := [] |}
                {| prev := b; rest := w ++ k :: z'; groups := [] |})
    by (exists w; auto).
  specialize (A A0). inversion A. reflexivity.
Qed.

Lemma starts_in_false (p : pattern) (s : str) :
  forall (pre : str) (before : option char),
    starts_in p before pre s = false ->
    forall p1 p2, pre = p1 ++ p2 -> p2 <> [] ->
      match_at p (after before p1) (p2 ++ s) = None.
Proof.
  induction pre as [|c pre IH]; intros before H p1 p2 E Hp.
  - destruct p1; destruct p2; try discriminate. contradiction.
  - cbn [starts_in] in H.
    destruct (match_at p before ((c :: pre) ++ s)) eqn:M; [discriminate|].
    destruct p1 as [|a p1].
    + simpl in E. subst p2. exact M.
    + simpl in E. injection E as <- E. rewrite after_cons.
      apply (IH (Some c) H p1 p2 E Hp).
Qed.

(** No match of a rule starts at a bracket. *)
Lemma bracket_start (rule : pattern * list titem) (b : option char)
    (k : char) (z : str) :
  List.In rule rules -> (k = 91 \/ k = 93)%N ->
  match_at (fst rule) b (k :: z) = None.
Proof.
  intros Hr Hk. apply match_at_None.
  destruct (ms _ _ _) as [|st' l] eqn:E; [reflexivity|exfalso].
  assert (M : List.In st'
                (ms (ignorecase (fst rule)) (re (fst rule))
                    {| prev := b; rest := k :: z; groups := [] |}))
    by (rewrite E; now left).
  destruct (rule_match _ _ Hr M) as (w & R & X & F). cbn [rest] in R.
  destruct w as [|c w]; [inversion X|].
  injection R as <- _. inversion F as [|? ? [H1 H2] _].
  destruct Hk; contradiction.
Qed.

Lemma sub_loop_skip (p : pattern) (repl : list titem) (fuel : nat)
    (b : option char) (c : char) (t : str) :
  match_at p b (c :: t) = None ->
  sub_loop p repl (S fuel) b (c :: t) = c :: sub_loop p repl fuel (Some c) t.
Proof. intros H. cbn [sub_loop]. now rewrite H. Qed.

(** A later rule that has no match before the token leaves the text up
    to the token, and goes on after the token as it does after a
    bracket. *)
Lemma later_through (rule : pattern * list titem) (P z : str) :
  List.In rule (tl rules) ->
  starts_in (fst rule) None P (lit " [nom]") = false ->
  exists z',
    sub (fst rule) (snd rule) (P ++ lit " [nom]" ++ z)
    = P ++ lit " [nom]" ++ z'
    /\ sub (fst rule) (snd rule) (93%N :: z) = 93%N :: z'.
Proof.
  intros Hr H.
  assert (Hr' : List.In rule rules) by now apply in_cons.
  exists (sub_loop (fst rule) (snd rule) (S (List.length z)) (Some 93%N) z).
  split.
  - change (P ++ lit " [nom]" ++ z)
      with (P ++ lit " [nom" ++ 93%N :: z).
    rewrite (app_assoc P (lit " [nom") (93%N :: z)).
    unfold sub. rewrite sub_loop_prefix.
    + replace (S (List.length ((P ++ lit " [nom") ++ 93%N :: z))
               - List.length (P ++ lit " [nom"))
        with (S (S (List.length z)))
        by (rewrite !length_app; cbn [List.length]; lia).
      rewrite sub_loop_skip by (apply bracket_start; auto).
      rewrite <- app_assoc. reflexivity.
    + intros p1 p2 E Hp. symmetry in E.
      apply app_eq_app in E as (l & [[E1 E2]|[E1 E2]]).
      * (* the position is beyond the text before *)
        assert (F : Forall (fun c => mark c = false) p2).
        { assert (F0 : Forall (fun c => mark c = false) (lit " [nom"))
            by (repeat constructor).
          rewrite E2 in F0. now apply Forall_app in F0. }
        apply guarded_no_match; auto.
      * (* the position is in the text before *)
        destruct l as [|a l].
        { rewrite app_nil_r in E1. subst p1. simpl in E2. subst p2.
          apply guarded_no_match; auto. repeat constructor. }
        subst p2.
        pose proof (starts_in_false (fst rule) (lit " [nom]") P None H
                      p1 (a :: l) E1 ltac:(discriminate)) as M.
        change (lit " [nom]") with ([32%N] ++ 91%N :: lit "nom]") in M.
        rewrite app_assoc in M.
        apply (match_at_barrier rule _ _ _ (lit "nom]" ++ z) 91%N Hr')
          in M; [|now left].
        rewrite <- app_assoc in M. rewrite <- app_assoc. exact M.
    + rewrite !length_app. lia.
  - unfold sub. cbn [List.length].
    rewrite sub_loop_skip by (apply bracket_start; auto). reflexivity.
Qed.

(** ** The optional part of a pattern *)

Lemma opt_skip_head (ic : bool) (r : regex) (st : mstate) :
  ms ic r st = [] -> ms ic (opt r) st = [st].
Proof.
  intros H.
  change (ms ic (opt r) st)
    with (rep (ms ic r) 0 (Some 1) (List.length (rest st)) 0 st).
  destruct (List.length (rest st)); cbn [rep below Nat.ltb Nat.leb];
    [reflexivity|]. now rewrite H.
Qed.

Lemma opt_take_head (ic : bool) (r : regex) (st s2 : mstate)
    (l : list mstate) :
  ms ic r st = s2 :: l -> List.length (rest s2) < List.length (rest st) ->
  exists l', ms ic (opt r) st = s2 :: l'.
Proof.
  intros H L.
  change (ms ic (opt r) st)
    with (rep (ms ic r) 0 (Some 1) (List.length (rest st)) 0 st).
  destruct (List.length (rest st)) as [|f] eqn:E; [lia|].
  cbn [rep]. change (below 0 (Some 1)) with true. rewrite H.
  cbn [flat_map]. rewrite ?E. apply Nat.ltb_lt in L. rewrite L.
  destruct f; simpl; eauto.
Qed.

(** ** The letters and the blanks of a name *)

Lemma blank_facts (c : char) :
  blank c = true ->
  isspace c = true /\ in_set true [AZ] c = false
  /\ in_set true name_letters c = false /\ lower c <> 109%N.
Proof.
  intros H.
  assert (L : (c < 256)%N).
  { unfold blank in H. rewrite andb_true_iff, N.ltb_lt in H. tauto. }
  pose proof (latin1_check
    (fun c => implb (blank c)
                (isspace c && negb (in_set true [AZ] c)
                 && negb (in_set true name_letters c)
                 && negb (lower c =? 109)%N))
    ltac:(vm_compute; reflexivity) c L) as K.
  cbv beta in K. rewrite H in K. cbn [implb] in K.
  rewrite !andb_true_iff, !negb_true_iff, !N.eqb_neq in K. tauto.
Qed.

Lemma initial_facts (c : char) :
  initial c = true -> in_set true [AZ] c = true /\ isspace c = false.
Proof.
  intros H.
  assert (L : (c < 256)%N).
  { unfold initial in H. rewrite andb_true_iff, N.ltb_lt in H. tauto. }
  pose proof (latin1_check
    (fun c => implb (initial c)
                (in_set true [AZ] c && negb (isspace c)))
    ltac:(vm_compute; reflexivity) c L) as K.
  cbv beta in K. rewrite H in K. cbn [implb] in K.
  rewrite !andb_true_iff, !negb_true_iff in K. tauto.
Qed.

Lemma letter_facts (c : char) :
  name_letter c = true -> in_set true name_letters c = true.
Proof. unfold name_letter. rewrite andb_true_iff. tauto. Qed.

(** The letter [m], in either case, is a letter of a name. *)
Lemma letter_m (c : char) :
  in_set true name_letters c = false -> lower c <> 109%N.
Proof.
  intros H E. unfold in_set in H. rewrite E in H. vm_compute in H.
  discriminate.
Qed.

Lemma head_is_cons (P : char -> bool) (z : str) :
  head_is P z = false -> forall c t, z = c :: t -> P c = false.
Proof. intros H c t ->. exact H. Qed.

(** ** The first rule at an honorific and a name *)

Lemma word_head (w y : str) (b : option char) (g : list (nat * str)) :
  word w -> head_is (in_set true name_letters) y = false ->
  exists l,
    ms true name_word {| prev := b; rest := w ++ y; groups := g |}
    = {| prev := after b w; rest := y; groups := g |} :: l.
Proof.
  intros (c & cs & -> & Hc & Hne & F) Hy. unfold name_word.
  apply initial_facts in Hc as [Hc _].
  destruct (plus_class_head true name_letters cs y (Some c) g Hne)
    as (l & E).
  - eapply Forall_impl; [|exact F]. exact letter_facts.
  - now apply head_is_cons.
  - eapply ms_Cat_head.
    + cbn [ms rest app]. rewrite Hc. reflexivity.
    + unfold advance. cbn [groups]. rewrite E, after_cons. reflexivity.
Qed.

Lemma blanks_head (bl y : str) (b : option char) (g : list (nat * str)) :
  blanks bl -> head_is isspace y = false ->
  exists l,
    ms true (plus space) {| prev := b; rest := bl ++ y; groups := g |}
    = {| prev := after b bl; rest := y; groups := g |} :: l.
Proof.
  intros [Hne F] Hy. unfold space. apply plus_class_head; auto.
  - eapply Forall_impl; [|exact F]. intros c Hc.
    rewrite space_set. now apply blank_facts in Hc.
  - intros c t ->. rewrite space_set. exact Hy.
Qed.

Lemma word_starts (w y : str) :
  word w -> head_is isspace (w ++ y) = false.
Proof.
  intros (c & cs & -> & Hc & _). cbn. now apply initial_facts in Hc.
Qed.

Lemma blanks_start (bl y : str) :
  blanks bl -> head_is (in_set true name_letters) (bl ++ y) = false.
Proof.
  intros [Hne F]. destruct bl as [|c bl]; [contradiction|].
  inversion F as [|? ? Hc _]. cbn. now apply blank_facts in Hc.
Qed.

(** No second word is read where the text goes on with something else
    than a blank. *)
Lemma second_word_alone (z : str) (b : option char) (g : list (nat * str)) :
  head_is isspace z = false ->
  ms true (Cat (plus space) name_word)
     {| prev := b; rest := z; groups := g |} = [].
Proof.
  intros H. apply ms_Cat_nil. unfold space. apply plus_class_none.
  cbn [rest]. intros c t ->. rewrite space_set. exact H.
Qed.

(** Nor where the blanks are not followed by two letters. *)
Lemma second_word_none (bl z : str) (b : option char)
    (g : list (nat * str)) :
  Forall (fun c => blank c = true) bl -> head_is isspace z = false ->
  starts_word z = false ->
  ms true (Cat (plus space) name_word)
     {| prev := b; rest := bl ++ z; groups := g |} = [].
Proof.
  intros F Hz Sw.
  destruct (ms _ _ _) as [|st' l] eqn:E; [reflexivity|exfalso].
  assert (M : List.In st'
                (ms true (Cat (plus space) name_word)
                    {| prev := b; rest := bl ++ z; groups := g |}))
    by (rewrite E; now left).
  clear E. cbn [ms] in M. apply in_flat_map in M as (s1 & M1 & M2).
  change (rep (ms true space) 1 None
            (List.length (rest {| prev := b; rest := bl ++ z; groups := g |}))
            0 {| prev := b; rest := bl ++ z; groups := g |})
    with (ms true (plus space)
             {| prev := b; rest := bl ++ z; groups := g |}) in M1.
  destruct (ms_span true _ _ _ M1) as (w & R & _ & Fw). cbn [rest] in R.
  assert (B : exists bl2, bl = w ++ bl2).
  { destruct z as [|k z0].
    - rewrite app_nil_r in R. eauto.
    - apply (prefix_before_barrier (fun a => isspace a = true) k w
               bl z0 (rest s1) R).
      + eapply Forall_impl; [|exact Fw]. intros a Ha.
        cbn [may plus space] in Ha. now rewrite space_set in Ha.
      + cbn in Hz. congruence. }
  destruct B as (bl2 & ->). rewrite <- app_assoc in R.
  apply app_inv_head in R.
  unfold name_word in M2. cbn [ms] in M2.
  apply in_flat_map in M2 as (s2 & M2 & M3).
  destruct (rest s1) as [|c1 t1] eqn:E1; [destruct M2|].
  destruct (in_set true [AZ] c1) eqn:A1; [|destruct M2].
  destruct M2 as [<-|[]].
  apply rep_first in M3 as (s3 & fuel' & M3 & _); [|lia].
  unfold advance in M3. cbn [ms rest] in M3.
  destruct t1 as [|c2 t2]; [destruct M3|].
  destruct (in_set true name_letters c2) eqn:A2; [|destruct M3].
  destruct bl2 as [|a bl2].
  - simpl in R. subst z. cbn [starts_word] in Sw.
    rewrite A1, A2 in Sw. discriminate.
  - simpl in R. injection R as <- _.
    apply Forall_app in F as [_ F]. inversion F as [|? ? Ha _].
    apply blank_facts in Ha. rewrite A1 in Ha. destruct Ha as (_ & Ha & _).
    discriminate.
Qed.

Lemma named_head (name post : str) :
  named name post -> head_is isspace (name ++ post) = false.
Proof.
  intros [w z Hw _|w bl z Hw _ _ _|w1 bl w2 z Hw _ _ _];
    try rewrite <- !app_assoc; now apply word_starts.
Qed.

(** What the first rule reads after the honorific: the blanks and the
    name, to its end. *)
Lemma name_head (name post : str) (b : option char)
    (g : list (nat * str)) :
  named name post ->
  exists st' l,
    ms true (Cat name_word (opt (Cat (plus space) name_word)))
       {| prev := b; rest := name ++ post; groups := g |} = st' :: l
    /\ rest st' = post.
Proof.
  intros [w z Hw Hz|w bl z Hw Hb Hz Sw|w1 bl w2 z Hw1 Hb Hw2 Hz].
  - assert (H1 : head_is (in_set true name_letters) z = false
                 /\ head_is isspace z = false).
    { destruct z as [|c z]; [auto|]. cbn in *.
      now apply orb_false_iff in Hz. }
    destruct H1 as [H1 H2].
    destruct (word_head w z b g Hw H1) as (l1 & E1).
    destruct (ms_Cat_head true _ _ _ _ _ l1 [] E1
                (opt_skip_head true _ _
                   (second_word_alone z (after b w) g H2)))
      as (l & E).
    rewrite E. eauto.
  - destruct (word_head w (bl ++ z) b g Hw (blanks_start bl z Hb))
      as (l1 & E1).
    destruct (ms_Cat_head true _ _ _ _ _ l1 [] E1
                (opt_skip_head true _ _
                   (second_word_none bl z (after b w) g (proj2 Hb) Hz Sw)))
      as (l & E).
    rewrite E. eauto.
  - rewrite <- !app_assoc.
    destruct (word_head w1 (bl ++ w2 ++ z) b g Hw1
                (blanks_start bl (w2 ++ z) Hb)) as (l1 & E1).
    destruct (blanks_head bl (w2 ++ z) (after b w1) g Hb
                (word_starts w2 z Hw2)) as (l2 & E2).
    destruct (word_head w2 z (after (after b w1) bl) g Hw2 Hz)
      as (l3 & E3).
    destruct (ms_Cat_head true _ _ _ _ _ l2 l3 E2 E3) as (l4 & E4).
    destruct (opt_take_head true _ _ _ l4 E4) as (l5 & E5).
    { cbn [rest]. rewrite !length_app. destruct Hb as [Hne _].
      destruct bl; [contradiction|simpl; lia]. }
    destruct (ms_Cat_head true _ _ _ _ _ l1 l5 E1 E5) as (l & E).
    rewrite E. eauto.
Qed.

Lemma suite_head (ws name post : str) (b : option char)
    (g : list (nat * str)) :
  blanks ws -> named name post ->
  exists st' l,
    ms true suite_nom
       {| prev := b; rest := ws ++ name ++ post; groups := g |} = st' :: l
    /\ rest st' = post.
Proof.
  intros Hw Hn.
  destruct (blanks_head ws (name ++ post) b g Hw (named_head _ _ Hn))
    as (l1 & E1).
  destruct (name_head name post (after b ws) g Hn) as (x & l2 & E2 & R).
  unfold suite_nom.
  change (ms true
            (Cat (plus space)
               (Group 2 (Cat name_word (opt (Cat (plus space) name_word)))))
            {| prev := b; rest := ws ++ name ++ post; groups := g |})
    with (flat_map
            (fun s => map (set_group 2 s)
                        (ms true
                           (Cat name_word
                              (opt (Cat (plus space) name_word))) s))
            (ms true (plus space)
                {| prev := b; rest := ws ++ name ++ post; groups := g |})).
  rewrite E1. cbn [flat_map]. rewrite E2. cbn [map app].
  eexists _, _. split; [reflexivity|exact R].
Qed.

(** At an honorific, blanks and a name, the first rule matches: it
    captures the honorific and reads the name to its end. *)
Lemma nom_here (b : option char) (h ws name post : str) :
  List.In h honorifics -> blanks ws -> named name post ->
  word_opt b = false ->
  exists st',
    match_at re_nom b (h ++ ws ++ name ++ post) = Some st'
    /\ rest st' = post /\ group st' 1 = h.
Proof.
  intros Hh Hw Hn Hb. unfold match_at.
  change (ignorecase re_nom) with true.
  rewrite (nom_unfold b h _ Hh Hb).
  destruct (suite_head ws name post (after b h) [(1, h)] Hw Hn)
    as (st' & l & E & R).
  rewrite E. exists st'. split; [reflexivity|]. split; [exact R|].
  assert (M : List.In st'
                (ms true suite_nom
                   {| prev := after b h; rest := ws ++ name ++ post;
                      groups := [(1, h)] |})) by (rewrite E; now left).
  rewrite (ms_no_group true 1 suite_nom eq_refl _ _ M). reflexivity.
Qed.

(** After a name the first rule has no match. *)
Lemma nom_off (b : option char) (name post : str) :
  named name post -> match_at re_nom b post = None.
Proof.
  intros Hn. apply match_at_None, nom_needs_m. cbn [rest].
  destruct Hn as [w z _ Hz|w bl z _ Hb _ _|w1 bl w2 z _ _ _ Hz];
    intros c t E.
  - subst z. cbn in Hz. apply orb_false_iff in Hz as [Hz _].
    now apply letter_m.
  - destruct Hb as [Hne F]. destruct bl as [|a bl]; [contradiction|].
    injection E as <- _. inversion F as [|? ? Ha _].
    now apply blank_facts in Ha.
  - subst z. cbn in Hz. now apply letter_m.
Qed.

(** The first rule on a text that holds an honorific and a name, no
    match starting before them. *)
Lemma nom_through (pre h ws name post : str) :
  List.In h honorifics -> blanks ws -> named name post ->
  word_opt (after None pre) = false ->
  starts_in re_nom None pre (h ++ ws ++ name ++ post) = false ->
  exists z,
    sub re_nom repl_nom (pre ++ h ++ ws ++ name ++ post)
    = (pre ++ h) ++ lit " [nom]" ++ z
    /\ sub re_nom repl_nom (93%N :: post) = 93%N :: z.
Proof.
  intros Hh Hw Hn Hb Hs.
  exists (sub_loop re_nom repl_nom (S (List.length post)) (Some 93%N) post).
  destruct (nom_here (after None pre) h ws name post Hh Hw Hn Hb)
    as (st' & M & R & G).
  set (X := h ++ ws ++ name ++ post) in *.
  assert (LX : List.length post < List.length X).
  { unfold X. rewrite !length_app.
    pose proof (honorific_length h Hh). lia. }
  split.
  - unfold sub.
    rewrite (sub_loop_prefix re_nom repl_nom X None
               (starts_in_false re_nom X pre None Hs))
      by (rewrite length_app; lia).
    replace (S (List.length (pre ++ X)) - List.length pre)
      with (S (List.length X)) by (rewrite length_app; lia).
    rewrite (sub_loop_match re_nom repl_nom _ _ _ st' M)
      by (rewrite R; exact LX).
    cbn [expand repl_nom flat_map]. rewrite G, R, app_nil_r.
    rewrite <- !app_assoc. do 3 f_equal.
    pose proof (nom_off (prev st') name post Hn) as N1.
    pose proof (nom_off (Some 93%N) name post Hn) as N2.
    destruct post as [|c t].
    + destruct (List.length X); [reflexivity|].
      cbn [sub_loop List.length]. now rewrite N1, N2.
    + destruct (List.length X) as [|n] eqn:EX; [simpl in LX; lia|].
      rewrite !sub_loop_skip by assumption. apply (f_equal (cons c)).
      apply sub_loop_fuel with (n := List.length t); simpl in *; lia.
  - unfold sub. cbn [List.length].
    rewrite sub_loop_skip; [reflexivity|].
    apply (bracket_start (re_nom, repl_nom)); simpl; auto.
Qed.

(** C5 (amended).  Take an honorific of the list, blanks, and a name:
    one word, or two words with blanks between them, a word being a
    letter that [[A-Z]] reads and one or more letters that
    [[a-zéèêëàâäôöûüç]] reads, case being ignored; the name ends where
    the text does not go on with such a letter nor, after one word,
    with blanks and a word.  Before the honorific comes a text that
    does not end in a word character, in which no match of the first
    rule starts, and such that no match of a later rule starts before
    the token in this text followed by the honorific and [ [nom]].
    Then the redaction keeps the text before and the honorific and
    writes the token [[nom]] for the blanks and the name, whole; what
    follows the token is what the redaction makes of the rest of the
    text after a closing bracket, so that the statement applies again
    to a name in the rest.  (The token is [[nom]], not [[name]]; where
    a match starts before, it may take the honorific away.) *)
Theorem anonymiser_texte_name (pre h ws name post : str) :
  List.In h honorifics -> blanks ws -> named name post ->
  word_opt (after None pre) = false ->
  starts_in re_nom None pre (h ++ ws ++ name ++ post) = false ->
  (forall rule, List.In rule (tl rules) ->
     starts_in (fst rule) None (pre ++ h) (lit " [nom]") = false) ->
  exists suite : str,
    anonymiser_texte (pre ++ h ++ ws ++ name ++ post)
    = pre ++ h ++ lit " [nom]" ++ suite
    /\ anonymiser_texte (lit "]" ++ post) = lit "]" ++ suite.
Proof.
  intros Hh Hw Hn Hb Hs Hl.
  destruct (nom_through pre h ws name post Hh Hw Hn Hb Hs)
    as (z1 & E1 & F1).
  destruct (later_through (re_email, repl_email) (pre ++ h) z1)
    as (z2 & E2 & F2); [simpl; auto|apply Hl; simpl; auto|].
  destruct (later_through (re_telephone, repl_telephone) (pre ++ h) z2)
    as (z3 & E3 & F3); [simpl; auto|apply Hl; simpl; auto|].
  destruct (later_through (re_iban, repl_iban) (pre ++ h) z3)
    as (z4 & E4 & F4); [simpl; auto|apply Hl; simpl; auto|].
  cbn [fst snd] in *.
  exists z4. unfold anonymiser_texte. cbv zeta. split.
  - rewrite E1, E2, E3, E4. rewrite <- app_assoc. reflexivity.
  - change (lit "]" ++ post) with (93%N :: post).
    rewrite F1, F2, F3, F4. reflexivity.
Qed.

End Names.

(* ================================================================== *)
(** * Runs on concrete requests, further *)
(* ================================================================== *)

Lemma process_text_blank_refused_witness :
  let data :=
    {| pb_texte := Some (lit "  "); pb_agent := Some (lit "autre");
       pb_document_id := Some (lit "d1") |} in
  Forall (fun c => isspace c = true) (get (pb_texte data) [])
  /\ process_text (U := latin1_only) (C := scripted bonjour) 1 data
       one_document
     = (fail 400 (lit "Texte vide"), one_document).
Proof.
  intros data.
  assert (H : Forall (fun c => isspace c = true) (get (pb_texte data) []))
    by (repeat constructor).
  split; [exact H|].
  exact (process_text_blank_refused (U := latin1_only)
           (C := scripted bonjour) 1 data one_document H).
Defined.

Lemma process_text_calls_witness :
  let run :=
    process_text (U := latin1_only) (C := scripted bonjour) 1
      {| pb_texte := Some (lit "Bonjou"); pb_agent := Some (lit "autre");
         pb_document_id := Some (lit "d1") |} one_document in
  code (fst run) = 400
  /\ calls (snd run) = calls one_document
  /\ documents (snd run) = documents one_document.
Proof.
  intros run.
  assert (H : code (fst run) = 400) by (vm_compute; reflexivity).
  destruct (process_text_calls (U := latin1_only) (C := scripted bonjour) 1
              {| pb_texte := Some (lit "Bonjou");
                 pb_agent := Some (lit "autre");
                 pb_document_id := Some (lit "d1") |} one_document)
    as (_ & H1 & H2).
  split; [exact H|]. split; [exact (H1 H)|].
  apply H2. fold run. rewrite H. discriminate.
Defined.

Lemma process_text_stores_the_answer_witness :
  let st := {| st_processing_time := 100%Z; st_word_count := 1;
               st_corrections_count := 1%Z |} in
  let run :=
    process_text (U := latin1_only) (C := scripted bonjour) 1 bonjou
      one_document in
  (pb_document_id bonjou = Some (lit "d1")
   /\ truthy (lit "d1") = true
   /\ query_first (lit "d1") 1 (documents one_document) = Some dossier
   /\ fst run = ok (Processed (lit "Bonjour") (lit "jurifix") st))
  /\ exists d',
       query_first (lit "d1") 1 (documents (snd run)) = Some d'
       /\ content d' = get (pb_texte bonjou) []
       /\ corrected_content d' = Some (lit "Bonjour")
       /\ status d' = lit "completed"
       /\ word_count d' = st_word_count st
       /\ corrections_count d' = st_corrections_count st
       /\ processing_time d'
          = (utcnow (Collaborators := scripted bonjour)
               (S (ticks one_document))
             - utcnow (Collaborators := scripted bonjour)
                 (ticks one_document))%Z
       /\ st_processing_time st = round2 (total_seconds (processing_time d'))
       /\ title d' = title dossier /\ agent_used d' = agent_used dossier
       /\ (updated_at d'
           = utcnow (Collaborators := scripted bonjour)
               (S (S (ticks one_document)))
           \/ updated_at dossier
              = utcnow (Collaborators := scripted bonjour)
                  (S (S (ticks one_document)))
              /\ updated_at d'
                 = utcnow (Collaborators := scripted bonjour)
                     (S (S (S (ticks one_document))))).
Proof.
  intros st run.
  assert (H1 : pb_document_id bonjou = Some (lit "d1")) by reflexivity.
  assert (H2 : truthy (lit "d1") = true) by reflexivity.
  assert (H3 : query_first (lit "d1") 1 (documents one_document)
               = Some dossier) by (vm_compute; reflexivity).
  assert (H4 : fst run = ok (Processed (lit "Bonjour") (lit "jurifix") st))
    by (vm_compute; reflexivity).
  split; [repeat split; assumption|].
  exact (process_text_stores_the_answer (U := latin1_only)
           (C := scripted bonjour) 1 bonjou one_document (lit "d1") dossier
           (lit "Bonjour") (lit "jurifix") st H1 H2 H3 H4).
Defined.

Lemma process_text_statistics_witness :
  let st := {| st_processing_time := 100%Z; st_word_count := 1;
               st_corrections_count := 1%Z |} in
  fst (process_text (U := latin1_only) (C := scripted bonjour) 1 bonjou
         one_document)
  = ok (Processed (lit "Bonjour") (lit "jurifix") st)
  /\ 1 <= st_word_count st
  /\ (0 <= st_corrections_count st)%Z
  /\ (st_corrections_count st = 0%Z
      <-> texte_brut_of (C := scripted bonjour) (get (pb_texte bonjou) [])
          = lit "Bonjour").
Proof.
  intros st.
  assert (H : fst (process_text (U := latin1_only) (C := scripted bonjour)
                     1 bonjou one_document)
              = ok (Processed (lit "Bonjour") (lit "jurifix") st))
    by (vm_compute; reflexivity).
  split; [exact H|].
  exact (process_text_statistics (U := latin1_only)
           (C := scripted bonjour) 1 bonjou one_document
           (lit "Bonjour") (lit "jurifix") st H).
Defined.

Lemma html_corrige_by_lines_witness :
  List.In (lit "a") (paragraphes_corriges (lit "a"))
  /\ Forall (fun c => isspace c = true) (lit " ")
  /\ html_corrige (lit "a" ++ newline :: lit "b")
     = html_corrige (lit "a") ++ html_corrige (lit "b")
  /\ (truthy (strip (lit "a")) = true /\ ~ List.In newline (lit "a"))
  /\ html_corrige (lit " ") = [].
Proof.
  assert (H1 : List.In (lit "a") (paragraphes_corriges (lit "a")))
    by (vm_compute; auto).
  assert (H2 : Forall (fun c => isspace c = true) (lit " "))
    by (repeat constructor).
  split; [exact H1|]. split; [exact H2|].
  destruct (html_corrige_by_lines (lit "a") (lit "b")) as (E & P & _).
  destruct (html_corrige_by_lines (lit " ") []) as (_ & _ & B).
  split; [exact E|]. split; [exact (P _ H1)|exact (B H2)].
Defined.

Lemma anonymiser_texte_untouched_witness :
  Forall (fun c => mark (U := latin1_only) c = false) (lit "Bonjour")
  /\ Forall (fun c => isspace c = false) (lit "Bonjour")
  /\ anonymiser_texte (U := latin1_only) (lit "Bonjour") = lit "Bonjour".
Proof.
  assert (H1 : Forall (fun c => mark (U := latin1_only) c = false)
                 (lit "Bonjour")) by (repeat constructor).
  assert (H2 : Forall (fun c => isspace c = false) (lit "Bonjour"))
    by (repeat constructor).
  split; [exact H1|]. split; [exact H2|].
  exact (anonymiser_texte_untouched (U := latin1_only) (lit "Bonjour") H1
           (or_introl H2)).
Defined.

Lemma foreign_document_is_not_found_witness :
  let sb := {| sb_id := Some (lit "d1"); sb_title := None;
               sb_content := None; sb_corrected_content := None;
               sb_agent := None |} in
  let ub := {| ub_title := Some (lit "Lu"); ub_content := None;
               ub_status := None |} in
  Forall (fun d => id d = lit "d1" -> user_id d <> 2)
    (documents one_document)
  /\ handle_document_get 2 (lit "d1") one_document = inl not_found
  /\ handle_document_put (C := scripted bonjour) 2 (lit "d1") ub
       one_document = (not_found, one_document)
  /\ handle_document_delete 2 (lit "d1") one_document
     = (not_found, one_document)
  /\ save_document (C := scripted bonjour) 2 sb one_document
     = (fail 404 (lit "Document non trouvé"), one_document).
Proof.
  intros sb ub.
  assert (H : Forall (fun d => id d = lit "d1" -> user_id d <> 2)
                (documents one_document)).
  { constructor; [|constructor]. intros _. cbn. lia. }
  split; [exact H|].
  destruct (foreign_document_is_not_found (C := scripted bonjour) 2
              (lit "d1") one_document ub sb H) as (G & P & D & S).
  split; [exact G|]. split; [exact P|]. split; [exact D|].
  exact (S eq_refl eq_refl).
Defined.

Lemma created_document_is_served_witness :
  let cb := {| cb_title := Some (lit "Note"); cb_content := None;
               cb_agent := None |} in
  let w' := snd (handle_documents_post (C := scripted bonjour) 1 cb
                   one_document) in
  Forall (fun d => id d <> uuid4 (Collaborators := scripted bonjour)
                              (draws one_document))
    (documents one_document)
  /\ handle_document_get 2 (lit "doc-") w' = inl not_found
  /\ handle_document_get 1 (lit "d1") w'
     = handle_document_get 1 (lit "d1") one_document.
Proof.
  intros cb w'.
  assert (H : Forall (fun d => id d <> uuid4 (Collaborators := scripted bonjour)
                                         (draws one_document))
                (documents one_document)).
  { constructor; [|constructor]. intros E. vm_compute in E. discriminate. }
  split; [exact H|].
  destruct (created_document_is_served (C := scripted bonjour) 1 cb
              one_document H) as (_ & _ & O & K).
  split.
  - apply (O 2). lia.
  - apply (K 1 (lit "d1")). intros E. vm_compute in E. discriminate.
Defined.

Lemma saved_new_document_is_served_witness :
  let sb := {| sb_id := None; sb_title := Some (lit "Note");
               sb_content := None; sb_corrected_content := None;
               sb_agent := None |} in
  let w' := snd (save_document (C := scripted bonjour) 1 sb one_document) in
  truthy (get (sb_id sb) []) = false
  /\ Forall (fun d => id d <> uuid4 (Collaborators := scripted bonjour)
                                 (draws one_document))
       (documents one_document)
  /\ fst (save_document (C := scripted bonjour) 1 sb one_document)
     = ok (Saved (lit "doc-") (lit "Document sauvegardé"))
  /\ handle_document_get 1 (lit "d1") w'
     = handle_document_get 1 (lit "d1") one_document.
Proof.
  intros sb w'.
  assert (T : truthy (get (sb_id sb) []) = false) by reflexivity.
  assert (H : Forall (fun d => id d <> uuid4 (Collaborators := scripted bonjour)
                                         (draws one_document))
                (documents one_document)).
  { constructor; [|constructor]. intros E. vm_compute in E. discriminate. }
  split; [exact T|]. split; [exact H|].
  destruct (saved_new_document_is_served (C := scripted bonjour) 1 sb
              one_document T H) as (R & _ & K).
  split; [exact R|].
  apply (K 1 (lit "d1")). intros E. vm_compute in E. discriminate.
Defined.

Lemma saved_document_is_served_witness :
  let sb := {| sb_id := Some (lit "d1"); sb_title := None;
               sb_content := Some (lit "Bonjour"); sb_corrected_content := None;
               sb_agent := Some (lit "autre") |} in
  (sb_id sb = Some (lit "d1")
   /\ truthy (lit "d1") = true
   /\ query_first (lit "d1") 1 (documents one_document) = Some dossier)
  /\ fst (save_document (C := scripted bonjour) 1 sb one_document)
     = ok (Saved (lit "d1") (lit "Document sauvegardé"))
  /\ (updated_at dossier = utcnow (Collaborators := scripted bonjour) 0
      /\ option_map v_updated_at
           (match handle_document_get 1 (lit "d1")
                    (snd (save_document (C := scripted bonjour) 1 sb
                            one_document))
            with inr v => Some v | inl _ => None end)
         = Some (utcnow (Collaborators := scripted bonjour) 1))
  /\ handle_document_get 2 (lit "d1")
       (snd (save_document (C := scripted bonjour) 1 sb one_document))
     = handle_document_get 2 (lit "d1") one_document.
Proof.
  intros sb.
  assert (H1 : sb_id sb = Some (lit "d1")) by reflexivity.
  assert (H2 : truthy (lit "d1") = true) by reflexivity.
  assert (H3 : query_first (lit "d1") 1 (documents one_document)
               = Some dossier) by (vm_compute; reflexivity).
  split; [repeat split; assumption|].
  destruct (saved_document_is_served (C := scripted bonjour) 1 sb
              one_document (lit "d1") dossier H1 H2 H3) as (R & G & K).
  split; [exact R|]. split.
  - split; [reflexivity|]. rewrite G. vm_compute. reflexivity.
  - apply (K 2 (lit "d1")). right. lia.
Defined.

Lemma put_document_is_served_witness :
  let ub := {| ub_title := Some (lit "Lu"); ub_content := None;
               ub_status := None |} in
  query_first (lit "d1") 1 (documents one_document) = Some dossier
  /\ fst (handle_document_put (C := scripted bonjour) 1 (lit "d1") ub
            one_document)
     = ok (Done (lit "Document mis à jour"))
  /\ (updated_at dossier = utcnow (Collaborators := scripted bonjour) 0
      /\ option_map v_updated_at
           (match handle_document_get 1 (lit "d1")
                    (snd (handle_document_put (C := scripted bonjour) 1
                            (lit "d1") ub one_document))
            with inr v => Some v | inl _ => None end)
         = Some (utcnow (Collaborators := scripted bonjour) 1))
  /\ handle_document_get 2 (lit "d1")
       (snd (handle_document_put (C := scripted bonjour) 1 (lit "d1") ub
               one_document))
     = handle_document_get 2 (lit "d1") one_document.
Proof.
  intros ub.
  assert (H : query_first (lit "d1") 1 (documents one_document)
              = Some dossier) by (vm_compute; reflexivity).
  split; [exact H|].
  destruct (put_document_is_served (C := scripted bonjour) 1 (lit "d1") ub
              one_document dossier H) as (R & G & K).
  split; [exact R|]. split.
  - split; [reflexivity|]. rewrite G. vm_compute. reflexivity.
  - apply (K 2 (lit "d1")). right. lia.
Defined.

Lemma deleted_document_is_gone_witness :
  (NoDup (map id (documents one_document))
   /\ query_first (lit "d1") 1 (documents one_document) = Some dossier)
  /\ handle_document_get 1 (lit "d1")
       (snd (handle_document_delete 1 (lit "d1") one_document))
     = inl not_found
  /\ handle_document_get 2 (lit "d1")
       (snd (handle_document_delete 1 (lit "d1") one_document))
     = handle_document_get 2 (lit "d1") one_document.
Proof.
  assert (N : NoDup (map id (documents one_document))).
  { constructor; [simpl; tauto|constructor]. }
  assert (H : query_first (lit "d1") 1 (documents one_document)
              = Some dossier) by (vm_compute; reflexivity).
  split; [split; assumption|].
  destruct (deleted_document_is_gone 1 (lit "d1") one_document dossier N H)
    as (_ & G & _ & _ & K).
  split; [exact G|]. apply (K 2 (lit "d1")). right. lia.
Defined.

Lemma accounts_keep_distinct_emails_witness :
  NoDup (map u_email (users one_account))
  /\ NoDup (map u_email
              (users (snd (register (C := scripted bonjour)
                             (B := plain_backend) POST true alice
                             one_account))))
  /\ NoDup (map u_email
              (users (snd (login (C := scripted bonjour)
                             (B := plain_backend) POST true alice_login
                             one_account))))
  /\ NoDup (map u_email
              (users (snd (profile_api_put 1
                             {| pr_name := Some (Some (lit "Alice B."));
                                pr_service := None |} one_account)))).
Proof.
  assert (N : NoDup (map u_email (users one_account))).
  { vm_compute. constructor; [simpl; tauto|constructor]. }
  split; [exact N|].
  exact (accounts_keep_distinct_emails (C := scripted bonjour)
           (B := plain_backend) POST true alice alice_login 1
           {| pr_name := Some (Some (lit "Alice B."));
              pr_service := None |} one_account N).
Defined.

Lemma session_from_login_to_logout_witness :
  let s1 := snd (login (C := scripted bonjour) (B := plain_backend) POST
                   true alice_login one_account) in
  (NoDup (map u_id (users one_account))
   /\ fst (login (C := scripted bonjour) (B := plain_backend) POST true
             alice_login one_account)
      = LoggedIn (lit "dashboard") (lit "Alice") (lit "alice@cabinet.fr")
          (lit "collaborateur"))
  /\ is_authenticated s1 = true
  /\ login (C := scripted bonjour) (B := plain_backend) GET false
       alice_login s1 = (Redirect (lit "dashboard"), s1)
  /\ is_authenticated (snd (logout s1)) = false
  /\ users (snd (logout s1)) = users s1.
Proof.
  intros s1.
  assert (N : NoDup (map u_id (users one_account))).
  { vm_compute. constructor; [simpl; tauto|constructor]. }
  assert (L : fst (login (C := scripted bonjour) (B := plain_backend) POST
                     true alice_login one_account)
              = LoggedIn (lit "dashboard") (lit "Alice")
                  (lit "alice@cabinet.fr") (lit "collaborateur"))
    by (vm_compute; reflexivity).
  split; [split; assumption|].
  exact (session_from_login_to_logout (C := scripted bonjour)
           (B := plain_backend) alice_login alice_login POST GET true false
           one_account N
           (or_intror (ex_intro _ _ (ex_intro _ _ (ex_intro _ _ L))))).
Defined.

Lemma profile_api_put_keeps_rights_witness :
  let data := {| pr_name := Some None; pr_service := Some None |} in
  pr_name data = Some None
  /\ snd (profile_api_put 1 data one_account) = one_account.
Proof.
  intros data.
  assert (H : pr_name data = Some None) by reflexivity.
  split; [exact H|].
  exact (proj2 (proj2 (profile_api_put_keeps_rights 1 data one_account)) H).
Defined.

Lemma registered_user_logs_in_witness :
  let s1 := snd (register (C := scripted bonjour) (B := plain_backend) POST
                   true alice no_users) in
  ((forall n password,
      check_password_hash (Backend := plain_backend)
        (generate_password_hash (Backend := plain_backend) n password)
        (Some password) = Some true)
   /\ rb_email alice = Some (lit "alice@cabinet.fr")
   /\ rb_password alice = Some (lit "secret")
   /\ (forall c err,
         fst (register (C := scripted bonjour) (B := plain_backend) POST
                true alice no_users) <> Refused c err))
  /\ exists user,
       by_email (Some (lit "alice@cabinet.fr")) (users s1) = Some user
       /\ session s1 = Some (u_id user)
       /\ is_authenticated (snd (logout s1)) = false
       /\ session
            (snd (login (C := scripted bonjour) (B := plain_backend) POST
                    false
                    {| lb_email := Some (lit "alice@cabinet.fr");
                       lb_password := Some (lit "secret") |}
                    (snd (logout s1))))
          = Some (u_id user).
Proof.
  intros s1.
  assert (K : forall n password,
            check_password_hash (Backend := plain_backend)
              (generate_password_hash (Backend := plain_backend) n password)
              (Some password) = Some true).
  { intros n password. cbn. now rewrite eqb_refl. }
  assert (H1 : rb_email alice = Some (lit "alice@cabinet.fr"))
    by reflexivity.
  assert (H2 : rb_password alice = Some (lit "secret")) by reflexivity.
  assert (H3 : forall c err,
            fst (register (C := scripted bonjour) (B := plain_backend) POST
                   true alice no_users) <> Refused c err).
  { intros c err E. vm_compute in E. discriminate. }
  split; [repeat split; assumption|].
  exact (registered_user_logs_in (C := scripted bonjour)
           (B := plain_backend) true false alice no_users
           (lit "alice@cabinet.fr") (lit "secret") K H1 H2 H3).
Defined.

Lemma listed_agents_are_served_witness :
  (exists info, List.In (lit "jurifix", info) get_agents
                /\ ai_model info = lit "gpt-4")
  /\ (forall info, ~ List.In (lit "resume", info) get_agents)
  /\ editor (lit "jurifix") <> None
  /\ editor (lit "resume") = editor (lit "jurifix").
Proof.
  assert (H1 : exists info, List.In (lit "jurifix", info) get_agents
                            /\ ai_model info = lit "gpt-4").
  { eexists. split; [left; reflexivity|reflexivity]. }
  assert (H2 : forall info, ~ List.In (lit "resume", info) get_agents).
  { intros info [H|[]]. apply (f_equal fst) in H. vm_compute in H.
    discriminate. }
  split; [exact H1|]. split; [exact H2|].
  destruct H1 as (info & H1 & _).
  destruct (proj1 (listed_agents_are_served (lit "jurifix")) info H1)
    as (a & E & _).
  split; [rewrite E; discriminate|].
  exact (proj1 (proj2 (listed_agents_are_served (lit "resume")) H2)).
Defined.

Lemma anonymiser_texte_email_witness :
  let pre := lit "Contact : " in
  let post := lit " svp" in
  (Forall (fun c => lower (U := latin1_only) c <> 109%N
                    /\ mark (U := latin1_only) c = false) pre
   /\ delimited (U := latin1_only) (after None pre) = true
   /\ address_parts (U := latin1_only) (lit "jean.dupont") (lit "gmail")
        (lit "com")
   /\ delimited (U := latin1_only) (hd_error post) = true)
  /\ exists suite : str,
       anonymiser_texte (U := latin1_only)
         (pre ++ address (lit "jean.dupont") (lit "gmail") (lit "com")
              ++ post)
       = pre ++ lit "[email]" ++ suite
       /\ delimited (U := latin1_only) (hd_error suite) = true
       /\ (post = [] -> suite = []).
Proof.
  intros pre post.
  assert (H1 : Forall (fun c => lower (U := latin1_only) c <> 109%N
                                /\ mark (U := latin1_only) c = false) pre).
  { repeat (constructor; [split; [vm_compute; discriminate|reflexivity]|]).
    constructor. }
  assert (H2 : delimited (U := latin1_only) (after None pre) = true)
    by reflexivity.
  assert (H3 : address_parts (U := latin1_only) (lit "jean.dupont")
                 (lit "gmail") (lit "com")).
  { split; [repeat constructor|]. split; [repeat constructor|].
    split; [repeat constructor|]. split; [discriminate|].
    split; [exists (chr "j"), (lit "ean.dupont")
           |exists (lit "co"), (chr "m")]; split; reflexivity. }
  assert (H4 : delimited (U := latin1_only) (hd_error post) = true)
    by reflexivity.
  split; [exact (conj H1 (conj H2 (conj H3 H4)))|].
  exact (anonymiser_texte_email (U := latin1_only) pre (lit "jean.dupont")
           (lit "gmail") (lit "com") post H1 H2 H3 H4).
Defined.

Lemma anonymiser_texte_telephone_witness :
  let pre := lit "Tel : " in
  let T := chr "0" :: chr "1" :: lit " 23" ++ lit ".45" ++ lit "-67"
                                ++ lit "89" in
  let post := lit ", svp" in
  (Forall (fun c => lower (U := latin1_only) c <> 109%N
                    /\ mark (U := latin1_only) c = false) pre
   /\ word_opt (U := latin1_only) (after None pre) = false
   /\ numero (U := latin1_only) T
   /\ delimited (U := latin1_only) (hd_error post) = true)
  /\ exists suite : str,
       anonymiser_texte (U := latin1_only) (pre ++ T ++ post)
       = pre ++ lit "[téléphone]" ++ suite
       /\ hd_error suite = hd_error post.
Proof.
  intros pre T post.
  assert (H1 : Forall (fun c => lower (U := latin1_only) c <> 109%N
                                /\ mark (U := latin1_only) c = false) pre).
  { repeat (constructor; [split; [vm_compute; discriminate|reflexivity]|]).
    constructor. }
  assert (H2 : word_opt (U := latin1_only) (after None pre) = false)
    by reflexivity.
  assert (H3 : numero (U := latin1_only) T).
  { apply numero_pairs; [reflexivity| | | |].
    - apply (pair_apart 32%N 50%N 51%N); reflexivity.
    - apply (pair_apart 46%N 52%N 53%N); reflexivity.
    - apply (pair_apart 45%N 54%N 55%N); reflexivity.
    - apply (pair_joined 56%N 57%N); reflexivity. }
  assert (H4 : delimited (U := latin1_only) (hd_error post) = true)
    by reflexivity.
  split; [exact (conj H1 (conj H2 (conj H3 H4)))|].
  exact (anonymiser_texte_telephone (U := latin1_only) pre T post
           H1 H2 H3 H4).
Defined.

Lemma anonymiser_texte_name_witness :
  let pre := lit "Le 3 mai, " in
  let h := lit "Mme" in
  let ws := lit "  " in
  let name := lit "Anne" ++ lit " " ++ lit "Durand" in
  let post := lit "." in
  (List.In h honorifics
   /\ blanks ws
   /\ named (U := latin1_only) name post
   /\ word_opt (U := latin1_only) (after None pre) = false
   /\ starts_in (U := latin1_only) re_nom None pre
        (h ++ ws ++ name ++ post) = false
   /\ (forall rule, List.In rule (tl rules) ->
         starts_in (U := latin1_only) (fst rule) None (pre ++ h)
           (lit " [nom]") = false))
  /\ exists suite : str,
       anonymiser_texte (U := latin1_only) (pre ++ h ++ ws ++ name ++ post)
       = pre ++ h ++ lit " [nom]" ++ suite
       /\ anonymiser_texte (U := latin1_only) (lit "]" ++ post)
          = lit "]" ++ suite.
Proof.
  intros pre h ws name post.
  assert (H1 : List.In h honorifics) by (vm_compute; tauto).
  assert (H2 : blanks ws) by (split; [discriminate|repeat constructor]).
  assert (H3 : named (U := latin1_only) name post).
  { apply name_of_two.
    - exists 65%N, (lit "nne"). repeat split; try discriminate.
      repeat constructor.
    - split; [discriminate|repeat constructor].
    - exists 68%N, (lit "urand"). repeat split; try discriminate.
      repeat constructor.
    - reflexivity. }
  assert (H4 : word_opt (U := latin1_only) (after None pre) = false)
    by reflexivity.
  assert (H5 : starts_in (U := latin1_only) re_nom None pre
                 (h ++ ws ++ name ++ post) = false)
    by (vm_compute; reflexivity).
  assert (H6 : forall rule, List.In rule (tl rules) ->
                 starts_in (U := latin1_only) (fst rule) None (pre ++ h)
                   (lit " [nom]") = false).
  { intros rule [<-|[<-|[<-|[]]]]; vm_compute; reflexivity. }
  split; [repeat (split; [assumption|]); assumption|].
  exact (anonymiser_texte_name (U := latin1_only) pre h ws name post
           H1 H2 H3 H4 H5 H6).
Defined.
